(** * AgentLongBench: answer extraction and scoring

    A shallow embedding of [eval/common/question_logic.py] (the answer
    extractor) and [eval/evaluate.py] (the scorer), and the properties of
    the specification that concern them; then of the routing helpers of
    [eval/common/mapping.py], of the runner [eval/run.py] and of the
    offline runner [vllm_offline/run.py], with further properties of the
    code.

    Conventions of the embedding.
    - A Python [str] is a list of code points.  The model covers the
      Latin-1 range: one [ascii] per code point 0..255.  Character classes
      ([str.isspace], [\s], [\d], [\w], [str.lower], case-insensitive
      matching) are the tables CPython uses on that range.
    - A Python [int] is a [Z].  Scores are Python floats; they are modelled
      by exact rationals [Q].  The one place where binary64 rounding decides
      a result, [int(float(text))], is modelled bit-exactly.
    - JSON values read from the dataset and prediction files are [pyval]:
      null, booleans, integers, strings and lists.  JSON numbers with a
      fraction and JSON objects nested inside a field are outside the model.
    - A function that can raise returns [py A]; a function that returns
      [Optional[A]] returns [option A].
    - [ast.literal_eval] belongs to the Python standard library; the
      extractor takes it as a parameter [literal_eval]. *)

From Stdlib Require Import ZArith QArith Ascii String List Bool Lia.
From stdpp Require Import gmap strings list.

Local Open Scope Z_scope.

(** ** Python built-ins used by the two modules *)

Module Py.

Definition str := list ascii.

(** A string literal. *)
Definition lit (x : string) : str := list_ascii_of_string x.

Definition code (c : ascii) : N := N_of_ascii c.

Definition in_range (lo hi : N) (c : ascii) : bool :=
  ((lo <=? code c) && (code c <=? hi))%N.

Definition code_in (l : list N) (c : ascii) : bool :=
  existsb (N.eqb (code c)) l.

(** [str.isspace] on one code point; also the class [\s]. *)
Definition isspace (c : ascii) : bool :=
  code_in [9; 10; 11; 12; 13; 28; 29; 30; 31; 32; 133; 160]%N c.

(** The class [\d]: decimal digits (category Nd). *)
Definition isdecimal (c : ascii) : bool := in_range 48 57 c.

(** The class [\w]: [str.isalnum] or an underscore. *)
Definition isword (c : ascii) : bool :=
  in_range 48 57 c || in_range 65 90 c || in_range 97 122 c
  || code_in [95; 170; 178; 179; 181; 185; 186; 188; 189; 190]%N c
  || in_range 192 214 c || in_range 216 246 c || in_range 248 255 c.

(** [str.lower] on one code point. *)
Definition lower_char (c : ascii) : ascii :=
  if in_range 65 90 c || in_range 192 214 c || in_range 216 222 c
  then ascii_of_N (code c + 32)
  else c.

Definition lower (s : str) : str := map lower_char s.

Definition eqc (a b : ascii) : bool := Ascii.eqb a b.

Definition dquote : ascii := ascii_of_N 34.
Definition backslash : ascii := ascii_of_N 92.

Fixpoint drop_while (f : ascii -> bool) (s : str) : str :=
  match s with
  | [] => []
  | c :: t => if f c then drop_while f t else s
  end.

Fixpoint take_while (f : ascii -> bool) (s : str) : str :=
  match s with
  | [] => []
  | c :: t => if f c then c :: take_while f t else []
  end.

Definition strip_with (f : ascii -> bool) (s : str) : str :=
  rev (drop_while f (rev (drop_while f s))).

(** [s.strip()] *)
Definition strip (s : str) : str := strip_with isspace s.

(** [s.strip(chars)] *)
Definition strip_chars (chars : str) (s : str) : str :=
  strip_with (fun c => existsb (eqc c) chars) s.

(** [s.startswith(p)] *)
Fixpoint startswith (p s : str) : bool :=
  match p, s with
  | [], _ => true
  | a :: p', b :: s' => eqc a b && startswith p' s'
  | _ :: _, [] => false
  end.

(** [s.endswith(p)] *)
Definition endswith (p s : str) : bool := startswith (rev p) (rev s).

(** [w in s] for strings. *)
Fixpoint contains (w s : str) : bool :=
  startswith w s ||
  match s with
  | [] => false
  | _ :: t => contains w t
  end.

(** [s.replace(c, empty)] for a one-character [c]. *)
Definition remove_char (c : ascii) (s : str) : str :=
  List.filter (fun x => negb (eqc x c)) s.

(** [s.replace(a, b)] for one-character [a] and [b]. *)
Definition replace_char (a b : ascii) (s : str) : str :=
  map (fun x => if eqc x a then b else x) s.

(** [s.split(sep)] for a one-character separator: always at least one
    piece, empty pieces are kept. *)
Fixpoint split_on (sep : ascii) (s : str) : list str :=
  match s with
  | [] => [[]]
  | c :: t =>
      if eqc c sep then [] :: split_on sep t
      else match split_on sep t with
           | h :: r => (c :: h) :: r
           | [] => [[c]]
           end
  end.

(** [s.split()]: maximal runs of non-whitespace. *)
Fixpoint split_ws_aux (cur : str) (s : str) : list str :=
  match s with
  | [] => match cur with [] => [] | _ => [rev cur] end
  | c :: t =>
      if isspace c
      then match cur with
           | [] => split_ws_aux [] t
           | _ => rev cur :: split_ws_aux [] t
           end
      else split_ws_aux (c :: cur) t
  end.

Definition split_ws (s : str) : list str := split_ws_aux [] s.

(** [sep.join(l)] *)
Fixpoint join (sep : str) (l : list str) : str :=
  match l with
  | [] => []
  | [x] => x
  | x :: r => x ++ sep ++ join sep r
  end.

(** Truthiness of a string: [not s]. *)
Definition is_empty (s : str) : bool :=
  match s with [] => true | _ => false end.

(** *** Integers as text *)

Definition digit_char (d : Z) : ascii := ascii_of_N (Z.to_N (48 + d)).

Definition digit_val (c : ascii) : Z := Z.of_N (code c) - 48.

(** The decimal digits of a non-negative integer, most significant first;
    [acc] holds the digits already produced. *)
Fixpoint digits_aux (fuel : nat) (n : Z) (acc : str) : str :=
  match fuel with
  | O => acc
  | S f =>
      let acc' := digit_char (n mod 10) :: acc in
      if n <? 10 then acc' else digits_aux f (n / 10) acc'
  end.

Definition digits (n : Z) : str :=
  digits_aux (S (Z.to_nat (Z.log2 n))) n [].

(** [str(n)] for an [int]. *)
Definition str_of_int (n : Z) : str :=
  if n <? 0 then "-"%char :: digits (- n) else digits n.

(** The value of a run of decimal digits. *)
Definition digits_value (s : str) : Z :=
  fold_left (fun acc c => 10 * acc + digit_val c) s 0.

(** *** Exceptions *)

(** The exceptions the code can raise: [ValueError] and [OverflowError]
    of the conversions, whatever [ast.literal_eval] raises that its caller
    does not catch ([LiteralError]), [TypeError] of a value that cannot be
    hashed or compared, and [KeyError] of a key a dictionary does not
    have. *)
Inductive exn :=
| ValueError
| OverflowError
| LiteralError
| TypeError
| KeyError.

Inductive py (A : Type) :=
| Ret (a : A)
| Raise (e : exn).
Arguments Ret {A} a.
Arguments Raise {A} e.

Definition bind {A B} (m : py A) (k : A -> py B) : py B :=
  match m with
  | Ret a => k a
  | Raise e => Raise e
  end.

Definition pmap {A B} (f : A -> B) (m : py A) : py B :=
  bind m (fun a => Ret (f a)).

Declare Scope py_scope.
Delimit Scope py_scope with py.
Notation "x <- m ;; k" := (bind m (fun x => k))
  (at level 100, m at next level, right associativity) : py_scope.

(** *** [int(float(text))]

    [float] rounds the decimal value to the nearest binary64 number (ties
    to even); [int] truncates toward zero and raises [OverflowError] on an
    infinity.  [p / q] is the magnitude of the decimal value. *)

Definition round_half_even (num den : Z) : Z :=
  let d := num / den in
  let r := num mod den in
  if 2 * r <? den then d
  else if den <? 2 * r then d + 1
  else if Z.even d then d else d + 1.

(** [p / q < 2 ^ k], for [k] of either sign. *)
Definition below_pow2 (p q k : Z) : bool :=
  if 0 <=? k then p <? q * 2 ^ k else p * 2 ^ (- k) <? q.

(** The exponent [e] of the binary64 number nearest to [p / q]: its
    significand is [p / q / 2 ^ e] rounded, of 53 bits unless [e] is the
    exponent -1074 of the subnormal numbers. *)
Definition float_exponent (p q : Z) : Z :=
  let e0 := Z.log2 p - Z.log2 q - 52 in
  let e1 := if below_pow2 p q (52 + e0) then e0 - 1 else e0 in
  Z.max e1 (-1074).

(** [int] of the number of significand [round (p / q / 2 ^ e)] and exponent
    [e]; from [2 ^ 1024] on the number is an infinity. *)
Definition float_trunc_at (p q e : Z) : py Z :=
  if 0 <=? e then
    let m := round_half_even p (q * 2 ^ e) in
    if 2 ^ 1024 <=? m * 2 ^ e then Raise OverflowError else Ret (m * 2 ^ e)
  else
    let m := round_half_even (p * 2 ^ (- e)) q in
    Ret (m / 2 ^ (- e)).

Definition float_trunc (p q : Z) : py Z :=
  if p =? 0 then Ret 0 else float_trunc_at p q (float_exponent p q).

(** [int(float(s))] for [s] of the shape [-?\d+(\.\d+)?], the only shape
    the callers pass. *)
Definition int_of_float_text (s : str) : py Z :=
  let neg := match s with c :: _ => eqc c "-" | [] => false end in
  let body := if neg then tl s else s in
  let ip := take_while isdecimal body in
  let fp := match drop_while isdecimal body with
            | c :: r => if eqc c "." then take_while isdecimal r else []
            | [] => []
            end in
  let q := 10 ^ Z.of_nat (length fp) in
  let p := digits_value ip * q + digits_value fp in
  pmap (fun v => if neg then - v else v) (float_trunc p q).

(** *** [repr] of a string (used by [str] of a list) *)

Definition hex_digit (n : N) : ascii :=
  if (n <? 10)%N then ascii_of_N (48 + n) else ascii_of_N (87 + n).

Definition isprintable (c : ascii) : bool :=
  negb (in_range 0 31 c || in_range 127 160 c || code_in [173]%N c).

Definition repr_char (quote : ascii) (c : ascii) : str :=
  if eqc c backslash then [backslash; backslash]
  else if eqc c quote then [backslash; c]
  else if code_in [9]%N c then [backslash; "t"%char]
  else if code_in [10]%N c then [backslash; "n"%char]
  else if code_in [13]%N c then [backslash; "r"%char]
  else if isprintable c then [c]
  else [backslash; "x"%char; hex_digit (code c / 16); hex_digit (code c mod 16)].

Definition repr_str (s : str) : str :=
  let has_single := existsb (eqc "'") s in
  let has_double := existsb (eqc dquote) s in
  let quote := if has_single && negb has_double then dquote else "'"%char in
  quote :: flat_map (repr_char quote) s ++ [quote].

End Py.

(** ** The regular expressions of the two modules

    Each pattern of the source is compiled by hand into a matcher that
    follows the backtracking search of Python's [re] for that pattern. *)

Module Re.
Import Py.

(** One pattern character against one text character under
    [re.IGNORECASE]; the pattern characters are lower-case letters and
    punctuation. *)
Definition eqc_ci (p c : ascii) : bool := eqc p (lower_char c).

Fixpoint startswith_ci (p s : str) : bool :=
  match p, s with
  | [], _ => true
  | a :: p', b :: s' => eqc_ci a b && startswith_ci p' s'
  | _ :: _, [] => false
  end.

Definition isword_opt (o : option ascii) : bool :=
  match o with Some c => isword c | None => false end.

(** [\b] between the character before a position and the one at it. *)
Definition boundary (prev next : option ascii) : bool :=
  xorb (isword_opt prev) (isword_opt next).

(** [re.findall] for a pattern with no empty match.  [m s] is the match of
    the pattern at the start of [s]: what [findall] reports for it and the
    number of characters consumed.  [skip] counts the characters of the
    previous match still to step over. *)
Fixpoint findall_from (m : str -> option (str * nat)) (skip : nat) (s : str)
  : list str :=
  match s with
  | [] => []
  | _ :: t =>
      match skip with
      | S k => findall_from m k t
      | O =>
          match m s with
          | Some (found, len) => found :: findall_from m (Nat.pred len) t
          | None => findall_from m 0 t
          end
      end
  end.

Definition findall (m : str -> option (str * nat)) (s : str) : list str :=
  findall_from m 0 s.

(** [re.search]: the leftmost match. *)
Fixpoint search (m : str -> option (str * nat)) (s : str) : option str :=
  match m s with
  | Some (found, _) => Some found
  | None =>
      match s with
      | [] => None
      | _ :: t => search m t
      end
  end.

(** *** [<answer>(.*?)</answer>] with [DOTALL | IGNORECASE] *)

Definition open_tag : str := lit "<answer>".
Definition close_tag : str := lit "</answer>".

(** The lazy [(.*?)] followed by the closing tag: the shortest body. *)
Fixpoint until_close (s : str) : option str :=
  if startswith_ci close_tag s then Some []
  else match s with
       | [] => None
       | c :: t => option_map (cons c) (until_close t)
       end.

Definition match_answer (s : str) : option (str * nat) :=
  if startswith_ci open_tag s then
    match until_close (skipn (length open_tag) s) with
    | Some body =>
        Some (body, (length open_tag + length body + length close_tag)%nat)
    | None => None
    end
  else None.

(** *** Numeric tokens

    [match_number true true]   is [-?\d[\d,]*(?:\.\d+)?] ([parse_number]),
    [match_number true false]  is [-?\d[\d,]*]           ([parse_boolean]),
    [match_number false true]  is [-?\d+(?:\.\d+)?]      ([_to_number]). *)

Definition number_body (commas : bool) (c : ascii) : bool :=
  isdecimal c || (commas && eqc c ",").

Definition match_number (commas fraction : bool) (s : str)
  : option (str * nat) :=
  let signed :=
    match s with
    | c :: d :: _ => eqc c "-" && isdecimal d
    | _ => false
    end in
  let s1 := if signed then tl s else s in
  match s1 with
  | d :: t =>
      if isdecimal d then
        let run := take_while (number_body commas) t in
        let r := drop_while (number_body commas) t in
        let frac :=
          match r with
          | c :: r1 =>
              if fraction && eqc c "." then
                match take_while isdecimal r1 with
                | [] => []
                | fd => c :: fd
                end
              else []
          | [] => []
          end in
        let found := (if signed then ["-"%char] else []) ++ d :: run ++ frac in
        Some (found, length found)
      else None
  | [] => None
  end.

(** *** [\b(w1|w2|...)\b], as a test ([re.search] used as a condition) *)

Definition word_at (prev : option ascii) (s : str) (w : str) : bool :=
  boundary prev (head s) && startswith w s
  && boundary (last w) (head (skipn (length w) s)).

Fixpoint search_words (ws : list str) (prev : option ascii) (s : str) : bool :=
  existsb (word_at prev s) ws ||
  match s with
  | [] => false
  | c :: t => search_words ws (Some c) t
  end.

(** *** [re.sub(r"(?i)\band\b", ",", text)] *)

Definition and_at (prev : option ascii) (s : str) : bool :=
  boundary prev (head s) && startswith_ci (lit "and") s
  && boundary (head (skipn 2 s)) (head (skipn 3 s)).

Fixpoint sub_and (prev : option ascii) (skip : nat) (s : str) : str :=
  match s with
  | [] => []
  | c :: t =>
      match skip with
      | S k => sub_and (Some c) k t
      | O =>
          if and_at prev s then ","%char :: sub_and (Some c) 2 t
          else c :: sub_and (Some c) 0 t
      end
  end.

(** *** [re.sub(r"[\n;|]", ",", text)] *)

Definition is_list_sep (c : ascii) : bool :=
  code_in [10]%N c || eqc c ";" || eqc c "|".

Definition sub_seps (s : str) : str :=
  map (fun c => if is_list_sep c then ","%char else c) s.

(** *** [re.sub(r"^\d+\.?\s*", "", chunk)] *)

Definition sub_numbering (chunk : str) : str :=
  match take_while isdecimal chunk with
  | [] => chunk
  | _ =>
      let r := drop_while isdecimal chunk in
      let r' := match r with
                | c :: t => if eqc c "." then t else r
                | [] => r
                end in
      drop_while isspace r'
  end.

(** *** [re.split(r"[,;]|\s+and\s+", text, flags=re.IGNORECASE)] *)

Definition match_pair_sep (s : str) : option nat :=
  match s with
  | [] => None
  | c :: _ =>
      if eqc c "," || eqc c ";" then Some 1%nat
      else
        match take_while isspace s with
        | [] => None
        | ws1 =>
            let r := drop_while isspace s in
            if startswith_ci (lit "and") r then
              match take_while isspace (skipn 3 r) with
              | [] => None
              | ws2 => Some (length ws1 + 3 + length ws2)%nat
              end
            else None
        end
  end.

Fixpoint split_from (m : str -> option nat) (skip : nat) (cur : str) (s : str)
  : list str :=
  match s with
  | [] => [rev cur]
  | c :: t =>
      match skip with
      | S k => split_from m k cur t
      | O =>
          match m s with
          | Some len => rev cur :: split_from m (Nat.pred len) [] t
          | None => split_from m 0 (c :: cur) t
          end
      end
  end.

Definition split (m : str -> option nat) (s : str) : list str :=
  split_from m 0 [] s.

End Re.

(** ** eval/common/mapping.py: the labels *)

Module Mapping.

(** The eight question types ([QUESTION_TYPES]); the source holds them as
    string constants. *)
Inductive question_type :=
| COUNT_FREQUENCY_TOOL
| FIND_DUPLICATES_TOOL
| FIND_TARGET_OFFSETS_TOOL
| COUNT_CORRECTNESS_ENV
| COUNT_FREQUENCY_ENV
| FIND_ROUND_LARGEST_VALUE_ENV
| WEIGHTED_SUMMATION_ENV
| INTERSECTION.

(** [HISTORY_TYPE_LABELS]: "Concise-Response" and "Verbose-Response". *)
Inductive history_label := Concise_Response | Verbose_Response.

(** [KNOWLEDGE_TYPE_LABELS] *)
Inductive knowledge_label := knowledge_intensive | knowledge_free.

(** The question types whose answer is an integer. *)
Definition is_number_type (q : question_type) : bool :=
  match q with
  | COUNT_FREQUENCY_TOOL | COUNT_CORRECTNESS_ENV | COUNT_FREQUENCY_ENV
  | FIND_ROUND_LARGEST_VALUE_ENV | WEIGHTED_SUMMATION_ENV => true
  | _ => false
  end.

End Mapping.

(** ** eval/common/question_logic.py: the answer extractor *)

Module QuestionLogic.
Import Py Re Mapping.

Definition _extract_answer_tag (text : str) : option str :=
  if is_empty text then None
  else
    let matches := findall match_answer text in
    match last matches with
    | None => None
    | Some m => Some (strip m)
    end.

(** [int(float(candidate.replace(",", "")))] *)
Definition int_of_token (candidate : str) : py Z :=
  int_of_float_text (remove_char "," candidate).

(** The loop over [reversed(matches)]: the first candidate that converts
    is returned; [ValueError] moves on to the next one, any other
    exception leaves the function. *)
Fixpoint first_convertible (candidates : list str) : py (option Z) :=
  match candidates with
  | [] => Ret None
  | candidate :: rest =>
      match int_of_token candidate with
      | Ret v => Ret (Some v)
      | Raise ValueError => first_convertible rest
      | Raise e => Raise e
      end
  end.

Definition parse_number (text : str) : py (option Z) :=
  if is_empty text then Ret None
  else
    match _extract_answer_tag text with
    | None => Ret None
    | Some inner =>
        let matches := findall (match_number true true) inner in
        match matches with
        | [] => Ret None
        | _ => first_convertible (rev matches)
        end
    end.

Definition neg_words : list str :=
  map lit ["no"; "false"; "not"; "doesn't"; "does not"; "none"; "neither"]%string.

Definition pos_words : list str :=
  map lit ["yes"; "true"; "contain"; "contains"; "appear"; "appears"; "does";
           "both"]%string.

Definition parse_boolean (text : str) : py (option bool) :=
  if is_empty text then Ret None
  else
    match _extract_answer_tag text with
    | None => Ret None
    | Some inner =>
        let text_lower := lower inner in
        if search_words neg_words None text_lower then Ret (Some false)
        else if search_words pos_words None text_lower then Ret (Some true)
        else
          match search (match_number true false) inner with
          | Some found =>
              match int_of_token found with
              | Ret v => Ret (Some (0 <? v))
              | Raise ValueError => Ret None
              | Raise e => Raise e
              end
          | None => Ret None
          end
    end.

(** What [ast.literal_eval] does on a text: it returns a list (given here by
    the [str] of each element), returns a value that is not a list, raises
    [ValueError] or [SyntaxError] (both caught by the callers), or raises
    something else. *)
Inductive literal :=
| LitList (items : list str)
| LitOther
| LitInvalid
| LitRaise.

Definition nonempty (s : str) : bool := negb (is_empty s).

(** [[str(x).strip() for x in arr if str(x).strip()]] *)
Definition cleaned_items (items : list str) : list str :=
  List.filter nonempty (map strip items).

Definition bracketed (text : str) : bool :=
  startswith (lit "[") text && endswith (lit "]") text.

(** The two substitutions that turn every separator into a comma. *)
Definition normalize_separators (text : str) : str :=
  sub_seps (sub_and None 0 text).

(** The loop of [parse_pair_list] over the comma-separated chunks. *)
Definition pair_tokens (text : str) : list str :=
  List.filter nonempty
    (map (fun chunk => strip (sub_numbering chunk))
         (split_on "," (normalize_separators text))).

Section Extractor.

Variable literal_eval : str -> literal.

Definition parse_pair_list (text : str) : py (option (list str)) :=
  if is_empty text then Ret None
  else
    match _extract_answer_tag text with
    | None => Ret None
    | Some inner =>
        let text := strip inner in
        let by_separators :=
          match pair_tokens text with
          | [] => Ret None
          | tokens => Ret (Some tokens)
          end in
        if bracketed text then
          match literal_eval text with
          | LitList items =>
              let cleaned := cleaned_items items in
              if (2 <=? length cleaned)%nat then Ret (Some cleaned)
              else by_separators
          | LitOther | LitInvalid => by_separators
          | LitRaise => Raise LiteralError
          end
        else by_separators
    end.

Definition parse_intersection_list (text : str) : py (list str) :=
  if is_empty text then Ret []
  else
    match _extract_answer_tag text with
    | None => Ret []
    | Some inner =>
        let text := strip inner in
        if is_empty text then Ret []
        else
          let by_separators :=
            Ret (List.filter nonempty
                   (map strip (split_on "," (normalize_separators text)))) in
          if bracketed text then
            match literal_eval text with
            | LitList items => Ret (cleaned_items items)
            | LitOther | LitInvalid => by_separators
            | LitRaise => Raise LiteralError
            end
          else by_separators
    end.

Definition parse_final_guess (text : str) : option str :=
  if is_empty text then None
  else
    match _extract_answer_tag text with
    | None => None
    | Some inner =>
        match strip inner with
        | [] => None
        | s => Some s
        end
    end.

(** The typed value an extraction yields ([pred_answer] of a record). *)
Inductive extracted :=
| ENone
| EInt (n : Z)
| EBool (b : bool)
| EList (l : list str)
| EStr (s : str).

Definition of_option {A} (f : A -> extracted) (o : option A) : extracted :=
  match o with Some a => f a | None => ENone end.

(** [parse_response]; the second component is the parse kind. *)
Definition parse_response (question_type : question_type)
    (history_label : history_label) (raw_text : str) : py extracted * string :=
  if is_number_type question_type then
    (pmap (of_option EInt) (parse_number raw_text), "number"%string)
  else
    match question_type, history_label with
    | FIND_DUPLICATES_TOOL, _ =>
        (pmap (of_option EBool) (parse_boolean raw_text), "boolean"%string)
    | FIND_TARGET_OFFSETS_TOOL, _ =>
        (pmap (of_option EList) (parse_pair_list raw_text), "list"%string)
    | INTERSECTION, Verbose_Response =>
        (pmap EList (parse_intersection_list raw_text),
         "intersection_list"%string)
    | INTERSECTION, Concise_Response =>
        (Ret (of_option EStr (parse_final_guess raw_text)),
         "final_answer"%string)
    | _, _ => (Ret ENone, "unknown"%string)
    end.

End Extractor.

End QuestionLogic.

(** ** eval/evaluate.py: the scorer *)

Module Evaluate.
Import Py Re Mapping.

(** A JSON value as [json.loads] returns it. *)
#[local] Set Warnings "-register-all".
Inductive pyval :=
| VNone
| VBool (b : bool)
| VInt (n : Z)
| VStr (s : str)
| VList (l : list pyval).

(** [repr(v)] *)
Fixpoint py_repr (v : pyval) : str :=
  match v with
  | VNone => lit "None"
  | VBool true => lit "True"
  | VBool false => lit "False"
  | VInt n => str_of_int n
  | VStr s => repr_str s
  | VList l => lit "[" ++ join (lit ", ") (map py_repr l) ++ lit "]"
  end.

(** [str(v)] *)
Definition py_str (v : pyval) : str :=
  match v with
  | VStr s => s
  | _ => py_repr v
  end.

(** Truthiness: [bool(v)]. *)
Definition truthy (v : pyval) : bool :=
  match v with
  | VNone => false
  | VBool b => b
  | VInt n => negb (n =? 0)
  | VStr s => negb (is_empty s)
  | VList l => match l with [] => false | _ => true end
  end.

Definition _to_number (val : pyval) : py (option Z) :=
  match val with
  | VNone => Ret None
  | VBool b => Ret (Some (if b then 1 else 0))
  | VInt n => Ret (Some n)
  | _ =>
      let text := py_str val in
      match search (match_number false true) text with
      | None => Ret None
      | Some found =>
          match int_of_float_text found with
          | Ret v => Ret (Some v)
          | Raise ValueError => Ret None
          | Raise e => Raise e
          end
      end
  end.

Definition _normalize_name (name : str) (knowledge_label : knowledge_label)
  : str :=
  if is_empty name then []
  else
    let normalized := lower (strip name) in
    match knowledge_label with
    | knowledge_free =>
        remove_char "." (remove_char dquote (remove_char "'"
          (remove_char "_" (remove_char "-" (remove_char " " normalized)))))
    | knowledge_intensive =>
        remove_char "." (remove_char dquote (remove_char "'"
          (remove_char "-" (remove_char " " normalized))))
    end.

Definition _normalize_boolean (val : pyval) : option bool :=
  match val with
  | VNone => None
  | VBool b => Some b
  | VInt n => Some (0 <? n)
  | _ =>
      let text := strip (lower (py_str val)) in
      if existsb (fun word => contains word text)
           (map lit ["yes"; "true"; "1"]%string) then Some true
      else if existsb (fun word => contains word text)
                (map lit ["no"; "false"; "0"]%string) then Some false
      else None
  end.

Definition _normalize_pair_list (val : pyval) (knowledge_label : knowledge_label)
  : option (list str) :=
  match val with
  | VList l =>
      Some (flat_map (fun name =>
                        match name with
                        | VStr s => [_normalize_name s knowledge_label]
                        | _ => []
                        end) l)
  | VStr s =>
      let text := strip_chars (lit "[](){}") s in
      let parts := split match_pair_sep text in
      if (2 <=? length parts)%nat
      then Some (map (fun p => _normalize_name (strip p) knowledge_label) parts)
      else None
  | _ => None
  end.

Definition str_eqb (a b : str) : bool := bool_decide (a = b).

Definition _compare_pair_lists (pred gt : list str) : Q :=
  match pred, gt with
  | [], _ | _, [] => 0
  | _, _ =>
      if (length pred =? 2)%nat && (length gt =? 2)%nat
         && str_eqb (nth 0 pred []) (nth 0 gt [])
         && str_eqb (nth 1 pred []) (nth 1 gt [])
      then 1
      else if (length pred =? 1)%nat && (length gt =? 2)%nat
              && str_eqb (nth 0 pred []) (nth 0 gt [])
      then 1 # 2
      else 0
  end.

Definition _to_set (val : pyval) : list str :=
  match val with
  | VList l => List.filter QuestionLogic.nonempty (map (fun v => strip (py_str v)) l)
  | VStr s =>
      flat_map (fun chunk =>
                  List.filter QuestionLogic.nonempty (map strip (split_ws chunk)))
               (split_on "," (replace_char (ascii_of_N 10) "," s))
  | _ => []
  end.

(** A prediction record; a key that is absent reads as [VNone], as
    [dict.get] gives. *)
Record prediction := {
  p_id : pyval;
  p_sample_id : pyval;
  p_round : pyval;
  p_pred_answer : pyval;
  p_pred_intersection : pyval
}.

(** A dataset row: its [id], [None] when the row has no such key, and
    [row.get("answer")]. *)
Record row := {
  r_id : option pyval;
  r_answer : pyval
}.

Definition is_none (v : pyval) : bool :=
  match v with VNone => true | _ => false end.

Definition _pred_key (pred : prediction) : option str :=
  if negb (is_none (p_id pred)) then Some (py_str (p_id pred))
  else if negb (is_none (p_sample_id pred)) && negb (is_none (p_round pred))
  then Some (py_str (p_sample_id pred) ++ lit "_r" ++ py_str (p_round pred))
  else None.

(** [data = {row["id"]: row for row in rows}]: [row["id"]] raises
    [KeyError] on a row without [id], and a list cannot be hashed, so it
    raises [TypeError] as a key; a later row replaces an earlier one with
    the same id.  The dictionary is looked up with keys that are [str]
    only, which a key that is [None], a boolean or a number never equals:
    [data] holds the entries a look-up can reach. *)
Fixpoint build_data (rows : list row) (data : gmap str row)
  : py (gmap str row) :=
  match rows with
  | [] => Ret data
  | r :: rest =>
      match r_id r with
      | None => Raise KeyError
      | Some (VList _) => Raise TypeError
      | Some (VStr k) => build_data rest (<[k := r]> data)
      | Some _ => build_data rest data
      end
  end.

(** The guard [if not key or key not in data: continue]: the row a
    prediction is matched with. *)
Definition matched_row (data : gmap str row) (pred : prediction) : option row :=
  match _pred_key pred with
  | None => None
  | Some key => if is_empty key then None else data !! key
  end.

(** *** The F1 path (intersection, verbose history) *)

Definition to_gset (l : list str) : gset str := list_to_set l.

Definition sample_f1_sets (gt_set pred_set : gset str) : Q :=
  if bool_decide (size gt_set = 0%nat) && bool_decide (size pred_set = 0%nat)
  then 1
  else if bool_decide (size gt_set = 0%nat) || bool_decide (size pred_set = 0%nat)
  then 0
  else
    let inter := inject_Z (Z.of_nat (size (gt_set ∩ pred_set))) in
    let prec := (inter / inject_Z (Z.of_nat (size pred_set)))%Q in
    let rec := (inter / inject_Z (Z.of_nat (size gt_set)))%Q in
    if Qeq_bool (prec + rec) 0 then 0
    else (2 * prec * rec / (prec + rec))%Q.

(** [pred_answer], or [pred_intersection] when that is [None]. *)
Definition f1_pred_val (pred : prediction) : pyval :=
  if is_none (p_pred_answer pred) then p_pred_intersection pred
  else p_pred_answer pred.

Definition sample_f1 (gt pred_val : pyval) : Q :=
  sample_f1_sets (to_gset (_to_set gt)) (to_gset (_to_set pred_val)).

(** The loop of the F1 path: [matched] and the list [f1s]. *)
Fixpoint f1_loop (data : gmap str row) (preds : list prediction)
    (matched : nat) (f1s : list Q) : nat * list Q :=
  match preds with
  | [] => (matched, f1s)
  | pred :: rest =>
      match matched_row data pred with
      | None => f1_loop data rest matched f1s
      | Some r =>
          f1_loop data rest (S matched)
                  (f1s ++ [sample_f1 (r_answer r) (f1_pred_val pred)])
      end
  end.

Definition Qsum (l : list Q) : Q := fold_left Qplus l 0%Q.

(** *** The accuracy path *)

(** What one matched sample adds: [None] when the loop continues before
    [total += 1], otherwise the amount added to [correct]. *)
Definition sample_score (question_type : question_type)
    (knowledge_label : knowledge_label) (history_label : history_label)
    (gt pred_val : pyval) : py (option Q) :=
  if is_number_type question_type then
    (gt_num <- _to_number gt ;;
     pred_num <- _to_number pred_val ;;
     match gt_num with
     | None => Ret None
     | Some g =>
         match pred_num with
         | Some p => Ret (Some (if p =? g then 1%Q else 0%Q))
         | None => Ret (Some 0%Q)
         end
     end)%py
  else
    match question_type, history_label with
    | FIND_DUPLICATES_TOOL, _ =>
        let gt_bool := _normalize_boolean gt in
        let pred_bool := _normalize_boolean pred_val in
        match gt_bool with
        | None => Ret None
        | Some g =>
            match pred_bool with
            | Some p => Ret (Some (if Bool.eqb p g then 1%Q else 0%Q))
            | None => Ret (Some 0%Q)
            end
        end
    | FIND_TARGET_OFFSETS_TOOL, _ =>
        let gt_list := _normalize_pair_list gt knowledge_label in
        let pred_list := _normalize_pair_list pred_val knowledge_label in
        match gt_list with
        | None => Ret None
        | Some g =>
            match pred_list with
            | Some p => Ret (Some (_compare_pair_lists p g))
            | None => Ret (Some 0%Q)
            end
        end
    | INTERSECTION, Concise_Response =>
        let gt_norm :=
          _normalize_name (if truthy gt then py_str gt else []) knowledge_label in
        let pred_norm :=
          _normalize_name (if truthy pred_val then py_str pred_val else [])
                          knowledge_label in
        if is_empty gt_norm then Ret None
        else Ret (Some (if str_eqb pred_norm gt_norm then 1%Q else 0%Q))
    | _, _ => Ret None
    end.

(** The counters of the accuracy loop. *)
Record counters := {
  c_matched : nat;
  c_total : nat;
  c_correct : Q
}.

Fixpoint accuracy_loop (question_type : question_type)
    (knowledge_label : knowledge_label) (history_label : history_label)
    (data : gmap str row) (preds : list prediction) (c : counters)
  : py counters :=
  match preds with
  | [] => Ret c
  | pred :: rest =>
      match matched_row data pred with
      | None =>
          accuracy_loop question_type knowledge_label history_label data rest c
      | Some r =>
          bind (sample_score question_type knowledge_label history_label
                             (r_answer r) (p_pred_answer pred))
               (fun s =>
                  accuracy_loop question_type knowledge_label history_label
                    data rest
                    match s with
                    | None =>
                        {| c_matched := S (c_matched c);
                           c_total := c_total c;
                           c_correct := c_correct c |}
                    | Some x =>
                        {| c_matched := S (c_matched c);
                           c_total := S (c_total c);
                           c_correct := (c_correct c + x)%Q |}
                    end)
      end
  end.

Inductive metric_kind := accuracy | f1.

(** The dictionary [evaluate] returns; [correct] and [total] are present
    on the accuracy path only. *)
Record report := {
  metric : metric_kind;
  score : Q;
  correct : option Q;
  total : option nat;
  matched : nat;
  skipped : nat
}.

Definition of_nat (n : nat) : Q := inject_Z (Z.of_nat n).

(** The report of the F1 path, from the number of prediction records and
    what the loop leaves. *)
Definition f1_report (n_preds matched : nat) (f1s : list Q) : report :=
  let avg_f1 :=
    match f1s with
    | [] => 0%Q
    | _ => (Qsum f1s / of_nat (length f1s))%Q
    end in
  {| metric := f1; score := avg_f1; correct := None; total := None;
     matched := matched; skipped := (n_preds - matched)%nat |}.

(** The report of the accuracy path. *)
Definition accuracy_report (n_preds : nat) (c : counters) : report :=
  let score :=
    if (0 <? c_total c)%nat
    then (c_correct c / of_nat (c_total c))%Q
    else 0%Q in
  {| metric := accuracy; score := score;
     correct := Some (c_correct c); total := Some (c_total c);
     matched := c_matched c; skipped := (n_preds - c_matched c)%nat |}.

(** [evaluate], from the rows and prediction records the two files hold
    and the question type and labels the dataset and its path give. *)
Definition evaluate (question_type : question_type)
    (knowledge_label : knowledge_label) (history_label : history_label)
    (rows : list row) (preds : list prediction) : py report :=
  (data <- build_data rows ∅ ;;
   match question_type, history_label with
   | INTERSECTION, Verbose_Response =>
       let '(matched, f1s) := f1_loop data preds 0 [] in
       Ret (f1_report (length preds) matched f1s)
   | _, _ =>
       pmap (accuracy_report (length preds))
            (accuracy_loop question_type knowledge_label history_label data
               preds {| c_matched := 0; c_total := 0; c_correct := 0%Q |})
   end)%py.

End Evaluate.

(** ** eval/run.py: from an extraction to a prediction record *)

Module Run.
Import Py Mapping QuestionLogic Evaluate.

(** The value [json] stores for [pred_answer] and reads back. *)
Definition to_pyval (e : extracted) : pyval :=
  match e with
  | ENone => VNone
  | EInt n => VInt n
  | EBool b => VBool b
  | EList l => VList (map VStr l)
  | EStr s => VStr s
  end.

(** The record [_process_sample] builds from the raw response of the
    model for a sample with the given [id], [sample_id] and [round] (each
    [VNone] when the sample has no such key). *)
Definition _process_sample (literal_eval : str -> literal)
    (question_type : question_type) (history_label : history_label)
    (id sample_id round : pyval) (raw_content : str) : py prediction :=
  pmap (fun pred_value =>
          {| p_id := id; p_sample_id := sample_id; p_round := round;
             p_pred_answer := to_pyval pred_value;
             p_pred_intersection := VNone |})
       (fst (parse_response literal_eval question_type history_label
                            raw_content)).

End Run.

(** ** The vocabulary of the specification *)

Module Spec.
Import Py Re Mapping QuestionLogic Evaluate.

(** [w] occurs in [s]. *)
Definition occurs_in (w s : str) : Prop :=
  exists pre post, s = pre ++ w ++ post.

(** A text character by character equal to [tag], letter case aside. *)
Definition spelling_of (tag o : str) : Prop := lower o = tag.

(** The text holds no occurrence of [tag], in any letter case. *)
Definition free_of (tag text : str) : Prop :=
  forall o, spelling_of tag o -> ~ occurs_in o text.

(** The same, as a test. *)
Fixpoint contains_ci (tag s : str) : bool :=
  startswith_ci tag s ||
  match s with
  | [] => false
  | _ :: t => contains_ci tag t
  end.

(** The text holds no opening answer tag; no closing answer tag. *)
Definition no_open_tag (text : str) : Prop := free_of open_tag text.
Definition no_close_tag (text : str) : Prop := free_of close_tag text.

(** The text holds no answer span: it holds no opening tag, or no closing
    tag after its first opening tag. *)
Definition spanless (text : str) : Prop :=
  no_open_tag text
  \/ exists pre o rest,
      text = pre ++ o ++ rest /\ no_open_tag pre /\ spelling_of open_tag o
      /\ no_close_tag rest.

(** The characters of a numeric token. *)
Definition number_char (c : ascii) : bool :=
  isdecimal c || eqc c "," || eqc c "." || eqc c "-".

(** The text holds no ["<"]. *)
Definition no_lt (s : str) : bool :=
  forallb (fun c => negb (eqc c "<")) s.

(** [w] occurs in [s] as a whole word: with a [\b] on either side. *)
Definition whole_word_in (w s : str) : Prop :=
  exists pre post,
    s = pre ++ w ++ post
    /\ boundary (last pre) (head (w ++ post)) = true
    /\ boundary (last w) (head post) = true.

(** A response made of answer spans: each span comes after a text that
    holds no opening tag, its content holds no closing tag, and its tags
    are in any letter case. *)
Record segment := {
  seg_pre : str;
  seg_open : str;
  seg_body : str;
  seg_close : str
}.

Definition plain_segment (g : segment) : Prop :=
  no_open_tag (seg_pre g) /\ spelling_of open_tag (seg_open g)
  /\ no_close_tag (seg_body g) /\ spelling_of close_tag (seg_close g).

Fixpoint response (segs : list segment) (tail : str) : str :=
  match segs with
  | [] => tail
  | g :: rest =>
      seg_pre g ++ seg_open g ++ seg_body g ++ seg_close g
      ++ response rest tail
  end.

(** The character before a position [pre] characters into a text that
    comes after [prev]. *)
Definition last_or (prev : option ascii) (pre : str) : option ascii :=
  match last pre with
  | Some c => Some c
  | None => prev
  end.

(** The substrings the scorer looks for in a boolean written as text. *)
Definition affirmative : list str := map lit ["yes"; "true"; "1"]%string.
Definition negative : list str := map lit ["no"; "false"; "0"]%string.

(** *** Textual representations of an integer *)

(** Commas between groups of three digits, counted from the right; the
    argument and the result run from the last digit to the first. *)
Fixpoint commas_aux (k : nat) (s : str) : str :=
  match s with
  | [] => []
  | c :: t =>
      match k with
      | O => ","%char :: c :: commas_aux 2 t
      | S k' => c :: commas_aux k' t
      end
  end.

Definition group3 (ds : str) : str := rev (commas_aux 3 (rev ds)).

Definition sign_of (n : Z) : str := if n <? 0 then ["-"%char] else [].

(** [str(n)] is [plain n]; [format(n, ",")] is [with_commas n]. *)
Definition plain (n : Z) : str := sign_of n ++ digits (Z.abs n).
Definition with_commas (n : Z) : str := sign_of n ++ group3 (digits (Z.abs n)).

(** A decimal suffix: a point and [k] zeros after it. *)
Definition zeros (k : nat) : str := repeat "0"%char k.
Definition with_fraction (body : str) (k : nat) : str :=
  body ++ "."%char :: zeros k.

(** The decimal suffix of a numeral: none, or a point and zeros. *)
Definition numeral_suffix (frac : str) : Prop :=
  frac = [] \/ exists k, frac = "."%char :: zeros (S k).

(** The answer span around a content. *)
Definition span (content : str) : str := open_tag ++ content ++ close_tag.

(** *** Predictions that take no part in the score *)

(** The record is the record of the row: the text of its id, or, when it
    has no id, of its sample id, ["_r"] and its round, is not empty and is
    the id of the row. *)
Definition record_of_row (r : row) (pred : prediction) : Prop :=
  exists key,
    key <> [] /\ r_id r = Some (VStr key)
    /\ ((p_id pred <> VNone /\ key = py_str (p_id pred))
        \/ (p_id pred = VNone /\ p_sample_id pred <> VNone
            /\ p_round pred <> VNone
            /\ key = py_str (p_sample_id pred) ++ lit "_r"
                     ++ py_str (p_round pred))).

(** An unmatched prediction: the guard of the loops leaves it out. *)
Definition unmatched (data : gmap str row) (pred : prediction) : bool :=
  match matched_row data pred with None => true | Some _ => false end.

(** A matched prediction. *)
Definition is_matched (data : gmap str row) (pred : prediction) : bool :=
  negb (unmatched data pred).

(** The ground truth of a question type cannot be normalized. *)
Definition gt_unusable (question_type : question_type)
    (knowledge_label : knowledge_label) (history_label : history_label)
    (gt : pyval) : bool :=
  if is_number_type question_type then
    match _to_number gt with Ret None => true | _ => false end
  else
    match question_type, history_label with
    | FIND_DUPLICATES_TOOL, _ =>
        match _normalize_boolean gt with None => true | _ => false end
    | FIND_TARGET_OFFSETS_TOOL, _ =>
        match _normalize_pair_list gt knowledge_label with
        | None => true
        | _ => false
        end
    | INTERSECTION, Concise_Response =>
        is_empty (_normalize_name (if truthy gt then py_str gt else [])
                                  knowledge_label)
    | _, _ => false
    end.

(** A matched prediction whose row has such a ground truth. *)
Definition gt_skipped (question_type : question_type)
    (knowledge_label : knowledge_label) (history_label : history_label)
    (data : gmap str row) (pred : prediction) : bool :=
  match matched_row data pred with
  | None => false
  | Some r => gt_unusable question_type knowledge_label history_label (r_answer r)
  end.

(** Every other prediction. *)
Definition not_gt_skipped (question_type : question_type)
    (knowledge_label : knowledge_label) (history_label : history_label)
    (data : gmap str row) (pred : prediction) : bool :=
  negb (gt_skipped question_type knowledge_label history_label data pred).

(** The accuracy metric is used: every case but intersection with the
    verbose history. *)
Definition accuracy_case (question_type : question_type)
    (history_label : history_label) : bool :=
  match question_type, history_label with
  | INTERSECTION, Verbose_Response => false
  | _, _ => true
  end.

(** The report with another value of the [skipped] counter. *)
Definition with_skipped (r : report) (n : nat) : report :=
  {| metric := metric r; score := score r; correct := correct r;
     total := total r; matched := matched r; skipped := n |}.

(** An evaluator that rejects every text.  The concrete inputs below are
    not bracketed lists, so the extractor never consults it on them. *)
Definition no_literal : str -> literal := fun _ => LitInvalid.

(** Rows and prediction records of the examples. *)
Definition sample_row : row :=
  {| r_id := Some (VStr (lit "a")); r_answer := VInt 7 |}.

Definition null_row : row :=
  {| r_id := Some (VStr (lit "a")); r_answer := VNone |}.

Definition sample_pred (id : str) (answer : pyval) : prediction :=
  {| p_id := VStr id; p_sample_id := VNone; p_round := VNone;
     p_pred_answer := answer; p_pred_intersection := VNone |}.

End Spec.

(** ** JSON objects, failures *)

Module Json.
Import Py Evaluate.

(** A JSON object as [json.loads] returns it is a [dict] from keys to
    values, a [gmap str pyval]: a key that is absent is not the same as a
    key that holds [null]. *)

(** [o.get(key)]: [None] when the key is absent. *)
Definition get (o : gmap str pyval) (key : string) : pyval :=
  default VNone (o !! lit key).

(** [o.get(key, fallback)] *)
Definition get_or (o : gmap str pyval) (key : string) (fallback : pyval) : pyval :=
  default fallback (o !! lit key).

(** The exceptions of the functions below: those of the extractor and the
    scorer, [AttributeError] of [get] on a JSON value that is no object,
    and whatever a call of the model raises when it fails. *)
Inductive failure :=
| Exn (e : exn)
| AttributeError
| CallError.

Inductive outcome (A : Type) :=
| Done (a : A)
| Fails (e : failure).
Arguments Done {A} a.
Arguments Fails {A} e.

Definition and_then {A B} (m : outcome A) (k : A -> outcome B) : outcome B :=
  match m with
  | Done a => k a
  | Fails e => Fails e
  end.

Definition of_py {A} (m : py A) : outcome A :=
  match m with
  | Ret a => Done a
  | Raise e => Fails (Exn e)
  end.

Declare Scope outcome_scope.
Delimit Scope outcome_scope with outcome.
Notation "x <-- m ;; k" := (and_then m (fun x => k))
  (at level 100, m at next level, right associativity) : outcome_scope.

End Json.

(** ** eval/common/mapping.py: the routing helpers *)

Module Routing.
Import Py Re Mapping Evaluate Json.

(** The string constant of each question type. *)
Definition label (q : question_type) : str :=
  match q with
  | COUNT_FREQUENCY_TOOL => lit "Count Frequency(Tool)"
  | FIND_DUPLICATES_TOOL => lit "Find Duplicates(Tool)"
  | FIND_TARGET_OFFSETS_TOOL => lit "Find Target Offsets(Tool)"
  | COUNT_CORRECTNESS_ENV => lit "Count Correctness(Env)"
  | COUNT_FREQUENCY_ENV => lit "Count Frequency(Env)"
  | FIND_ROUND_LARGEST_VALUE_ENV => lit "Find Round with Largest Value(Env)"
  | WEIGHTED_SUMMATION_ENV => lit "Weighted Summation(Env)"
  | INTERSECTION => lit "Intersection"
  end.

Definition QUESTION_TYPES : list question_type :=
  [COUNT_FREQUENCY_TOOL; FIND_DUPLICATES_TOOL; FIND_TARGET_OFFSETS_TOOL;
   COUNT_CORRECTNESS_ENV; COUNT_FREQUENCY_ENV; FIND_ROUND_LARGEST_VALUE_ENV;
   WEIGHTED_SUMMATION_ENV; INTERSECTION].

(** [s in QUESTION_TYPES], with the question type [s] is the constant of. *)
Definition question_type_of (s : str) : option question_type :=
  find (fun q => str_eqb (label q) s) QUESTION_TYPES.

(** [KNOWLEDGE_TYPE_LABELS.get(key)] and [HISTORY_TYPE_LABELS.get(key)] *)
Definition KNOWLEDGE_TYPE_LABELS (key : str) : option knowledge_label :=
  if str_eqb key (lit "ki") then Some knowledge_intensive
  else if str_eqb key (lit "kf") then Some knowledge_free
  else None.

Definition HISTORY_TYPE_LABELS (key : str) : option history_label :=
  if str_eqb key (lit "c") then Some Concise_Response
  else if str_eqb key (lit "v") then Some Verbose_Response
  else None.

(** [re.fullmatch(r"k[if]-[cv]", part)] *)
Definition context_code (part : str) : bool :=
  match part with
  | [k; x; dash; y] =>
      eqc k "k" && (eqc x "i" || eqc x "f") && eqc dash "-"
      && (eqc y "c" || eqc y "v")
  | _ => false
  end.

(** [infer_context_from_path], from [path.parts]. *)
Definition infer_context_from_path (parts : list str)
  : outcome (str * knowledge_label * str * history_label) :=
  match find context_code (map lower parts) with
  | None => Fails (Exn ValueError)
  | Some found =>
      match split_on "-" found with
      | [knowledge_key; history_key] =>
          match KNOWLEDGE_TYPE_LABELS knowledge_key,
                HISTORY_TYPE_LABELS history_key with
          | Some knowledge_label, Some history_label =>
              Done (knowledge_key, knowledge_label, history_key, history_label)
          | _, _ => Fails (Exn ValueError)
          end
      | _ => Fails (Exn ValueError)
      end
  end.

(** Python's [==] on the values a set can hold; [True] equals [1]. *)
Definition py_eqb (a b : pyval) : bool :=
  match a, b with
  | VNone, VNone => true
  | VBool x, VBool y => Bool.eqb x y
  | VInt x, VInt y => x =? y
  | VBool x, VInt y | VInt y, VBool x => (if x then 1 else 0) =? y
  | VStr x, VStr y => str_eqb x y
  | _, _ => false
  end.

Definition hashable (v : pyval) : bool :=
  match v with VList _ => false | _ => true end.

Definition is_number (v : pyval) : bool :=
  match v with VBool _ | VInt _ => true | _ => false end.

Definition is_text (v : pyval) : bool :=
  match v with VStr _ => true | _ => false end.

(** [sorted] of the values raises [TypeError] when it has to compare a
    string with a number. *)
Definition sortable (values : list pyval) : bool :=
  forallb is_number values || forallb is_text values.

(** [require_single_question_type]: [values] are the truthy
    [question_type] fields in the order of the rows; building the set
    fails on the first value that cannot be hashed. *)
Definition require_single_question_type (rows : list (gmap str pyval))
  : outcome question_type :=
  let values :=
    List.filter truthy (map (fun row => get row "question_type") rows) in
  if negb (forallb hashable values) then Fails (Exn TypeError)
  else
    match values with
    | [] => Fails (Exn ValueError)
    | v :: rest =>
        if forallb (py_eqb v) rest then
          match v with
          | VStr s =>
              match question_type_of s with
              | Some q => Done q
              | None => Fails (Exn ValueError)
              end
          | _ => Fails (Exn ValueError)
          end
        else if sortable values then Fails (Exn ValueError)
        else Fails (Exn TypeError)
    end.

End Routing.

(** ** eval/run.py: running a dataset and resuming a run *)

Module Resume.
Import Py Mapping QuestionLogic Evaluate Run Json Routing.

(** [rows[start:stop]], as Python bounds a slice: a negative index counts
    from the end, and both ends are brought into [0, len]. *)
Definition slice_index (len i : Z) : Z :=
  if i <? 0 then Z.max 0 (len + i) else Z.min i len.

Definition slice {A} (l : list A) (start : Z) (stop : option Z) : list A :=
  let len := Z.of_nat (length l) in
  let a := slice_index len start in
  let b := match stop with
           | None => len
           | Some s => slice_index len s
           end in
  firstn (Z.to_nat (b - a)) (skipn (Z.to_nat a) l).

(** [rows[offset:]] when [limit] is [None], [rows[offset:offset + limit]]
    otherwise (so does [slice_rows] of vllm_offline/common.py). *)
Definition slice_rows {A} (rows : list A) (offset : Z) (limit : option Z)
  : list A :=
  slice rows offset (option_map (Z.add offset) limit).

(** A line of the output file, after [line.strip()] and [json.loads]:
    an empty line, a line that is no JSON ([JSONDecodeError]), a JSON
    object, or a JSON value of another kind. *)
Inductive line :=
| Blank
| Invalid
| Object (o : gmap str pyval)
| Other.

(** The output file; [None] when it does not exist. *)
Definition file := option (list line).

(** A [dict] with string keys, in insertion order: assigning to a key that
    is present keeps its place. *)
Fixpoint od_set {A} (key : str) (v : A) (d : list (str * A))
  : list (str * A) :=
  match d with
  | [] => [(key, v)]
  | (k, x) :: rest =>
      if str_eqb k key then (k, v) :: rest else (k, x) :: od_set key v rest
  end.

Definition od_values {A} (d : list (str * A)) : list A := map snd d.

(** The loop of [_load_existing_records]. *)
Fixpoint existing_from (lines : list line) (records : list (str * gmap str pyval))
  : outcome (list (str * gmap str pyval)) :=
  match lines with
  | [] => Done records
  | Blank :: rest | Invalid :: rest => existing_from rest records
  | Other :: _ => Fails AttributeError
  | Object obj :: rest =>
      let sid := get obj "id" in
      existing_from rest
        (if is_none sid then records else od_set (py_str sid) obj records)
  end.

Definition _load_existing_records (output : file)
  : outcome (list (str * gmap str pyval)) :=
  match output with
  | None => Done []
  | Some lines => existing_from lines []
  end.

(** [str(raw).strip()] is not empty. *)
Definition has_response (obj : gmap str pyval) : bool :=
  nonempty (strip (py_str (get_or obj "raw_response" (VStr [])))).

(** The loop of [_load_completed_ids]. *)
Fixpoint completed_from (lines : list line) (completed : gset str)
  : outcome (gset str) :=
  match lines with
  | [] => Done completed
  | Blank :: rest | Invalid :: rest => completed_from rest completed
  | Other :: _ => Fails AttributeError
  | Object obj :: rest =>
      let sid := get obj "id" in
      completed_from rest
        (if negb (is_none sid) && has_response obj
         then {[py_str sid]} ∪ completed
         else completed)
  end.

Definition _load_completed_ids (output : file) : outcome (gset str) :=
  match output with
  | None => Done ∅
  | Some lines => completed_from lines ∅
  end.

(** [if key in sample: record[key] = sample[key]] *)
Definition copy_key (key : string) (sample record : gmap str pyval) : gmap str pyval :=
  match sample !! lit key with
  | Some v => <[lit key := v]> record
  | None => record
  end.

(** The record [_process_sample] returns. *)
Definition record_of (question_type : question_type) (sample : gmap str pyval)
    (pred_value : extracted) (parse_kind : string) (raw_content : str)
  : gmap str pyval :=
  copy_key "j_round" sample
    (copy_key "i_round" sample
       (copy_key "round" sample
          (<[lit "raw_response" := VStr raw_content]>
             (<[lit "parse_kind" := VStr (lit parse_kind)]>
                (<[lit "pred_answer" := to_pyval pred_value]>
                   (<[lit "question_type" := VStr (label question_type)]>
                      (<[lit "sample_id" := get sample "sample_id"]>
                         (<[lit "id" := get sample "id"]> ∅)))))))).

(** The prediction record [evaluate] reads from a line of the file. *)
Definition prediction_of (obj : gmap str pyval) : prediction :=
  {| p_id := get obj "id";
     p_sample_id := get obj "sample_id";
     p_round := get obj "round";
     p_pred_answer := get obj "pred_answer";
     p_pred_intersection := get obj "pred_intersection" |}.

Section Runner.

Variable literal_eval : str -> literal.

(** The raw content the model returns for the [k]-th pending row of a
    run; [None] when the call fails. *)
Variable respond : nat -> option str.

(** The order in which the calls of a pool of workers complete, as
    [as_completed] yields them: for [n] pending rows, their numbers. *)
Variable as_completed : nat -> list nat.

(** [_process_sample], for the [k]-th pending row, as the record it
    returns. *)
Definition _process_sample_record (question_type : question_type)
    (history_label : history_label) (sample : gmap str pyval) (k : nat)
  : outcome (gmap str pyval) :=
  match respond k with
  | None => Fails CallError
  | Some raw_content =>
      let '(pred, parse_kind) :=
        parse_response literal_eval question_type history_label raw_content in
      (pred_value <-- of_py pred ;;
       Done (record_of question_type sample pred_value parse_kind raw_content))
      %outcome
  end.

(** The loop over the pending rows with one worker. *)
Fixpoint process (question_type : question_type)
    (history_label : history_label) (k : nat) (pending_rows : list (gmap str pyval))
    (output_records : list (str * gmap str pyval)) : outcome (list (str * gmap str pyval)) :=
  match pending_rows with
  | [] => Done output_records
  | sample :: rest =>
      (record <-- _process_sample_record question_type history_label sample k ;;
       let sid := get sample "id" in
       process question_type history_label (S k) rest
         (if is_none sid then output_records
          else od_set (py_str sid) record output_records))%outcome
  end.

(** The loop over [as_completed] with a pool of workers: the rows are
    taken in the order in which their calls complete; a call that raises
    is reported and the loop goes on, without a record and without a
    count for that row.  (A number beyond the rows, which [as_completed]
    never yields, is passed over.) *)
Fixpoint gather (question_type : question_type)
    (history_label : history_label) (pending_rows : list (gmap str pyval))
    (completed : list nat) (output_records : list (str * gmap str pyval))
    (written : nat) : list (str * gmap str pyval) * nat :=
  match completed with
  | [] => (output_records, written)
  | k :: rest =>
      match nth_error pending_rows k with
      | None =>
          gather question_type history_label pending_rows rest output_records
                 written
      | Some sample =>
          match _process_sample_record question_type history_label sample k
          with
          | Done record =>
              let sid := get sample "id" in
              gather question_type history_label pending_rows rest
                (if is_none sid then output_records
                 else od_set (py_str sid) record output_records)
                (S written)
          | Fails _ =>
              gather question_type history_label pending_rows rest
                output_records written
          end
      end
  end.

(** A row is left out when its id is among the completed ones. *)
Definition is_pending (completed_ids : gset str) (sample : gmap str pyval) : bool :=
  let sid := get sample "id" in
  negb (negb (is_none sid) && bool_decide (py_str sid ∈ completed_ids)).

(** [run]: the number it returns and the output file it leaves.  When it
    raises, the file is as it was.  With one worker a call that raises
    ends the run; with a pool of workers ([ThreadPoolExecutor] raises
    [ValueError] when they are none or fewer) the run goes on and writes
    the file. *)
Definition run (parts : list str) (rows : list (gmap str pyval)) (offset : Z)
    (limit : option Z) (workers : Z) (resume : bool) (output : file)
  : outcome (nat * file) :=
  (let rows := slice_rows rows offset limit in
   question_type <-- require_single_question_type rows ;;
   context <-- infer_context_from_path parts ;;
   let '(_, _, _, history_label) := context in
   existing_records <--
     (if resume then _load_existing_records output else Done []) ;;
   completed_ids <--
     (if resume then _load_completed_ids output else Done ∅) ;;
   let pending_rows := List.filter (is_pending completed_ids) rows in
   match pending_rows with
   | [] => Done (0%nat, output)
   | _ =>
       if workers =? 1 then
         output_records <--
           process question_type history_label 0 pending_rows
             existing_records ;;
         Done (length pending_rows,
               Some (map Object (od_values output_records)))
       else if workers <=? 0 then Fails (Exn ValueError)
       else
         let '(output_records, written) :=
           gather question_type history_label pending_rows
             (as_completed (length pending_rows)) existing_records 0 in
         Done (written, Some (map Object (od_values output_records)))
   end)%outcome.

End Runner.

End Resume.

(** ** eval/evaluate.py: [evaluate], from the dataset and the predictions *)

Module Scorer.
Import Py Mapping QuestionLogic Evaluate Run Json Routing Resume.

(** What [evaluate] reads of a row of the dataset. *)
Definition row_of (obj : gmap str pyval) : row :=
  {| r_id := obj !! lit "id"; r_answer := get obj "answer" |}.

(** [evaluate], from the parts of the dataset path, the rows of the
    dataset and the records of the prediction file (one JSON object on
    each line of either file). *)
Definition evaluate (parts : list str) (rows preds : list (gmap str pyval))
  : outcome report :=
  (question_type <-- require_single_question_type rows ;;
   context <-- infer_context_from_path parts ;;
   let '(_, knowledge_label, _, history_label) := context in
   of_py (Evaluate.evaluate question_type knowledge_label history_label
            (map row_of rows) (map prediction_of preds)))%outcome.

End Scorer.

(** ** vllm_offline/run.py and vllm_offline/common.py: the offline runner *)

Module Offline.
Import Py Mapping QuestionLogic Evaluate Run Json Routing Resume.

(** The output file as the runner finds it and leaves it: its lines, and
    whether the last of them ends with a newline.  The runner opens the
    file to append, so what it writes after a last line that has no
    newline continues that line. *)
Record text := { lines : list line; ended : bool }.

(** The file [open] leaves in mode [w]. *)
Definition truncated : text := {| lines := []; ended := true |}.

(** The loop of [load_completed_ids]: the id of every record counts,
    whatever its response. *)
Fixpoint completed_from (lines : list line) (completed : gset str)
  : outcome (gset str) :=
  match lines with
  | [] => Done completed
  | Blank :: rest | Invalid :: rest => completed_from rest completed
  | Other :: _ => Fails AttributeError
  | Object obj :: rest =>
      let sid := get obj "id" in
      completed_from rest
        (if is_none sid then completed else {[py_str sid]} ∪ completed)
  end.

Definition load_completed_ids (output : option text) : outcome (gset str) :=
  match output with
  | None => Done ∅
  | Some f => completed_from (lines f) ∅
  end.

(** [filter_pending]: a row without an id is always pending. *)
Definition filter_pending (rows : list (gmap str pyval))
    (completed_ids : gset str) : list (gmap str pyval) :=
  List.filter
    (fun sample =>
       let sid := get sample "id" in
       is_none sid || negb (bool_decide (py_str sid ∈ completed_ids)))
    rows.

(** [open_output_file]: the file once it is open, kept as it is in mode
    [a] (resume, and the file exists) and emptied in mode [w]. *)
Definition open_output_file (output : option text) (resume : bool) : text :=
  match output with
  | Some f => if resume then f else truncated
  | None => truncated
  end.

(** [f.write(json.dumps(record) + newline)].  After a last line without a
    newline the record continues that line: a blank line becomes the
    record, and a line that holds anything else is no JSON any more, for
    the text of a record starts a JSON object of its own. *)
Definition write (f : text) (record : gmap str pyval) : text :=
  if ended f then {| lines := lines f ++ [Object record]; ended := true |}
  else
    match rev (lines f) with
    | [] => {| lines := [Object record]; ended := true |}
    | Blank :: before =>
        {| lines := rev before ++ [Object record]; ended := true |}
    | _ :: before => {| lines := rev before ++ [Invalid]; ended := true |}
    end.

(** The engine: it cannot be built, or its batch call fails, or it gives
    one response for each prompt of the batch, [respond k] for the
    [k]-th. *)
Inductive engine :=
| Unavailable
| Failing
| Replies (respond : nat -> str).

Section Runner.

Variable literal_eval : str -> literal.

(** The loop over the pending rows and their responses: the file as
    written so far, and the number written or the exception that ends the
    loop. *)
Fixpoint write_records (question_type : question_type)
    (history_label : history_label) (respond : nat -> str) (k : nat)
    (pending : list (gmap str pyval)) (f : text)
  : text * outcome nat :=
  match pending with
  | [] => (f, Done k)
  | sample :: rest =>
      let raw_response := respond k in
      let '(pred, parse_kind) :=
        parse_response literal_eval question_type history_label raw_response in
      match pred with
      | Raise e => (f, Fails (Exn e))
      | Ret pred_value =>
          write_records question_type history_label respond (S k) rest
            (write f (record_of question_type sample pred_value parse_kind
                                raw_response))
      end
  end.

(** [run]: the output file it leaves, and the number it returns or the
    exception it raises. *)
Definition run (llm : engine) (parts : list str)
    (rows : list (gmap str pyval)) (offset : Z) (limit : option Z)
    (resume : bool) (output : option text) : option text * outcome nat :=
  let rows := slice_rows rows offset limit in
  match require_single_question_type rows with
  | Fails e => (output, Fails e)
  | Done question_type =>
      match infer_context_from_path parts with
      | Fails e => (output, Fails e)
      | Done (_, _, _, history_label) =>
          match (if resume then load_completed_ids output else Done ∅) with
          | Fails e => (output, Fails e)
          | Done completed =>
              match filter_pending rows completed with
              | [] => (output, Done 0%nat)
              | pending =>
                  match llm with
                  | Unavailable => (output, Fails CallError)
                  | Failing =>
                      (Some (open_output_file output resume), Fails CallError)
                  | Replies respond =>
                      let '(f, result) :=
                        write_records question_type history_label respond 0
                          pending (open_output_file output resume) in
                      (Some f, result)
                  end
              end
          end
      end
  end.

End Runner.

End Offline.

(** ** Further vocabulary for the properties of the code *)

Module Notions.
Import Py Re Mapping QuestionLogic Evaluate Run Json Routing Resume.

(** A score between 0 and 1. *)
Definition unit_range (x : Q) : Prop := (0 <= x <= 1)%Q.

(** A row [evaluate] can file: it has an id, and the id can be hashed. *)
Definition keyed (r : row) : Prop :=
  exists v, r_id r = Some v /\ hashable v = true.

(** A JSON value that is no text and no list: null, a boolean or an
    integer. *)
Definition not_text (v : pyval) : bool :=
  match v with VNone | VBool _ | VInt _ => true | _ => false end.

(** The four codes of a path component and what each stands for. *)
Definition context_table
  : list (str * (str * knowledge_label * str * history_label)) :=
  [(lit "ki-c", (lit "ki", knowledge_intensive, lit "c", Concise_Response));
   (lit "ki-v", (lit "ki", knowledge_intensive, lit "v", Verbose_Response));
   (lit "kf-c", (lit "kf", knowledge_free, lit "c", Concise_Response));
   (lit "kf-v", (lit "kf", knowledge_free, lit "v", Verbose_Response))].

(** The context a path component stands for, letter case aside. *)
Definition context_of (part : str)
  : option (str * knowledge_label * str * history_label) :=
  option_map snd
    (find (fun entry => str_eqb (fst entry) (lower part)) context_table).

(** The keys of an ordered dictionary. *)
Definition keys {A} (d : list (str * A)) : list str := map fst d.

(** A record filed under the text of its id. *)
Definition filed (kv : str * gmap str pyval) : Prop :=
  is_none (get (snd kv) "id") = false /\ py_str (get (snd kv) "id") = fst kv.

(** A record that marks its key as completed: it is filed under its id and
    has a response. *)
Definition completes (kv : str * gmap str pyval) : Prop :=
  is_none (get (snd kv) "id") = false
  /\ py_str (get (snd kv) "id") = fst kv
  /\ has_response (snd kv) = true.

(** A line that leaves no sample to be tried again: a record with an id
    has a response. *)
Definition settled (l : line) : Prop :=
  match l with
  | Object obj => is_none (get obj "id") = false -> has_response obj = true
  | _ => True
  end.

Definition settled_file (output : file) : Prop :=
  match output with
  | None => True
  | Some lines => Forall settled lines
  end.

(** A file the offline runner can add whole lines to: there is none, or
    it is empty, or its last line ends with a newline or is blank. *)
Definition appendable (output : option Offline.text) : Prop :=
  match output with
  | None => True
  | Some f =>
      Offline.ended f = true \/ Offline.lines f = []
      \/ exists before, Offline.lines f = before ++ [Blank]
  end.

(** A name of one word: letters, digits and underscores, other than the
    word "and". *)
Definition one_word (s : str) : Prop :=
  s <> [] /\ forallb isword s = true /\ lower s <> lit "and".

Definition starts_with_digit (s : str) : bool :=
  match s with c :: _ => isdecimal c | [] => false end.

(** The text of the id of a row or record. *)
Definition id_text (obj : gmap str pyval) : str := py_str (get obj "id").

(** The call of the model gave a response with nothing in it but white
    space. *)
Definition blank (reply : option str) : bool :=
  match reply with
  | Some raw_content => is_empty (strip raw_content)
  | None => false
  end.

(** What the calls numbered from [k] on gave for the rows of a list. *)
Definition answered (respond : nat -> option str) (k : nat)
    (pending : list (gmap str pyval)) (records : list (str * gmap str pyval))
  : Prop :=
  Forall2 (fun sj kv =>
             fst kv = id_text (fst sj)
             /\ is_none (get (snd kv) "id") = false
             /\ id_text (snd kv) = id_text (fst sj)
             /\ has_response (snd kv) = negb (blank (respond (snd sj))))
          (combine pending (seq k (length pending))) records.

(** Every call of a pool of workers completes, once. *)
Definition complete_once (as_completed : nat -> list nat) : Prop :=
  forall n, Permutation (as_completed n) (seq 0 n).

(** The calls complete in the order opposite to that of the rows. *)
Definition last_first (n : nat) : list nat := rev (seq 0 n).

(** The data of the examples: a row of an intersection dataset, the parts
    of its path, and a model that gives the same answer at every call. *)
Definition example_row (id : pyval) : gmap str pyval :=
  <[lit "id" := id]>
    (<[lit "question_type" := VStr (label INTERSECTION)]> ∅).

Definition example_path : list str :=
  [lit "data"; lit "KI-C"; lit "rows.jsonl"].

Definition example_reply : nat -> option str :=
  fun _ => Some (lit "<answer>Mew</answer>").

Definition example_record (id : pyval) : gmap str pyval :=
  record_of INTERSECTION (example_row id) (EStr (lit "Mew")) "final_answer"
            (lit "<answer>Mew</answer>").

(** A model whose first response is blank. *)
Definition first_blank : nat -> option str :=
  fun k => match k with
           | O => Some (lit " ")
           | S _ => example_reply k
           end.

Definition blank_record (id : pyval) : gmap str pyval :=
  record_of INTERSECTION (example_row id) ENone "final_answer" (lit " ").

End Notions.

(** * Properties *)

Import Py Re Mapping QuestionLogic Evaluate Run Spec.

(** ** Strings *)

Lemma eqc_eq a b : eqc a b = true <-> a = b.
Proof. apply Ascii.eqb_eq. Qed.

Lemma eqc_refl a : eqc a a = true.
Proof. apply Ascii.eqb_refl. Qed.

Lemma startswith_app w r : startswith w (w ++ r) = true.
Proof. induction w as [|a w IH]; simpl; [reflexivity|]. now rewrite eqc_refl. Qed.

Lemma startswith_inv w s : startswith w s = true -> exists r, s = w ++ r.
Proof.
  revert s. induction w as [|a w IH]; intros s H.
  - now exists s.
  - destruct s as [|b s]; simpl in H; [discriminate|].
    apply andb_true_iff in H as [Hab Hw].
    apply eqc_eq in Hab. subst b.
    destruct (IH _ Hw) as [r ->]. now exists r.
Qed.

Lemma contains_start w s : startswith w s = true -> contains w s = true.
Proof. intros H. destruct s; simpl in *; now rewrite H. Qed.

Lemma contains_occurs w s : contains w s = true <-> occurs_in w s.
Proof.
  split.
  - induction s as [|c s IH]; simpl; intros H.
    + rewrite orb_false_r in H. apply startswith_inv in H as [r ->].
      now exists [], r.
    + apply orb_true_iff in H as [H|H].
      * apply startswith_inv in H as [r ->]. now exists [], r.
      * destruct (IH H) as (pre & post & ->). now exists (c :: pre), post.
  - intros (pre & post & ->).
    induction pre as [|c pre IH].
    + apply contains_start, (startswith_app w post).
    + simpl. rewrite IH. apply orb_true_r.
Qed.

Lemma drop_while_keeps f a w b :
  (exists c w', w = c :: w' /\ f c = false) ->
  exists a', drop_while f (a ++ w ++ b) = a' ++ w ++ b.
Proof.
  intros (c & w' & -> & Hc).
  induction a as [|x a IH]; simpl.
  - rewrite Hc. now exists [].
  - destruct (f x).
    + exact IH.
    + now exists (x :: a).
Qed.

Lemma strip_with_keeps f a w b :
  (exists c w', w = c :: w' /\ f c = false) ->
  (exists c w', rev w = c :: w' /\ f c = false) ->
  exists a' b', strip_with f (a ++ w ++ b) = a' ++ w ++ b'.
Proof.
  intros Hh Hl. unfold strip_with.
  destruct (drop_while_keeps f a w b Hh) as [a' ->].
  rewrite !rev_app_distr, <- app_assoc.
  destruct (drop_while_keeps f (rev b) (rev w) (rev a') Hl) as [b' ->].
  rewrite !rev_app_distr, !rev_involutive, <- app_assoc.
  now exists a', (rev b').
Qed.

Lemma lower_app a b : lower (a ++ b) = lower a ++ lower b.
Proof. apply map_app. Qed.

(** ** The scorer's reading of a boolean *)

Lemma normalize_boolean_affirmative w pre post :
  In w affirmative ->
  _normalize_boolean (VStr (pre ++ w ++ post)) = Some true.
Proof.
  intros Hw.
  assert (Hc : contains w (strip (lower (pre ++ w ++ post))) = true).
  { rewrite !lower_app.
    assert (Hlow : lower w = w).
    { simpl in Hw. destruct Hw as [<-|[<-|[<-|[]]]]; reflexivity. }
    rewrite Hlow.
    destruct (strip_with_keeps isspace (lower pre) w (lower post))
      as (a' & b' & E).
    - simpl in Hw. destruct Hw as [<-|[<-|[<-|[]]]]; eexists _, _; split; reflexivity.
    - simpl in Hw. destruct Hw as [<-|[<-|[<-|[]]]]; eexists _, _; split; reflexivity.
    - unfold strip. rewrite E. apply contains_occurs. now exists a', b'. }
  unfold _normalize_boolean. cbv beta iota zeta.
  change (py_str (VStr (pre ++ w ++ post))) with (pre ++ w ++ post).
  set (text := strip (lower (pre ++ w ++ post))) in *.
  assert (He : existsb (fun word => contains word text)
                 (map lit ["yes"; "true"; "1"]%string) = true).
  { apply existsb_exists. exists w. split; [exact Hw | exact Hc]. }
  rewrite He. reflexivity.
Qed.

Lemma drop_while_suffix f s : exists a, s = a ++ drop_while f s.
Proof.
  induction s as [|c s [a IH]]; simpl.
  - now exists [].
  - destruct (f c).
    + exists (c :: a). simpl. now f_equal.
    + now exists [].
Qed.

Lemma strip_with_infix f s : exists a b, s = a ++ strip_with f s ++ b.
Proof.
  unfold strip_with.
  destruct (drop_while_suffix f s) as [a Ha].
  destruct (drop_while_suffix f (rev (drop_while f s))) as [b Hb].
  exists a, (rev b).
  rewrite <- rev_app_distr, <- Hb, rev_involutive. exact Ha.
Qed.

Lemma occurs_in_strip w s : occurs_in w (strip s) -> occurs_in w s.
Proof.
  intros (pre & post & E).
  destruct (strip_with_infix isspace s) as (a & b & Hs).
  fold (strip s) in Hs. rewrite E in Hs.
  exists (a ++ pre), (post ++ b). rewrite Hs.
  now rewrite <- !app_assoc.
Qed.

Lemma existsb_contains_false ws text :
  (forall w, In w ws -> ~ occurs_in w text) ->
  existsb (fun word => contains word text) ws = false.
Proof.
  intros H. apply not_true_is_false. intros E.
  apply existsb_exists in E as (w & Hw & Hc).
  apply contains_occurs in Hc. exact (H w Hw Hc).
Qed.

(** C10: the scorer reads a boolean written as text by substring
    containment, affirmative substrings first.  Any string in which "yes",
    "true" or "1" occurs reads as [True], whatever else it holds; a
    negative substring decides only when no affirmative one occurs; so
    "-1" reads as [True] while the integer -1 reads as [False], "no, yes"
    reads as [True] while the extractor makes it [False], and "eyes" reads
    as [True] while the extractor, matching whole words, finds nothing. *)
Theorem normalize_boolean_affirmative_first :
  (forall w pre post,
      In w affirmative ->
      _normalize_boolean (VStr (pre ++ w ++ post)) = Some true)
  /\ (forall w pre post,
         In w negative ->
         (forall a, In a affirmative ->
                    ~ occurs_in a (lower (pre ++ w ++ post))) ->
         _normalize_boolean (VStr (pre ++ w ++ post)) = Some false)
  /\ _normalize_boolean (VStr (lit "-1")) = Some true
  /\ _normalize_boolean (VInt (-1)) = Some false
  /\ _normalize_boolean (VStr (lit "no, yes")) = Some true
  /\ parse_boolean (span (lit "no, yes")) = Ret (Some false)
  /\ _normalize_boolean (VStr (lit "eyes")) = Some true
  /\ parse_boolean (span (lit "eyes")) = Ret None.
Proof.
  split; [exact normalize_boolean_affirmative|].
  split; [|repeat split; vm_compute; reflexivity].
  intros w pre post Hw Hno.
  unfold _normalize_boolean. cbv beta iota zeta.
  change (py_str (VStr (pre ++ w ++ post))) with (pre ++ w ++ post).
  set (text := strip (lower (pre ++ w ++ post))).
  rewrite (existsb_contains_false (map lit ["yes"; "true"; "1"]%string) text).
  2:{ intros a Ha Hocc. apply (Hno a Ha). now apply occurs_in_strip. }
  assert (Hc : contains w text = true).
  { unfold text. rewrite !lower_app.
    assert (Hlow : lower w = w).
    { simpl in Hw. destruct Hw as [<-|[<-|[<-|[]]]]; reflexivity. }
    rewrite Hlow.
    destruct (strip_with_keeps isspace (lower pre) w (lower post))
      as (a' & b' & E).
    - simpl in Hw. destruct Hw as [<-|[<-|[<-|[]]]]; eexists _, _; split; reflexivity.
    - simpl in Hw. destruct Hw as [<-|[<-|[<-|[]]]]; eexists _, _; split; reflexivity.
    - unfold strip. rewrite E. apply contains_occurs. now exists a', b'. }
  assert (He : existsb (fun word => contains word text)
                 (map lit ["no"; "false"; "0"]%string) = true).
  { apply existsb_exists. exists w. split; [exact Hw | exact Hc]. }
  rewrite He. reflexivity.
Qed.

Lemma normalize_boolean_affirmative_first_witness :
  In (lit "1") affirmative
  /\ _normalize_boolean (VStr (lit "-" ++ lit "1" ++ lit " no")) = Some true.
Proof.
  split.
  - right. right. left. reflexivity.
  - apply (proj1 normalize_boolean_affirmative_first).
    right. right. left. reflexivity.
Defined.

(** ** Ordered pairs *)

Lemma str_eqb_eq a b : str_eqb a b = true <-> a = b.
Proof. unfold str_eqb. apply bool_decide_eq_true. Qed.

Lemma str_eqb_refl a : str_eqb a a = true.
Proof. now apply str_eqb_eq. Qed.

Ltac pair_cases :=
  repeat split; intros;
  repeat match goal with
         | H : exists _, _ |- _ => destruct H
         | H : _ /\ _ |- _ => destruct H
         | H : _ :: _ = _ :: _ |- _ => injection H as ? ?
         | H : [] = _ :: _ |- _ => discriminate H
         | H : _ :: _ = [] |- _ => discriminate H
         | H : ~ (exists a b, _) |- _ =>
             exfalso; apply H; eexists _, _; split; reflexivity
         | |- ~ _ => intro
         end;
  subst; try discriminate; try congruence; try (simpl in *; lia);
  try (eexists _, _; split; reflexivity).

(** C3, as the source has it: the score is 1 exactly when prediction and
    ground truth are the same list of two elements, 1/2 exactly when the
    prediction is the one-element list of the first of two ground-truth
    elements, and 0 in every other case; a prediction of three or more
    elements scores 0 whatever its first two elements are. *)
Theorem compare_pair_lists_cases (pred gt : list str) :
  (_compare_pair_lists pred gt = 1%Q <->
     exists a b, pred = [a; b] /\ gt = [a; b])
  /\ (_compare_pair_lists pred gt = (1 # 2)%Q <->
        exists a b, pred = [a] /\ gt = [a; b])
  /\ (_compare_pair_lists pred gt = 0%Q <->
        ~ (exists a b, pred = [a; b] /\ gt = [a; b])
        /\ ~ (exists a b, pred = [a] /\ gt = [a; b]))
  /\ ((2 < length pred)%nat -> _compare_pair_lists pred gt = 0%Q).
Proof.
  destruct pred as [|p0 [|p1 [|p2 pred]]];
    destruct gt as [|g0 [|g1 [|g2 gt]]]; cbn -[str_eqb];
    repeat match goal with
           | |- context [str_eqb ?a ?b] =>
               let E := fresh "E" in
               destruct (str_eqb a b) eqn:E;
               [apply str_eqb_eq in E; subst
               |assert (a <> b)
                 by (intros ->; rewrite str_eqb_refl in E; discriminate)];
               cbn -[str_eqb]
           end;
    pair_cases.
Qed.

(** C3, a witness of the last case. *)
Lemma compare_pair_lists_cases_witness :
  (2 < length [lit "a"; lit "b"; lit "c"])%nat
  /\ _compare_pair_lists [lit "a"; lit "b"; lit "c"] [lit "a"; lit "b"] = 0%Q.
Proof.
  split.
  - simpl. lia.
  - apply (proj2 (proj2 (proj2
             (compare_pair_lists_cases [lit "a"; lit "b"; lit "c"]
                                       [lit "a"; lit "b"])))).
    simpl. lia.
Defined.

(** C3 as the claim states it fails: three fragments are extracted, the
    first two are the two ground-truth names, and the sample scores 0. *)
Lemma pair_beyond_two_scores_zero :
  parse_pair_list no_literal (span (lit "Eevee, Pikachu, Mew"))
  = Ret (Some [lit "Eevee"; lit "Pikachu"; lit "Mew"])
  /\ sample_score FIND_TARGET_OFFSETS_TOOL knowledge_intensive Verbose_Response
       (VList [VStr (lit "Eevee"); VStr (lit "Pikachu")])
       (VList [VStr (lit "Eevee"); VStr (lit "Pikachu"); VStr (lit "Mew")])
     = Ret (Some 0%Q).
Proof. split; vm_compute; reflexivity. Qed.

(** ** Set F1 *)

Lemma to_set_list_perm (l l' : list pyval) :
  l ≡ₚ l' -> _to_set (VList l) ≡ₚ _to_set (VList l').
Proof.
  intros H. unfold _to_set.
  induction H; simpl.
  - reflexivity.
  - destruct (nonempty (strip (py_str x))); [constructor|]; exact IHPermutation.
  - destruct (nonempty (strip (py_str x))), (nonempty (strip (py_str y)));
      try reflexivity. constructor.
  - etransitivity; eassumption.
Qed.

Lemma sample_f1_perm (gt gt' pred pred' : pyval) :
  _to_set gt ≡ₚ _to_set gt' -> _to_set pred ≡ₚ _to_set pred' ->
  sample_f1 gt pred = sample_f1 gt' pred'.
Proof.
  intros Hg Hp. unfold sample_f1, to_gset.
  now rewrite (list_to_set_perm_L _ _ Hg), (list_to_set_perm_L _ _ Hp).
Qed.

Lemma size_to_gset_nil : size (to_gset []) = 0%nat.
Proof. reflexivity. Qed.

Lemma size_to_gset_cons x l : size (to_gset (x :: l)) <> 0%nat.
Proof.
  apply size_non_empty_iff. intros H.
  assert (Hx : x ∈ to_gset (x :: l)) by (apply elem_of_list_to_set; left).
  rewrite H in Hx. set_solver.
Qed.

(** C7: the per-sample F1 of the intersection (verbose) archetype does not
    change when the elements of the ground truth or of the prediction are
    permuted; it is 1 when both normalized sets are empty and 0 when
    exactly one of them is. *)
Theorem sample_f1_symmetric_and_empty :
  (forall gt gt' pred pred',
      _to_set gt ≡ₚ _to_set gt' -> _to_set pred ≡ₚ _to_set pred' ->
      sample_f1 gt pred = sample_f1 gt' pred')
  /\ (forall l l' pred, l ≡ₚ l' ->
        sample_f1 (VList l) pred = sample_f1 (VList l') pred)
  /\ (forall gt l l', l ≡ₚ l' ->
        sample_f1 gt (VList l) = sample_f1 gt (VList l'))
  /\ (forall gt pred, _to_set gt = [] -> _to_set pred = [] ->
        sample_f1 gt pred = 1%Q)
  /\ (forall gt pred, _to_set gt = [] -> _to_set pred <> [] ->
        sample_f1 gt pred = 0%Q)
  /\ (forall gt pred, _to_set gt <> [] -> _to_set pred = [] ->
        sample_f1 gt pred = 0%Q).
Proof.
  split; [exact sample_f1_perm|].
  split; [intros; apply sample_f1_perm; [now apply to_set_list_perm|reflexivity]|].
  split; [intros; apply sample_f1_perm; [reflexivity|now apply to_set_list_perm]|].
  split; [|split].
  - intros gt pred Hg Hp. unfold sample_f1. rewrite Hg, Hp. reflexivity.
  - intros gt pred Hg Hp. unfold sample_f1, sample_f1_sets. rewrite Hg.
    destruct (_to_set pred) as [|x l]; [congruence|].
    rewrite size_to_gset_nil.
    rewrite (bool_decide_eq_false_2 _ (size_to_gset_cons x l)).
    reflexivity.
  - intros gt pred Hg Hp. unfold sample_f1, sample_f1_sets. rewrite Hp.
    destruct (_to_set gt) as [|x l]; [congruence|].
    rewrite size_to_gset_nil.
    rewrite (bool_decide_eq_false_2 _ (size_to_gset_cons x l)).
    reflexivity.
Qed.

Lemma sample_f1_symmetric_and_empty_witness :
  [VStr (lit "A"); VStr (lit "B")] ≡ₚ [VStr (lit "B"); VStr (lit "A")]
  /\ sample_f1 (VList [VStr (lit "A"); VStr (lit "B")]) (VList [VStr (lit "B")])
     = sample_f1 (VList [VStr (lit "B"); VStr (lit "A")]) (VList [VStr (lit "B")]).
Proof.
  split.
  - apply perm_swap.
  - apply (proj1 (proj2 sample_f1_symmetric_and_empty)). apply perm_swap.
Defined.

(** ** The loops of [evaluate] *)

Section Loops.

Variable question_type : question_type.
Variable knowledge_label : knowledge_label.
Variable history_label : history_label.
Variable data : gmap str row.

Lemma f1_loop_filter_matched preds m fs :
  f1_loop data (List.filter (is_matched data) preds) m fs = f1_loop data preds m fs.
Proof.
  revert m fs. induction preds as [|p preds IH]; intros m fs; [reflexivity|].
  simpl. unfold is_matched at 1, unmatched.
  destruct (matched_row data p) as [r|] eqn:E; simpl.
  - rewrite E. apply IH.
  - apply IH.
Qed.

Lemma f1_loop_matched preds m fs :
  fst (f1_loop data preds m fs)
  = (m + length (List.filter (is_matched data) preds))%nat.
Proof.
  revert m fs. induction preds as [|p preds IH]; intros m fs; simpl; [lia|].
  unfold is_matched at 1, unmatched.
  destruct (matched_row data p) as [r|]; simpl.
  - rewrite IH. lia.
  - apply IH.
Qed.

Lemma accuracy_loop_filter_matched preds c :
  accuracy_loop question_type knowledge_label history_label data
    (List.filter (is_matched data) preds) c
  = accuracy_loop question_type knowledge_label history_label data preds c.
Proof.
  revert c. induction preds as [|p preds IH]; intros c; [reflexivity|].
  simpl. unfold is_matched at 1, unmatched.
  destruct (matched_row data p) as [r|] eqn:E; simpl.
  - rewrite E.
    destruct (sample_score _ _ _ _ _) as [s|e]; simpl; [apply IH|reflexivity].
  - apply IH.
Qed.

Lemma accuracy_loop_matched preds c c' :
  accuracy_loop question_type knowledge_label history_label data preds c
  = Ret c' ->
  c_matched c' = (c_matched c + length (List.filter (is_matched data) preds))%nat.
Proof.
  revert c. induction preds as [|p preds IH]; intros c H; simpl in *.
  - injection H as <-. lia.
  - unfold is_matched at 1, unmatched.
    destruct (matched_row data p) as [r|]; simpl.
    + destruct (sample_score _ _ _ _ _) as [s|e]; simpl in H; [|discriminate].
      apply IH in H. rewrite H. destruct s; simpl; lia.
    + now apply IH.
Qed.

Lemma filter_split_length (f g : prediction -> bool) preds :
  (forall p, g p = negb (f p)) ->
  length preds
  = (length (List.filter g preds) + length (List.filter f preds))%nat.
Proof.
  intros H. induction preds as [|p preds IH]; simpl; [reflexivity|].
  rewrite H. destruct (f p); simpl; lia.
Qed.

(** The ground-truth skips. *)

Hypothesis Hacc : accuracy_case question_type history_label = true.

Lemma sample_score_skip gt pred_val :
  sample_score question_type knowledge_label history_label gt pred_val
  = Ret None ->
  gt_unusable question_type knowledge_label history_label gt = true.
Proof.
  unfold sample_score, gt_unusable.
  destruct (is_number_type question_type) eqn:En.
  - destruct (_to_number gt) as [[g|]|e]; simpl; try discriminate.
    + destruct (_to_number pred_val) as [[p|]|e]; simpl; discriminate.
    + reflexivity.
  - destruct question_type, history_label; try discriminate; simpl;
      repeat match goal with
             | |- context [match ?x with _ => _ end] => destruct x eqn:?
             end; try discriminate; try reflexivity.
Qed.

Lemma sample_score_counted gt pred_val x :
  sample_score question_type knowledge_label history_label gt pred_val
  = Ret (Some x) ->
  gt_unusable question_type knowledge_label history_label gt = false.
Proof.
  unfold sample_score, gt_unusable.
  destruct (is_number_type question_type) eqn:En.
  - destruct (_to_number gt) as [[g|]|e]; simpl; try discriminate.
    + reflexivity.
    + destruct (_to_number pred_val) as [[p|]|e]; simpl; discriminate.
  - destruct question_type, history_label; try discriminate; simpl;
      repeat match goal with
             | |- context [match ?x with _ => _ end] => destruct x eqn:?
             end; try discriminate; try reflexivity.
Qed.

Lemma accuracy_loop_filter_usable preds c1 c2 c1' :
  c_total c1 = c_total c2 -> c_correct c1 = c_correct c2 ->
  accuracy_loop question_type knowledge_label history_label data preds c1
  = Ret c1' ->
  exists c2',
    accuracy_loop question_type knowledge_label history_label data
      (List.filter (not_gt_skipped question_type knowledge_label
                                   history_label data) preds) c2 = Ret c2'
    /\ c_total c2' = c_total c1' /\ c_correct c2' = c_correct c1'
    /\ (c_matched c1' + c_matched c2
        = c_matched c2' + c_matched c1
          + length (List.filter
                      (gt_skipped question_type knowledge_label history_label
                                  data) preds))%nat
    /\ (c_matched c1' + c_total c1
        = c_total c1' + c_matched c1
          + length (List.filter
                      (gt_skipped question_type knowledge_label history_label
                                  data) preds))%nat.
Proof.
  revert c1 c2. induction preds as [|p preds IH]; intros c1 c2 Ht Hc H.
  - simpl in *. injection H as <-. exists c2. repeat split; auto; lia.
  - simpl in H.
    destruct (matched_row data p) as [r|] eqn:E.
    + destruct (sample_score question_type knowledge_label history_label
                  (r_answer r) (p_pred_answer p)) as [[x|]|e] eqn:Es;
        simpl in H; [| |discriminate].
      * assert (Hg : gt_skipped question_type knowledge_label history_label
                       data p = false).
        { unfold gt_skipped. rewrite E. exact (sample_score_counted _ _ _ Es). }
        simpl List.filter. unfold not_gt_skipped at 1. rewrite Hg.
        cbn [negb accuracy_loop]. rewrite E, Es. cbn [bind].
        match type of H with
        | accuracy_loop _ _ _ _ _ ?c = _ =>
            destruct (IH c
                        {| c_matched := S (c_matched c2);
                           c_total := S (c_total c2);
                           c_correct := (c_correct c2 + x)%Q |})
              as (c2' & H1 & H2 & H3 & H4 & H5);
              [simpl; congruence | simpl; congruence | exact H |]
        end.
        exists c2'. cbn [c_matched c_total c_correct] in *.
        repeat split; auto; lia.
      * assert (Hg : gt_skipped question_type knowledge_label history_label
                       data p = true).
        { unfold gt_skipped. rewrite E. exact (sample_score_skip _ _ Es). }
        simpl List.filter. unfold not_gt_skipped at 1. rewrite Hg.
        cbn [negb length].
        match type of H with
        | accuracy_loop _ _ _ _ _ ?c = _ =>
            destruct (IH c c2) as (c2' & H1 & H2 & H3 & H4 & H5);
              [simpl; congruence | simpl; congruence | exact H |]
        end.
        exists c2'. cbn [c_matched c_total c_correct] in *.
        repeat split; auto; lia.
    + assert (Hg : gt_skipped question_type knowledge_label history_label
                     data p = false).
      { unfold gt_skipped. now rewrite E. }
      simpl List.filter. unfold not_gt_skipped at 1. rewrite Hg.
      cbn [negb accuracy_loop]. rewrite E.
      destruct (IH c1 c2 Ht Hc H) as (c2' & H1 & H2 & H3 & H4 & H5).
      exists c2'. repeat split; auto.
Qed.

End Loops.

Lemma unmatched_cases data pred :
  unmatched data pred = true <->
  _pred_key pred = None
  \/ _pred_key pred = Some []
  \/ exists key, _pred_key pred = Some key /\ data !! key = None.
Proof.
  unfold unmatched, matched_row.
  destruct (_pred_key pred) as [[|c key]|]; simpl.
  - split; auto.
  - split.
    + intros H. right. right. exists (c :: key). split; [reflexivity|].
      case_match; [discriminate|reflexivity].
    + intros [H|[H|(k & Hk & H)]]; try discriminate.
      injection Hk as <-. case_match; [congruence|reflexivity].
  - split; auto.
Qed.

Lemma evaluate_data question_type knowledge_label history_label rows preds r :
  evaluate question_type knowledge_label history_label rows preds = Ret r ->
  exists data, build_data rows ∅ = Ret data.
Proof.
  unfold evaluate. destruct (build_data rows ∅) as [data|e]; [eauto|discriminate].
Qed.

Lemma evaluate_f1 knowledge_label rows preds data :
  build_data rows ∅ = Ret data ->
  evaluate INTERSECTION knowledge_label Verbose_Response rows preds
  = let '(matched, f1s) := f1_loop data preds 0 [] in
    Ret (f1_report (length preds) matched f1s).
Proof. intros H. unfold evaluate. now rewrite H. Qed.

Lemma evaluate_accuracy question_type knowledge_label history_label rows preds
    data :
  build_data rows ∅ = Ret data ->
  accuracy_case question_type history_label = true ->
  evaluate question_type knowledge_label history_label rows preds
  = pmap (accuracy_report (length preds))
         (accuracy_loop question_type knowledge_label history_label
            data preds
            {| c_matched := 0; c_total := 0; c_correct := 0%Q |}).
Proof.
  intros H. unfold evaluate. rewrite H. cbn [bind].
  destruct question_type, history_label; try discriminate; reflexivity.
Qed.

Lemma evaluate_counts question_type knowledge_label history_label rows preds
    data r :
  build_data rows ∅ = Ret data ->
  evaluate question_type knowledge_label history_label rows preds = Ret r ->
  skipped r = length (List.filter (unmatched data) preds)
  /\ matched r = length (List.filter (is_matched data) preds).
Proof.
  intros Hd.
  set (kept := List.filter (is_matched data) preds).
  assert (Hlen : forall m, m = length kept ->
                           (length preds - m)%nat
                           = length (List.filter (unmatched data) preds)).
  { intros m ->. unfold kept.
    rewrite (filter_split_length (unmatched data) (is_matched data) preds)
      at 1 by reflexivity.
    lia. }
  destruct (accuracy_case question_type history_label) eqn:Hacc.
  - rewrite (evaluate_accuracy _ _ _ _ _ _ Hd Hacc).
    destruct (accuracy_loop _ _ _ data preds _) as [c|e] eqn:E;
      simpl; [|discriminate].
    intros [= <-]. simpl.
    apply accuracy_loop_matched in E. fold kept in E. simpl in E.
    split; [apply Hlen|]; exact E.
  - destruct question_type, history_label; try discriminate.
    rewrite (evaluate_f1 _ _ _ _ Hd).
    pose proof (f1_loop_matched data preds 0 []) as E. fold kept in E.
    destruct (f1_loop data preds 0 []) as [m fs]. simpl in E.
    intros [= <-]. simpl. split; [apply Hlen|]; exact E.
Qed.

(** A key is in the dictionary exactly when a row has it as its id. *)
Lemma build_data_lookup rows data0 data (key : str) :
  build_data rows data0 = Ret data ->
  data !! key = None <->
  data0 !! key = None /\ forall r, In r rows -> r_id r <> Some (VStr key).
Proof.
  revert data0. induction rows as [|r rows IH]; intros data0 H.
  - injection H as <-. split; [intros E; split; [exact E|intros r []]|].
    now intros [E _].
  - cbn [build_data] in H.
    destruct (r_id r) as [[| | |k|]|] eqn:Er; try discriminate;
      apply IH in H; rewrite H; clear H IH;
      try (split; intros [H0 Hr]; (split; [exact H0|]);
           [intros r' [<-|Hin]; [congruence|now apply Hr]
           |intros r' Hin; apply Hr; now right]).
    split.
    + intros [H0 Hr]. apply lookup_insert_None in H0 as [H0 Hk].
      split; [exact H0|]. intros r' [<-|Hin]; [congruence|now apply Hr].
    + intros [H0 Hr]. split.
      * apply lookup_insert_None. split; [exact H0|].
        intros ->. now apply (Hr r); [left|].
      * intros r' Hin. apply Hr. now right.
Qed.

Lemma pred_key_cases pred :
  match _pred_key pred with
  | Some key =>
      (p_id pred <> VNone /\ key = py_str (p_id pred))
      \/ (p_id pred = VNone /\ p_sample_id pred <> VNone
          /\ p_round pred <> VNone
          /\ key = py_str (p_sample_id pred) ++ lit "_r"
                   ++ py_str (p_round pred))
  | None =>
      p_id pred = VNone /\ (p_sample_id pred = VNone \/ p_round pred = VNone)
  end.
Proof.
  unfold _pred_key.
  destruct (p_id pred); cbn [is_none negb]; try (left; split; [discriminate|reflexivity]).
  destruct (p_sample_id pred), (p_round pred); cbn [is_none negb andb];
    try (split; [reflexivity|]; (now left) || (now right));
    right; repeat split; discriminate.
Qed.

(** The records the loops leave out are those that are the record of no
    row. *)
Lemma unmatched_no_row rows data pred :
  build_data rows ∅ = Ret data ->
  unmatched data pred = true <-> forall r, In r rows -> ~ record_of_row r pred.
Proof.
  intros Hd. rewrite unmatched_cases.
  pose proof (pred_key_cases pred) as Hk.
  destruct (_pred_key pred) as [key|] eqn:Ek.
  - assert (Hrec : forall r, record_of_row r pred <->
                             key <> [] /\ r_id r = Some (VStr key)).
    { intros r. unfold record_of_row. split.
      - intros (k & Hne & Hr & Hp). assert (k = key); [|now subst].
        destruct Hk as [[Hid ->]|(Hid & Hs & Hr' & ->)],
                 Hp as [[Hid' ->]|(Hid' & _ & _ & ->)];
          congruence.
      - intros [Hne Hr]. exists key. split; [exact Hne|]. split; [exact Hr|].
        destruct Hk as [[Hid ->]|(Hid & Hs & Hr' & ->)]; [now left|now right]. }
    split.
    + intros [H|[H|(k & [= <-] & H)]] r Hin Hr; try discriminate.
      * injection H as ->. now apply Hrec in Hr as [Hne _].
      * apply Hrec in Hr as [_ Hr].
        apply (build_data_lookup _ _ _ _ Hd) in H as [_ H]. now apply (H r).
    + intros H. destruct key as [|c key]; [now right; left|].
      right. right. exists (c :: key). split; [reflexivity|].
      apply (build_data_lookup _ _ _ _ Hd). split; [apply lookup_empty|].
      intros r Hin Hr. apply (H r Hin). apply Hrec. now split.
  - split; [|now left]. intros _ r Hin (k & _ & _ & [[Hid _]|(_ & Hs & Hr & _)]).
    + now destruct Hk as [Hk _].
    + destruct Hk as [_ [Hk|Hk]]; congruence.
Qed.

(** C8, at an input where the code departs from it: the dataset has one
    row, with the number 1 as its id, and the prediction file one record,
    with the number 1 as its id.  The record is that of the row, and
    [evaluate] matches it with no row: it counts the record as skipped and
    scores nothing, because it looks the text ["1"] up among keys that are
    the ids as the dataset has them. *)
Theorem number_id_is_counted_as_skipped :
  evaluate COUNT_FREQUENCY_TOOL knowledge_intensive Concise_Response
    [{| r_id := Some (VInt 1); r_answer := VInt 7 |}]
    [{| p_id := VInt 1; p_sample_id := VNone; p_round := VNone;
        p_pred_answer := VInt 7; p_pred_intersection := VNone |}]
  = Ret {| metric := accuracy; score := 0; correct := Some 0%Q;
           total := Some 0%nat; matched := 0; skipped := 1 |}.
Proof. vm_compute; reflexivity. Qed.

(** X21: what [evaluate] leaves out.  For a dataset it accepts, a
    prediction record takes no part in the result exactly when it is the
    record of no row, that is when its key (the text of its id, or of its
    sample id and round when it has no id) is missing, is empty, or is the
    id of no row, the id of a row being a text: without those records
    [evaluate] returns the same report, score included, or fails the same
    way, but for the [skipped] counter, and [skipped] is exactly the
    number of those records. *)
Theorem records_of_no_row_take_no_part
    (question_type : question_type) (knowledge_label : knowledge_label)
    (history_label : history_label) (rows : list row)
    (preds : list prediction) (data : gmap str row) :
  build_data rows ∅ = Ret data ->
  let kept := List.filter (is_matched data) preds in
  evaluate question_type knowledge_label history_label rows kept
  = pmap (fun r => with_skipped r 0)
         (evaluate question_type knowledge_label history_label rows preds)
  /\ (forall r,
         evaluate question_type knowledge_label history_label rows preds = Ret r ->
         skipped r = length (List.filter (unmatched data) preds)
         /\ matched r = length kept)
  /\ (forall p, unmatched data p = true <->
                forall r, In r rows -> ~ record_of_row r p).
Proof.
  intros Hd kept.
  split; [|split].
  - destruct (accuracy_case question_type history_label) eqn:Hacc.
    + rewrite !(evaluate_accuracy _ _ _ _ _ _ Hd Hacc). unfold kept.
      rewrite accuracy_loop_filter_matched. fold kept.
      destruct (accuracy_loop _ _ _ data preds _) as [c|e] eqn:E;
        [|reflexivity].
      apply accuracy_loop_matched in E. fold kept in E. simpl in E. simpl.
      unfold accuracy_report, with_skipped. simpl. do 2 f_equal.
      rewrite E. lia.
    + destruct question_type, history_label; try discriminate.
      rewrite !(evaluate_f1 _ _ _ _ Hd). unfold kept.
      rewrite f1_loop_filter_matched. fold kept.
      pose proof (f1_loop_matched data preds 0 []) as E. fold kept in E.
      destruct (f1_loop data preds 0 []) as [m fs]. simpl in E. simpl.
      unfold f1_report, with_skipped. simpl. do 2 f_equal. rewrite E. lia.
  - intros r Hr. exact (evaluate_counts _ _ _ _ _ _ _ Hd Hr).
  - intros p. now apply unmatched_no_row.
Qed.

Lemma records_of_no_row_take_no_part_witness :
  evaluate COUNT_FREQUENCY_TOOL knowledge_intensive Concise_Response
    [sample_row] [sample_pred (lit "a") (VInt 7); sample_pred (lit "zz") (VInt 7)]
  = Ret {| metric := accuracy; score := (0 + 1) / of_nat 1;
           correct := Some (0 + 1)%Q; total := Some 1%nat;
           matched := 1; skipped := 1 |}
  /\ (1 = length (List.filter (unmatched {[lit "a" := sample_row]})
                    [sample_pred (lit "a") (VInt 7);
                     sample_pred (lit "zz") (VInt 7)]))%nat.
Proof.
  assert (H : evaluate COUNT_FREQUENCY_TOOL knowledge_intensive Concise_Response
                [sample_row]
                [sample_pred (lit "a") (VInt 7); sample_pred (lit "zz") (VInt 7)]
              = Ret {| metric := accuracy; score := (0 + 1) / of_nat 1;
                       correct := Some (0 + 1)%Q; total := Some 1%nat;
                       matched := 1; skipped := 1 |})
    by (vm_compute; reflexivity).
  split; [exact H|].
  exact (proj1 (proj1 (proj2 (records_of_no_row_take_no_part
                         COUNT_FREQUENCY_TOOL knowledge_intensive
                         Concise_Response [sample_row]
                         [sample_pred (lit "a") (VInt 7);
                          sample_pred (lit "zz") (VInt 7)]
                         {[lit "a" := sample_row]} eq_refl)) _ H)).
Defined.

(** The empty key is a missing identifier for the scorer, even when a row
    has the empty string as its id. *)
Example empty_key_is_unmatched :
  evaluate COUNT_FREQUENCY_TOOL knowledge_intensive Concise_Response
    [{| r_id := Some (VStr []); r_answer := VInt 7 |}] [sample_pred [] (VInt 7)]
  = Ret {| metric := accuracy; score := 0; correct := Some 0%Q;
           total := Some 0%nat; matched := 0; skipped := 1 |}.
Proof. vm_compute; reflexivity. Qed.

(** C6, as the source has it: on the accuracy path a matched sample whose
    ground truth cannot be normalized adds nothing to [correct] and nothing
    to [total]: without those samples the run has the same [correct],
    [total] and [score].  The report holds no count of them of its own:
    [skipped] counts the unmatched predictions only; their number is
    [matched - total].  Below, [data] is the dictionary [evaluate] files
    the rows in. *)
Theorem gt_skipped_samples_excluded
    (question_type : question_type) (knowledge_label : knowledge_label)
    (history_label : history_label) (rows : list row)
    (preds : list prediction) (r : report) :
  accuracy_case question_type history_label = true ->
  evaluate question_type knowledge_label history_label rows preds = Ret r ->
  exists data,
    build_data rows ∅ = Ret data
    /\ let excluded :=
         List.filter
           (gt_skipped question_type knowledge_label history_label data)
           preds in
       let kept :=
         List.filter
           (not_gt_skipped question_type knowledge_label history_label data)
           preds in
       (exists r',
           evaluate question_type knowledge_label history_label rows kept
           = Ret r'
           /\ score r' = score r /\ correct r' = correct r
           /\ total r' = total r
           /\ matched r = (matched r' + length excluded)%nat
           /\ skipped r' = skipped r)
       /\ (exists t, total r = Some t
                     /\ matched r = (t + length excluded)%nat)
       /\ skipped r = length (List.filter (unmatched data) preds).
Proof.
  intros Hacc Hr.
  destruct (evaluate_data _ _ _ _ _ _ Hr) as [data Hd].
  exists data. split; [exact Hd|]. intros excluded kept.
  destruct (evaluate_counts _ _ _ _ _ _ _ Hd Hr) as [Hskip _].
  rewrite (evaluate_accuracy _ _ _ _ _ _ Hd Hacc) in Hr.
  destruct (accuracy_loop _ _ _ data preds _) as [c|e] eqn:E;
    [|discriminate].
  injection Hr as <-.
  destruct (accuracy_loop_filter_usable question_type knowledge_label
              history_label data Hacc preds _
              {| c_matched := 0; c_total := 0; c_correct := 0%Q |} c
              eq_refl eq_refl E)
    as (c' & E' & Ht & Hc & Hm & Hm').
  fold excluded in Hm, Hm'. fold kept in E'. simpl in Hm, Hm'.
  split; [|split].
  - exists (accuracy_report (length kept) c').
    rewrite (evaluate_accuracy _ _ _ _ _ _ Hd Hacc). rewrite E'.
    split; [reflexivity|].
    unfold accuracy_report. simpl. rewrite Ht, Hc.
    repeat split; try lia.
    assert (length preds = (length kept + length excluded)%nat).
    { unfold kept, excluded. now apply filter_split_length. }
    lia.
  - exists (c_total c). split; [reflexivity|]. simpl. lia.
  - exact Hskip.
Qed.

Lemma gt_skipped_samples_excluded_witness :
  accuracy_case COUNT_FREQUENCY_TOOL Concise_Response = true
  /\ evaluate COUNT_FREQUENCY_TOOL knowledge_intensive Concise_Response
       [null_row] [sample_pred (lit "a") (VInt 7)]
     = Ret {| metric := accuracy; score := 0; correct := Some 0%Q;
              total := Some 0%nat; matched := 1; skipped := 0 |}
  /\ exists data,
      build_data [null_row] ∅ = Ret data
      /\ exists t,
          Some 0%nat = Some t
          /\ (1 = t + length
                    (List.filter
                       (gt_skipped COUNT_FREQUENCY_TOOL knowledge_intensive
                          Concise_Response data)
                       [sample_pred (lit "a") (VInt 7)]))%nat.
Proof.
  assert (H : evaluate COUNT_FREQUENCY_TOOL knowledge_intensive Concise_Response
                [null_row] [sample_pred (lit "a") (VInt 7)]
              = Ret {| metric := accuracy; score := 0; correct := Some 0%Q;
                       total := Some 0%nat; matched := 1; skipped := 0 |})
    by (vm_compute; reflexivity).
  split; [reflexivity|]. split; [exact H|].
  destruct (gt_skipped_samples_excluded COUNT_FREQUENCY_TOOL
              knowledge_intensive Concise_Response [null_row]
              [sample_pred (lit "a") (VInt 7)] _ eq_refl H)
    as (data & Hd & _ & Ht & _).
  exists data. split; [exact Hd|exact Ht].
Defined.

(** C6 as the claim states it fails on the count: one matched sample is
    left out for its ground truth, and the skip count of the report is 0. *)
Lemma gt_skip_not_in_skip_count :
  evaluate COUNT_FREQUENCY_TOOL knowledge_intensive Concise_Response
    [null_row] [sample_pred (lit "a") (VInt 7)]
  = Ret {| metric := accuracy; score := 0; correct := Some 0%Q;
           total := Some 0%nat; matched := 1; skipped := 0 |}
  /\ build_data [null_row] ∅ = Ret {[lit "a" := null_row]}
  /\ length (List.filter
               (gt_skipped COUNT_FREQUENCY_TOOL knowledge_intensive
                  Concise_Response {[lit "a" := null_row]})
               [sample_pred (lit "a") (VInt 7)]) = 1%nat.
Proof. repeat split; vm_compute; reflexivity. Qed.

(** ** The answer span *)

Lemma startswith_ci_lower o r : startswith_ci (lower o) (o ++ r) = true.
Proof.
  induction o as [|a o IH]; [reflexivity|].
  cbn [lower map app startswith_ci]. unfold eqc_ci.
  rewrite eqc_refl. exact IH.
Qed.

Lemma startswith_ci_inv p s :
  startswith_ci p s = true -> exists o r, s = o ++ r /\ lower o = p.
Proof.
  revert s. induction p as [|a p IH]; intros s H.
  - now exists [], s.
  - destruct s as [|b s]; cbn [startswith_ci] in H; [discriminate|].
    apply andb_true_iff in H as [Hab Hp].
    apply eqc_eq in Hab.
    destruct (IH _ Hp) as (o & r & -> & <-).
    exists (b :: o), r. cbn [lower map app]. now rewrite Hab.
Qed.

Lemma lower_char_lt c : lower_char c = "<"%char -> c = "<"%char.
Proof.
  destruct c as [[] [] [] [] [] [] [] []]; vm_compute; intros H;
    first [reflexivity | discriminate H].
Qed.

Lemma no_lt_cons c s : no_lt (c :: s) = true -> c <> "<"%char /\ no_lt s = true.
Proof.
  unfold no_lt. cbn [forallb]. intros H. apply andb_true_iff in H as [Hc Hs].
  split; [|exact Hs]. intros ->. now rewrite eqc_refl in Hc.
Qed.

Lemma no_lt_app a b : no_lt (a ++ b) = no_lt a && no_lt b.
Proof. apply forallb_app. Qed.

Lemma spelling_length tag o : spelling_of tag o -> length o = length tag.
Proof. intros <-. unfold lower. now rewrite length_map. Qed.

Lemma spelling_head tag o :
  spelling_of ("<"%char :: tag) o -> exists o', o = "<"%char :: o'.
Proof.
  unfold spelling_of. destruct o as [|x o]; [discriminate|].
  cbn [lower map]. intros [= Hx _]. apply lower_char_lt in Hx. subst x. eauto.
Qed.

Lemma skipn_length_app (a b : str) : skipn (length a) (a ++ b) = b.
Proof. induction a as [|x a IH]; [reflexivity|exact IH]. Qed.

Lemma occurs_in_suffix w a b : occurs_in w b -> occurs_in w (a ++ b).
Proof.
  intros (pre & post & ->). exists (a ++ pre), post. now rewrite <- app_assoc.
Qed.

Lemma free_of_suffix tag a b : free_of tag (a ++ b) -> free_of tag b.
Proof. intros H o Ho Hin. apply (H o Ho). now apply occurs_in_suffix. Qed.

(** A text with no ["<"] holds no tag. *)
Lemma no_lt_free_of tag s : no_lt s = true -> free_of ("<"%char :: tag) s.
Proof.
  intros H o Ho (pre & post & E).
  destruct (spelling_head _ _ Ho) as [o' ->].
  rewrite E, no_lt_app in H.
  apply andb_true_iff in H as [_ H].
  change (("<"%char :: o') ++ post) with ("<"%char :: (o' ++ post)) in H.
  apply no_lt_cons in H as [H _]. congruence.
Qed.

Lemma contains_ci_free_of tag s : contains_ci tag s = false -> free_of tag s.
Proof.
  intros H o Ho (pre & post & ->).
  induction pre as [|x pre IH].
  - pose proof (startswith_ci_lower o post) as Hs.
    unfold spelling_of in Ho. rewrite Ho in Hs.
    cbn [app] in H. destruct (o ++ post); cbn [contains_ci] in H;
      rewrite Hs in H; discriminate H.
  - cbn [app contains_ci] in H. apply orb_false_iff in H as [_ H]. auto.
Qed.

Lemma no_lt_no_open_tag s : no_lt s = true -> no_open_tag s.
Proof. apply no_lt_free_of. Qed.

Lemma no_lt_no_close_tag s : no_lt s = true -> no_close_tag s.
Proof. apply no_lt_free_of. Qed.

(** A match of [tag] at the start of [b ++ s] lies within [b] or goes on
    into [s]. *)
Lemma startswith_ci_split tag b s :
  startswith_ci tag (b ++ s) = true ->
  startswith_ci tag b = true
  \/ exists t1 t2,
      tag = t1 ++ t2 /\ t2 <> [] /\ length t1 = length b
      /\ startswith_ci t2 s = true.
Proof.
  revert b. induction tag as [|a tag IH]; intros b H; [now left|].
  destruct b as [|x b].
  - right. exists [], (a :: tag). repeat split; [discriminate|exact H].
  - cbn [app startswith_ci] in H |- *.
    apply andb_true_iff in H as [Hax H].
    destruct (IH b H) as [Hb|(t1 & t2 & -> & Ht2 & Hl & Hs)].
    + left. now rewrite Hax, Hb.
    + right. exists (a :: t1), t2. cbn [length app]. auto.
Qed.

(** A tag holds ["<"] at its start only, so no occurrence of it runs from
    a text into a ["<"] that follows. *)
Lemma tag_within tag b s :
  no_lt tag = true -> b <> [] ->
  startswith_ci ("<"%char :: tag) (b ++ "<"%char :: s) = true ->
  startswith_ci ("<"%char :: tag) b = true.
Proof.
  intros Htag Hb H.
  destruct (startswith_ci_split _ _ _ H) as [Hin|(t1 & t2 & E & Ht2 & Hl & Hs)];
    [exact Hin|exfalso].
  destruct t1 as [|y t1]; [destruct b; [congruence|discriminate Hl]|].
  injection E as _ E. rewrite E, no_lt_app in Htag.
  apply andb_true_iff in Htag as [_ Htag].
  destruct t2 as [|h t2]; [congruence|].
  apply no_lt_cons in Htag as [Hh _].
  cbn [startswith_ci] in Hs. apply andb_true_iff in Hs as [Hs _].
  unfold eqc_ci in Hs. apply eqc_eq in Hs. apply Hh. exact Hs.
Qed.

Lemma tag_not_at tag b s :
  no_lt tag = true -> b <> [] -> free_of ("<"%char :: tag) b ->
  startswith_ci ("<"%char :: tag) (b ++ "<"%char :: s) = false.
Proof.
  intros Htag Hb Hfree. apply not_true_is_false. intros H.
  apply tag_within in H; [|exact Htag|exact Hb].
  apply startswith_ci_inv in H as (o & r & E & Ho).
  apply (Hfree o Ho). now exists [], r.
Qed.

Lemma findall_from_skip m (a rest : str) :
  findall_from m (length a) (a ++ rest) = findall_from m 0 rest.
Proof. induction a as [|x a IH]; simpl; [|exact IH]. now destruct rest. Qed.

(** The search steps over a text that holds no opening tag. *)
Lemma findall_skip_plain pre s :
  no_open_tag pre ->
  findall_from match_answer 0 (pre ++ "<"%char :: s)
  = findall_from match_answer 0 ("<"%char :: s).
Proof.
  induction pre as [|c pre IH]; intros H; [reflexivity|].
  assert (Hm : match_answer ((c :: pre) ++ "<"%char :: s) = None).
  { unfold match_answer.
    change open_tag with ("<"%char :: lit "answer>").
    rewrite tag_not_at; [reflexivity|reflexivity|discriminate|exact H]. }
  change ((c :: pre) ++ "<"%char :: s) with (c :: (pre ++ "<"%char :: s)) in *.
  cbn [findall_from]. rewrite Hm. apply IH.
  exact (free_of_suffix _ [c] pre H).
Qed.

Lemma until_close_body body c rest :
  no_close_tag body -> spelling_of close_tag c ->
  until_close (body ++ c ++ rest) = Some body.
Proof.
  intros Hb Hc. induction body as [|x body IH].
  - pose proof (startswith_ci_lower c rest) as Hs.
    unfold spelling_of in Hc. rewrite Hc in Hs.
    destruct c as [|y c]; [discriminate|].
    cbn [app until_close] in *. now rewrite Hs.
  - destruct (spelling_head _ _ Hc) as [c' Ec].
    assert (Hm : startswith_ci close_tag ((x :: body) ++ c ++ rest) = false).
    { rewrite Ec. change close_tag with ("<"%char :: lit "/answer>").
      apply tag_not_at; [reflexivity|discriminate|exact Hb]. }
    change ((x :: body) ++ c ++ rest) with (x :: (body ++ c ++ rest)) in *.
    cbn [until_close]. rewrite Hm.
    now rewrite (IH (free_of_suffix _ [x] body Hb)).
Qed.

Lemma match_answer_span o body c rest :
  spelling_of open_tag o -> no_close_tag body -> spelling_of close_tag c ->
  match_answer (o ++ body ++ c ++ rest)
  = Some (body, length (o ++ body ++ c)).
Proof.
  intros Ho Hb Hc. unfold match_answer.
  pose proof (spelling_length _ _ Ho) as Lo.
  pose proof (spelling_length _ _ Hc) as Lc.
  unfold spelling_of in Ho. rewrite <- Ho at 1.
  rewrite startswith_ci_lower.
  rewrite <- Lo, skipn_length_app.
  rewrite (until_close_body body c rest Hb Hc).
  rewrite !length_app, Lc. do 2 f_equal. lia.
Qed.

(** One span in front of [rest]: [findall] reports its body and goes on
    after the closing tag. *)
Lemma findall_span pre o body c rest :
  no_open_tag pre -> spelling_of open_tag o -> no_close_tag body ->
  spelling_of close_tag c ->
  findall match_answer (pre ++ o ++ body ++ c ++ rest)
  = body :: findall match_answer rest.
Proof.
  intros Hp Ho Hb Hc. unfold findall.
  pose proof (match_answer_span o body c rest Ho Hb Hc) as Hm.
  destruct (spelling_head _ _ Ho) as [o' ->].
  change (("<"%char :: o') ++ body ++ c ++ rest)
    with ("<"%char :: o' ++ body ++ c ++ rest) in *.
  rewrite (findall_skip_plain _ _ Hp).
  cbn [findall_from]. rewrite Hm. f_equal.
  change (length (("<"%char :: o') ++ body ++ c))
    with (S (length (o' ++ body ++ c))).
  cbn [Nat.pred].
  replace (o' ++ body ++ c ++ rest) with ((o' ++ body ++ c) ++ rest)
    by now rewrite <- !app_assoc.
  apply findall_from_skip.
Qed.

Lemma extract_of_findall text :
  text <> [] ->
  _extract_answer_tag text
  = match last (findall match_answer text) with
    | None => None
    | Some m => Some (strip m)
    end.
Proof. intros H. unfold _extract_answer_tag. destruct text; [congruence|reflexivity]. Qed.

(** No match at any position, nothing found. *)
Lemma findall_none m text :
  (forall a b, text = a ++ b -> m b = None) -> findall m text = [].
Proof.
  unfold findall. intros H.
  assert (G : forall a b, text = a ++ b -> findall_from m 0 b = []).
  { intros a b. revert a. induction b as [|x b IH]; intros a E; [reflexivity|].
    cbn [findall_from]. rewrite (H a (x :: b) E).
    apply (IH (a ++ [x])). now rewrite <- app_assoc. }
  exact (G [] text eq_refl).
Qed.

Lemma until_close_inv s body :
  until_close s = Some body ->
  exists c r, s = body ++ c ++ r /\ spelling_of close_tag c.
Proof.
  revert body. induction s as [|x s IH]; intros body H.
  - discriminate H.
  - cbn [until_close] in H.
    destruct (startswith_ci close_tag (x :: s)) eqn:Es.
    + injection H as <-.
      apply startswith_ci_inv in Es as (c & r & E & Hc). now exists c, r.
    + destruct (until_close s) as [b|] eqn:Eb; [|discriminate].
      injection H as <-.
      destruct (IH b eq_refl) as (c & r & -> & Hc). now exists c, r.
Qed.

(** A match of the pattern starts with an opening tag and holds a closing
    tag. *)
Lemma match_answer_inv s found :
  match_answer s = Some found ->
  (exists o, spelling_of open_tag o /\ occurs_in o s)
  /\ (exists c, spelling_of close_tag c /\ occurs_in c s).
Proof.
  unfold match_answer.
  destruct (startswith_ci open_tag s) eqn:Es; [|discriminate].
  destruct (until_close (skipn (length open_tag) s)) as [body|] eqn:Eb;
    [|discriminate].
  intros _. split.
  - apply startswith_ci_inv in Es as (o & r & -> & Ho).
    exists o. split; [exact Ho|]. now exists [], r.
  - apply until_close_inv in Eb as (c & r & E & Hc).
    exists c. split; [exact Hc|].
    exists (firstn (length open_tag) s ++ body), r.
    rewrite <- (firstn_skipn (length open_tag) s) at 1.
    rewrite E. now rewrite <- !app_assoc.
Qed.

(** No opening tag, or no closing tag: no span. *)
Lemma findall_no_tag text :
  no_open_tag text \/ no_close_tag text -> findall match_answer text = [].
Proof.
  intros H. apply findall_none. intros a b E.
  destruct (match_answer b) as [found|] eqn:Em; [|reflexivity].
  exfalso. apply match_answer_inv in Em as [(o & Ho & Hin) (c & Hc & Hic)].
  destruct H as [H|H].
  - apply (H o Ho). rewrite E. now apply occurs_in_suffix.
  - apply (H c Hc). rewrite E. now apply occurs_in_suffix.
Qed.

Lemma extract_no_tag text :
  no_open_tag text \/ no_close_tag text -> _extract_answer_tag text = None.
Proof.
  intros H. unfold _extract_answer_tag.
  destruct (is_empty text); [reflexivity|].
  now rewrite (findall_no_tag text H).
Qed.

Lemma extract_no_open_tag text :
  no_open_tag text -> _extract_answer_tag text = None.
Proof. intros H. apply extract_no_tag. now left. Qed.

Lemma extract_one_span pre o body c post :
  no_open_tag pre -> spelling_of open_tag o -> no_close_tag body ->
  spelling_of close_tag c -> no_open_tag post \/ no_close_tag post ->
  _extract_answer_tag (pre ++ o ++ body ++ c ++ post) = Some (strip body).
Proof.
  intros Hp Ho Hb Hc Hq.
  pose proof (spelling_length _ _ Ho) as Lo.
  rewrite extract_of_findall.
  - rewrite (findall_span pre o body c post Hp Ho Hb Hc).
    now rewrite (findall_no_tag post Hq).
  - destruct o; [discriminate|]. now destruct pre.
Qed.

(** ** Texts without span *)

Lemma startswith_ci_app p b s :
  startswith_ci p b = true -> startswith_ci p (b ++ s) = true.
Proof.
  revert b. induction p as [|a p IH]; intros b H; [reflexivity|].
  destruct b as [|x b]; [discriminate|].
  cbn [app startswith_ci] in *. apply andb_true_iff in H as [Hx Hp].
  now rewrite Hx, IH.
Qed.

Lemma free_of_nil tag : tag <> [] -> free_of tag [].
Proof.
  intros Hne o Ho (pre & post & E).
  destruct pre; [|discriminate E]. destruct o; [|discriminate E].
  apply Hne. now rewrite <- Ho.
Qed.

(** The first occurrence of a tag. *)
Lemma first_occurrence tag s :
  tag <> [] -> contains_ci tag s = true ->
  exists pre o rest,
    s = pre ++ o ++ rest /\ free_of tag pre /\ spelling_of tag o.
Proof.
  intros Hne. induction s as [|x s IH]; intros H.
  - destruct tag; [congruence|discriminate H].
  - cbn [contains_ci] in H.
    destruct (startswith_ci tag (x :: s)) eqn:Es.
    + apply startswith_ci_inv in Es as (o & r & E & Ho).
      exists [], o, r. split; [exact E|]. split; [now apply free_of_nil|exact Ho].
    + cbn [orb] in H. destruct (IH H) as (pre & o & rest & -> & Hp & Ho).
      exists (x :: pre), o, rest. split; [reflexivity|]. split; [|exact Ho].
      intros w Hw (p & q & E). destruct p as [|y p].
      * pose proof (startswith_ci_lower w q) as Hs.
        unfold spelling_of in Hw. rewrite Hw in Hs. cbn [app] in E.
        rewrite <- E in Hs.
        apply (startswith_ci_app _ _ (o ++ rest)) in Hs.
        cbn [app] in Hs. congruence.
      * injection E as _ E. apply (Hp w Hw). now exists p, q.
Qed.

Lemma no_lt_contains_ci tag s :
  no_lt s = true -> contains_ci ("<"%char :: tag) s = false.
Proof.
  intros H. induction s as [|x s IH]; [reflexivity|].
  apply no_lt_cons in H as [Hx Hs]. cbn [contains_ci startswith_ci].
  rewrite (IH Hs), orb_false_r.
  apply andb_false_iff. left. unfold eqc_ci. apply not_true_is_false.
  intros E. apply eqc_eq in E. symmetry in E. now apply lower_char_lt in E.
Qed.

Lemma contains_ci_at_lt tag a b :
  no_lt tag = true ->
  contains_ci ("<"%char :: tag) (a ++ "<"%char :: b)
  = contains_ci ("<"%char :: tag) a || contains_ci ("<"%char :: tag) ("<"%char :: b).
Proof.
  intros Htag. induction a as [|x a IH]; [reflexivity|].
  change ((x :: a) ++ "<"%char :: b) with (x :: (a ++ "<"%char :: b)).
  cbn [contains_ci]. rewrite IH, orb_assoc. f_equal. f_equal.
  destruct (startswith_ci ("<"%char :: tag) (x :: a)) eqn:E.
  - exact (startswith_ci_app _ (x :: a) _ E).
  - apply not_true_is_false. intros H.
    change (x :: a ++ "<"%char :: b) with ((x :: a) ++ "<"%char :: b) in H.
    apply tag_within in H; [congruence|exact Htag|discriminate].
Qed.

Lemma contains_ci_false_free tag s : contains_ci tag s = false <-> (tag <> [] /\ free_of tag s).
Proof.
  split.
  - intros H. split; [|now apply contains_ci_free_of].
    intros ->. now destruct s.
  - intros [Hne H]. induction s as [|x s IH].
    + destruct tag; [congruence|reflexivity].
    + cbn [contains_ci]. apply orb_false_iff. split.
      * apply not_true_is_false. intros Hs.
        apply startswith_ci_inv in Hs as (o & r & E & Ho).
        apply (H o Ho). now exists [], r.
      * apply IH. exact (free_of_suffix tag [x] s H).
Qed.

Lemma no_lt_lower s : no_lt (lower s) = true -> no_lt s = true.
Proof.
  induction s as [|y s IH]; [reflexivity|]. cbn [lower map]. intros H.
  apply no_lt_cons in H as [Hy Hs]. unfold no_lt. cbn [forallb].
  fold (no_lt s). rewrite (IH Hs), andb_true_r.
  apply negb_true_iff, not_true_is_false. intros E. apply eqc_eq in E.
  subst y. now apply Hy.
Qed.

(** An opening tag and a text with no ["<"] after a text with no closing
    tag hold no closing tag. *)
Lemma no_close_tag_join a o body :
  no_close_tag a -> spelling_of open_tag o -> no_lt body = true ->
  no_close_tag (a ++ o ++ body).
Proof.
  intros Ha Ho Hb. apply contains_ci_free_of.
  destruct (spelling_head _ _ Ho) as [o' ->].
  change (("<"%char :: o') ++ body) with ("<"%char :: (o' ++ body)).
  change close_tag with ("<"%char :: lit "/answer>").
  rewrite contains_ci_at_lt by reflexivity.
  apply orb_false_iff. split.
  - apply contains_ci_false_free. split; [discriminate|exact Ha].
  - unfold spelling_of in Ho. destruct o' as [|y o']; [discriminate Ho|].
    change open_tag with ("<"%char :: "a"%char :: lit "nswer>") in Ho.
    cbn [lower map] in Ho. injection Ho as Hy Ho.
    cbn [contains_ci]. apply orb_false_iff. split.
    + change (lit "/answer>") with ("/"%char :: lit "answer>").
      cbn [app startswith_ci]. unfold eqc_ci. rewrite Hy. reflexivity.
    + apply no_lt_contains_ci. rewrite no_lt_app, Hb, andb_true_r.
      apply no_lt_lower. cbn [lower map]. fold (lower o').
      unfold lower. rewrite Hy, Ho. reflexivity.
Qed.

Lemma findall_from_none m text :
  (forall i, m (skipn i text) = None) -> forall k, findall_from m k text = [].
Proof.
  induction text as [|x t IH]; intros H k; [reflexivity|].
  assert (Ht : forall i, m (skipn i t) = None) by (intros i; exact (H (S i))).
  cbn [findall_from]. destruct k as [|k]; [|now apply IH].
  pose proof (H 0%nat) as H0. cbn [skipn drop] in H0. rewrite H0.
  now apply IH.
Qed.

Lemma occurs_in_skipn w i s : occurs_in w (skipn i s) -> occurs_in w s.
Proof.
  intros H. rewrite <- (firstn_skipn i s). now apply occurs_in_suffix.
Qed.

(** After an opening tag that no closing tag follows, nothing is found. *)
Lemma findall_unclosed o rest :
  spelling_of open_tag o -> no_close_tag rest ->
  findall_from match_answer 0 (o ++ rest) = [].
Proof.
  intros Ho Hr. apply findall_from_none. intros i. unfold match_answer.
  destruct (startswith_ci open_tag (skipn i (o ++ rest))); [|reflexivity].
  destruct (until_close _) as [body|] eqn:E; [exfalso|reflexivity].
  apply until_close_inv in E as (c & r & E & Hc).
  apply (Hr c Hc). apply (occurs_in_skipn c i).
  rewrite <- (skipn_length_app o rest) at 1.
  rewrite (spelling_length _ _ Ho), skipn_skipn, Nat.add_comm, <- skipn_skipn.
  rewrite E. now exists body, r.
Qed.

Lemma findall_spanless text : spanless text -> findall match_answer text = [].
Proof.
  intros [H|(pre & o & rest & -> & Hp & Ho & Hr)].
  - apply findall_no_tag. now left.
  - unfold findall. pose proof (findall_unclosed o rest Ho Hr) as E.
    destruct (spelling_head _ _ Ho) as [o' ->].
    change (("<"%char :: o') ++ rest) with ("<"%char :: (o' ++ rest)) in *.
    now rewrite (findall_skip_plain _ _ Hp).
Qed.

Lemma extract_spanless text : spanless text -> _extract_answer_tag text = None.
Proof.
  intros H. unfold _extract_answer_tag.
  destruct (is_empty text); [reflexivity|].
  now rewrite (findall_spanless text H).
Qed.

(** A text with no opening tag, or with no closing tag, holds no span. *)
Lemma no_tag_spanless text :
  no_open_tag text \/ no_close_tag text -> spanless text.
Proof.
  intros [H|H]; [now left|].
  destruct (contains_ci open_tag text) eqn:E.
  - apply first_occurrence in E as (pre & o & rest & -> & Hp & Ho);
      [|discriminate].
    right. exists pre, o, rest. repeat split; auto.
    apply (free_of_suffix _ o), (free_of_suffix _ pre). exact H.
  - left. now apply contains_ci_free_of.
Qed.

(** Every text is made of spans and a tail that holds no span. *)
Lemma response_of_text text :
  exists segs tail,
    text = response segs tail /\ Forall plain_segment segs /\ spanless tail.
Proof.
  remember (length text) as n eqn:En.
  assert (Hn : (length text <= n)%nat) by lia. clear En.
  revert text Hn. induction n as [|n IH]; intros text Hn.
  - destruct text; [|cbn [length] in Hn; lia].
    exists [], []. repeat split; [constructor|].
    left. apply free_of_nil. discriminate.
  - destruct (contains_ci open_tag text) eqn:Eo.
    + apply first_occurrence in Eo as (pre & o & rest & -> & Hp & Ho);
        [|discriminate].
      destruct (contains_ci close_tag rest) eqn:Ec.
      * apply first_occurrence in Ec as (body & c & rest' & -> & Hb & Hc);
          [|discriminate].
        destruct (IH rest') as (segs & tail & -> & Hs & Ht).
        { pose proof (spelling_length _ _ Ho) as Lo.
          rewrite !length_app, Lo in Hn. cbn [length open_tag lit] in Hn.
          change (length open_tag) with 8%nat in Hn. lia. }
        exists ({| seg_pre := pre; seg_open := o; seg_body := body;
                   seg_close := c |} :: segs), tail.
        split; [reflexivity|]. split; [|exact Ht].
        constructor; [|exact Hs]. now repeat split.
      * exists [], (pre ++ o ++ rest). split; [reflexivity|].
        split; [constructor|]. right. exists pre, o, rest.
        repeat split; auto. now apply contains_ci_free_of.
    + exists [], text. split; [reflexivity|]. split; [constructor|].
      left. now apply contains_ci_free_of.
Qed.

(** ** The intersection list *)

(** C1, as the source has it: for the intersection (verbose) archetype a
    raw text with no answer tag is extracted as the empty list, the same
    value an empty span gives, and against an empty ground-truth set that
    prediction has F1 1. *)
Theorem no_span_extracts_empty_list
    (literal_eval : str -> literal) (raw : str) (gt : pyval) :
  no_open_tag raw -> _to_set gt = [] ->
  parse_intersection_list literal_eval raw = Ret []
  /\ parse_intersection_list literal_eval (span []) = Ret []
  /\ fst (parse_response literal_eval INTERSECTION Verbose_Response raw)
     = Ret (EList [])
  /\ sample_f1 gt (to_pyval (EList [])) = 1%Q.
Proof.
  intros Hraw Hgt.
  assert (H : parse_intersection_list literal_eval raw = Ret []).
  { unfold parse_intersection_list.
    destruct (is_empty raw); [reflexivity|].
    now rewrite (extract_no_open_tag raw Hraw). }
  split; [exact H|]. split; [reflexivity|]. split.
  - cbn [parse_response is_number_type fst]. now rewrite H.
  - unfold sample_f1. rewrite Hgt. reflexivity.
Qed.

Lemma no_span_extracts_empty_list_witness :
  no_open_tag (lit "I do not know") /\ _to_set (VList []) = []
  /\ parse_intersection_list no_literal (lit "I do not know") = Ret []
  /\ sample_f1 (VList []) (to_pyval (EList [])) = 1%Q.
Proof.
  assert (H1 : no_open_tag (lit "I do not know"))
    by (apply no_lt_no_open_tag; reflexivity).
  split; [exact H1|]. split; [reflexivity|].
  pose proof (no_span_extracts_empty_list no_literal (lit "I do not know")
                (VList []) H1 eq_refl) as (Ha & _ & _ & Hb).
  split; [exact Ha|exact Hb].
Defined.

(** C1 as the claim states it fails: the response has no tag, the ground
    truth is the empty list, the record [_process_sample] writes holds the
    empty list, and the run scores F1 1. *)
Lemma no_span_scores_one :
  Run._process_sample no_literal INTERSECTION Verbose_Response
    (VStr (lit "a")) VNone VNone (lit "I do not know")
  = Ret (sample_pred (lit "a") (VList []))
  /\ sample_f1 (VList []) (VList []) = 1%Q
  /\ evaluate INTERSECTION knowledge_intensive Verbose_Response
       [{| r_id := Some (VStr (lit "a")); r_answer := VList [] |}]
       [sample_pred (lit "a") (VList [])]
     = Ret {| metric := f1; score := 1; correct := None; total := None;
              matched := 1; skipped := 0 |}.
Proof. repeat split; vm_compute; reflexivity. Qed.

(** ** The ordered pair *)

Lemma filter_nonempty_all l :
  Forall (fun x => x <> []) (List.filter nonempty l).
Proof.
  induction l as [|x l IH]; simpl; [constructor|].
  destruct x; simpl; [exact IH|]. constructor; [discriminate|exact IH].
Qed.

(** C9, as the source has it: with a span found, the ordered-pair
    extraction returns [None] when the span is empty, and also whenever no
    non-empty fragment is found in it; a list it returns is never empty
    and holds non-empty fragments only; outside the bracketed-list path
    the result is [None] exactly when no fragment is found. *)
Theorem pair_list_none_when_no_fragment
    (literal_eval : str -> literal) (text inner : str) :
  _extract_answer_tag text = Some inner ->
  (inner = [] -> parse_pair_list literal_eval text = Ret None)
  /\ (forall l, parse_pair_list literal_eval text = Ret (Some l) ->
                l <> [] /\ Forall (fun x => x <> []) l)
  /\ (parse_pair_list literal_eval text = Ret None ->
      pair_tokens (strip inner) = [])
  /\ (bracketed (strip inner) = false ->
      parse_pair_list literal_eval text
      = match pair_tokens (strip inner) with
        | [] => Ret None
        | tokens => Ret (Some tokens)
        end).
Proof.
  intros He.
  assert (Hne : is_empty text = false).
  { unfold _extract_answer_tag in He. destruct (is_empty text); congruence. }
  unfold parse_pair_list. rewrite Hne, He.
  pose proof (filter_nonempty_all
                (map (fun chunk => strip (sub_numbering chunk))
                     (split_on "," (normalize_separators (strip inner)))))
    as Htok. fold (pair_tokens (strip inner)) in Htok.
  split; [|split; [|split]].
  - intros ->. reflexivity.
  - intros l.
    destruct (bracketed (strip inner)).
    + destruct (literal_eval (strip inner)) as [items| | |].
      * destruct (2 <=? length (cleaned_items items))%nat eqn:E.
        -- intros [= <-]. split.
           ++ apply Nat.leb_le in E. intros E0. rewrite E0 in E. simpl in E. lia.
           ++ apply filter_nonempty_all.
        -- destruct (pair_tokens (strip inner)) eqn:Et; [discriminate|].
           intros [= <-]. split; [discriminate|exact Htok].
      * destruct (pair_tokens (strip inner)) eqn:Et; [discriminate|].
        intros [= <-]. split; [discriminate|exact Htok].
      * destruct (pair_tokens (strip inner)) eqn:Et; [discriminate|].
        intros [= <-]. split; [discriminate|exact Htok].
      * discriminate.
    + destruct (pair_tokens (strip inner)) eqn:Et; [discriminate|].
      intros [= <-]. split; [discriminate|exact Htok].
  - destruct (bracketed (strip inner)).
    + destruct (literal_eval (strip inner)) as [items| | |];
        try destruct (2 <=? length (cleaned_items items))%nat;
        destruct (pair_tokens (strip inner)); try discriminate; reflexivity.
    + destruct (pair_tokens (strip inner)); try discriminate; reflexivity.
  - intros ->. reflexivity.
Qed.

Lemma pair_list_none_when_no_fragment_witness :
  _extract_answer_tag (span (lit " ; and ")) = Some (lit "; and")
  /\ parse_pair_list no_literal (span (lit " ; and ")) = Ret None.
Proof.
  assert (H : _extract_answer_tag (span (lit " ; and ")) = Some (lit "; and"))
    by (vm_compute; reflexivity).
  split; [exact H|].
  rewrite (proj2 (proj2 (proj2 (pair_list_none_when_no_fragment no_literal
                                  (span (lit " ; and ")) (lit "; and") H)))
             eq_refl).
  reflexivity.
Defined.

(** C9 as the claim states it fails: the span holds a comma, so it is not
    empty, and the extraction returns [None]. *)
Lemma pair_list_none_on_separator :
  _extract_answer_tag (span (lit ",")) = Some (lit ",")
  /\ parse_pair_list no_literal (span (lit ",")) = Ret None.
Proof. split; vm_compute; reflexivity. Qed.

(** ** [int(float(text))] on the integers a binary64 number holds *)

Lemma round_half_even_exact d den :
  0 < den -> round_half_even (d * den) den = d.
Proof.
  intros H. unfold round_half_even.
  rewrite Z.div_mul, Z.mod_mul by lia.
  destruct (2 * 0 <? den) eqn:E; [reflexivity|].
  apply Z.ltb_ge in E. lia.
Qed.

Lemma float_trunc_at_exact_neg m q e :
  0 < q -> e < 0 -> float_trunc_at (m * q) q e = Ret m.
Proof.
  intros Hq He. unfold float_trunc_at.
  destruct (0 <=? e) eqn:E; [apply Z.leb_le in E; lia|].
  assert (Hp : 0 < 2 ^ (- e)) by (apply Z.pow_pos_nonneg; lia).
  replace (m * q * 2 ^ (- e)) with (m * 2 ^ (- e) * q) by ring.
  rewrite round_half_even_exact by exact Hq.
  now rewrite Z.div_mul by lia.
Qed.

Lemma float_trunc_at_exact_pos d q e :
  0 < q -> 0 <= e -> d * 2 ^ e < 2 ^ 1024 ->
  float_trunc_at (d * 2 ^ e * q) q e = Ret (d * 2 ^ e).
Proof.
  intros Hq He Hd. unfold float_trunc_at.
  destruct (0 <=? e) eqn:E; [|apply Z.leb_gt in E; lia].
  assert (Hp : 0 < 2 ^ e) by (apply Z.pow_pos_nonneg; lia).
  replace (d * 2 ^ e * q) with (d * (q * 2 ^ e)) by ring.
  rewrite round_half_even_exact by lia.
  destruct (2 ^ 1024 <=? d * 2 ^ e) eqn:E'; [apply Z.leb_le in E'; lia|].
  reflexivity.
Qed.

Lemma float_exponent_small m q :
  0 < m -> m < 2 ^ 53 -> 0 < q -> float_exponent (m * q) q <= 0.
Proof.
  intros Hm Hm53 Hq. unfold float_exponent.
  assert (Hl : Z.log2 (m * q) <= Z.log2 m + Z.log2 q + 1)
    by (apply Z.log2_mul_above; lia).
  assert (Hlm : Z.log2 m < 53) by (apply Z.log2_lt_pow2; lia).
  set (e0 := Z.log2 (m * q) - Z.log2 q - 52) in *.
  assert (He0 : e0 <= 1) by (unfold e0; lia).
  destruct (Z.eq_dec e0 1) as [E|E].
  - rewrite E. unfold below_pow2. change (0 <=? 52 + 1) with true.
    cbv beta iota. change (52 + 1) with 53.
    destruct (m * q <? q * 2 ^ 53) eqn:Eb; [lia|].
    apply Z.ltb_ge in Eb. nia.
  - destruct (below_pow2 (m * q) q (52 + e0)); lia.
Qed.

Lemma float_exponent_upper m q :
  0 < m -> m <= 2 ^ 53 -> 0 < q -> float_exponent (m * q) q <= 2.
Proof.
  intros Hm Hm53 Hq. unfold float_exponent.
  assert (Hl : Z.log2 (m * q) <= Z.log2 m + Z.log2 q + 1)
    by (apply Z.log2_mul_above; lia).
  assert (Hlm : Z.log2 m <= 53).
  { change 53 with (Z.log2 (2 ^ 53)). now apply Z.log2_le_mono. }
  destruct (below_pow2 (m * q) q _); lia.
Qed.

Lemma float_trunc_exact m q :
  0 <= m <= 2 ^ 53 -> 0 < q -> float_trunc (m * q) q = Ret m.
Proof.
  intros [Hm0 Hm] Hq. unfold float_trunc.
  destruct (m * q =? 0) eqn:E.
  - apply Z.eqb_eq in E. f_equal. nia.
  - apply Z.eqb_neq in E. assert (0 < m) by nia.
    destruct (Z_lt_le_dec (float_exponent (m * q) q) 0) as [He|He].
    + now apply float_trunc_at_exact_neg.
    + destruct (Z_lt_le_dec m (2 ^ 53)) as [Hlt|Hge].
      * pose proof (float_exponent_small m q H Hlt Hq) as Hs.
        assert (E0 : float_exponent (m * q) q = 0) by lia.
        rewrite E0.
        replace (m * q) with (m * 2 ^ 0 * q) by (change (2 ^ 0) with 1; ring).
        rewrite float_trunc_at_exact_pos; [f_equal; change (2 ^ 0) with 1; ring|lia|lia|].
        change (2 ^ 0) with 1. rewrite Z.mul_1_r.
        eapply Z.lt_trans; [exact Hlt|reflexivity].
      * assert (Em : m = 2 ^ 53) by lia.
        pose proof (float_exponent_upper m q H Hm Hq) as Hu.
        set (e := float_exponent (m * q) q) in *.
        assert (Ee : e = 0 \/ e = 1 \/ e = 2) by lia.
        assert (Hd : m = 2 ^ (53 - e) * 2 ^ e).
        { rewrite <- Z.pow_add_r by lia. rewrite Em. f_equal. lia. }
        rewrite Hd at 1.
        rewrite float_trunc_at_exact_pos; [f_equal; lia|lia|lia|].
        rewrite <- Hd, Em. reflexivity.
Qed.

(** ** Decimal digits *)

Lemma digit_char_spec d :
  0 <= d < 10 ->
  isdecimal (digit_char d) = true /\ digit_val (digit_char d) = d.
Proof.
  intros H.
  assert (d = 0 \/ d = 1 \/ d = 2 \/ d = 3 \/ d = 4 \/ d = 5 \/ d = 6
          \/ d = 7 \/ d = 8 \/ d = 9) as Hd by lia.
  repeat (destruct Hd as [-> | Hd]; [split; reflexivity|]).
  subst d. split; reflexivity.
Qed.

Lemma digits_aux_app fuel n acc :
  digits_aux fuel n acc = digits_aux fuel n [] ++ acc.
Proof.
  revert n acc. induction fuel as [|f IH]; intros n acc; [reflexivity|].
  cbn [digits_aux]. destruct (n <? 10); [reflexivity|].
  rewrite (IH (n / 10) (_ :: acc)), (IH (n / 10) [_]).
  now rewrite <- app_assoc.
Qed.

Lemma digits_value_snoc s c :
  digits_value (s ++ [c]) = 10 * digits_value s + digit_val c.
Proof. unfold digits_value. now rewrite fold_left_app. Qed.

Lemma digits_aux_value fuel n :
  0 <= n < 2 ^ Z.of_nat fuel -> digits_value (digits_aux fuel n []) = n.
Proof.
  revert n. induction fuel as [|f IH]; intros n Hn.
  - change (2 ^ Z.of_nat 0) with 1 in Hn. assert (n = 0) by lia. now subst.
  - cbn [digits_aux].
    assert (Hmod : 0 <= n mod 10 < 10) by (apply Z.mod_pos_bound; lia).
    destruct (digit_char_spec _ Hmod) as [_ Hv].
    destruct (n <? 10) eqn:E.
    + apply Z.ltb_lt in E. unfold digits_value. simpl. rewrite Hv.
      rewrite Z.mod_small by lia. lia.
    + apply Z.ltb_ge in E.
      rewrite digits_aux_app, digits_value_snoc, Hv.
      rewrite IH.
      * pose proof (Z.div_mod n 10). lia.
      * rewrite Nat2Z.inj_succ, Z.pow_succ_r in Hn by lia.
        split; [apply Z.div_pos; lia|].
        apply Z.div_lt_upper_bound; lia.
Qed.

Lemma digits_aux_decimal fuel n acc :
  0 <= n -> forallb isdecimal acc = true ->
  forallb isdecimal (digits_aux fuel n acc) = true.
Proof.
  revert n acc. induction fuel as [|f IH]; intros n acc Hn Hacc; [exact Hacc|].
  cbn [digits_aux].
  assert (Hmod : 0 <= n mod 10 < 10) by (apply Z.mod_pos_bound; lia).
  destruct (digit_char_spec _ Hmod) as [Hd _].
  assert (Hacc' : forallb isdecimal (digit_char (n mod 10) :: acc) = true)
    by (cbn [forallb]; now rewrite Hd, Hacc).
  destruct (n <? 10); [exact Hacc'|].
  apply IH; [apply Z.div_pos; lia|exact Hacc'].
Qed.

Lemma digits_value_digits n : 0 <= n -> digits_value (digits n) = n.
Proof.
  intros Hn. unfold digits. apply digits_aux_value.
  rewrite Nat2Z.inj_succ, Z2Nat.id by apply Z.log2_nonneg.
  split; [exact Hn|].
  destruct (Z.eq_dec n 0) as [->|Hz]; [reflexivity|].
  apply Z.log2_spec. lia.
Qed.

Lemma digits_decimal n : 0 <= n -> forallb isdecimal (digits n) = true.
Proof. intros Hn. unfold digits. now apply digits_aux_decimal. Qed.

Lemma digits_nonempty n : exists d ds, digits n = ds ++ [d].
Proof.
  unfold digits. cbn [digits_aux].
  destruct (n <? 10).
  - now exists (digit_char (n mod 10)), [].
  - rewrite digits_aux_app. eauto.
Qed.

Lemma digits_head n :
  0 <= n -> exists d ds, digits n = d :: ds /\ isdecimal d = true
                         /\ forallb isdecimal ds = true.
Proof.
  intros Hn. pose proof (digits_decimal n Hn) as H.
  destruct (digits_nonempty n) as (d & ds & E).
  destruct (digits n) as [|x xs]; [destruct ds; discriminate E|].
  cbn [forallb] in H. apply andb_true_iff in H as [Hx Hxs].
  now exists x, xs.
Qed.

(** ** Runs of characters of one class *)

Lemma take_while_all f a b :
  forallb f a = true ->
  match b with [] => True | c :: _ => f c = false end ->
  take_while f (a ++ b) = a /\ drop_while f (a ++ b) = b.
Proof.
  intros Ha Hb. induction a as [|x a IH].
  - destruct b as [|c b]; [now split|].
    cbn [app take_while drop_while]. now rewrite Hb.
  - cbn [forallb] in Ha. apply andb_true_iff in Ha as [Hx Ha].
    destruct (IH Ha) as [IH1 IH2].
    cbn [app take_while drop_while]. rewrite Hx. now rewrite IH1, IH2.
Qed.

Lemma strip_solid s :
  forallb (fun c => negb (isspace c)) s = true -> strip s = s.
Proof.
  intros H. unfold strip, strip_with.
  assert (D : forall t, forallb (fun c => negb (isspace c)) t = true ->
                        drop_while isspace t = t).
  { intros [|c t] Ht; [reflexivity|]. cbn [forallb drop_while] in *.
    apply andb_true_iff in Ht as [Hc _].
    now destruct (isspace c). }
  rewrite (D s H), D, rev_involutive; [reflexivity|].
  rewrite forallb_forall in *. intros x Hx. apply H. now apply in_rev.
Qed.

Lemma forallb_impl (f g : ascii -> bool) s :
  (forall c, f c = true -> g c = true) ->
  forallb f s = true -> forallb g s = true.
Proof.
  intros Hfg. rewrite !forallb_forall. intros H x Hx. auto.
Qed.

(** ** Commas *)

Lemma commas_aux_remove k s :
  forallb isdecimal s = true -> remove_char "," (commas_aux k s) = s.
Proof.
  revert k. induction s as [|c s IH]; intros k H; [reflexivity|].
  cbn [forallb] in H. apply andb_true_iff in H as [Hc Hs].
  assert (Hne : negb (eqc c ",") = true).
  { destruct (eqc c ",") eqn:E; [|reflexivity].
    apply eqc_eq in E. subst c. discriminate. }
  destruct k as [|k]; cbn [commas_aux]; unfold remove_char in *; cbn [List.filter].
  - change (negb (eqc "," ",")) with false. cbv iota. rewrite Hne.
    f_equal. now apply IH.
  - rewrite Hne. f_equal. now apply IH.
Qed.

Lemma remove_char_rev c s : remove_char c (rev s) = rev (remove_char c s).
Proof.
  unfold remove_char. induction s as [|x s IH]; [reflexivity|].
  cbn [rev List.filter]. rewrite List.filter_app, IH. cbn [List.filter].
  destruct (negb (eqc x c)); [reflexivity|]. now rewrite app_nil_r.
Qed.

Lemma forallb_rev (f : ascii -> bool) s : forallb f (rev s) = forallb f s.
Proof.
  induction s as [|x s IH]; [reflexivity|].
  cbn [rev forallb]. rewrite forallb_app, IH. cbn [forallb].
  rewrite andb_true_r. apply andb_comm.
Qed.

Lemma group3_remove ds :
  forallb isdecimal ds = true -> remove_char "," (group3 ds) = ds.
Proof.
  intros H. unfold group3.
  rewrite remove_char_rev, commas_aux_remove, rev_involutive; [reflexivity|].
  now rewrite forallb_rev.
Qed.

Lemma commas_aux_snoc k t d :
  forallb isdecimal t = true ->
  exists X, commas_aux k (t ++ [d]) = X ++ [d]
            /\ forallb (number_body true) X = true.
Proof.
  revert k. induction t as [|c t IH]; intros k H.
  - destruct k; [now exists [","%char]|now exists []].
  - cbn [forallb] in H. apply andb_true_iff in H as [Hc Ht].
    assert (Hb : number_body true c = true)
      by (unfold number_body; now rewrite Hc).
    destruct k as [|k]; cbn [app commas_aux].
    + destruct (IH 2%nat Ht) as (X & -> & HX).
      exists (","%char :: c :: X). split; [reflexivity|].
      cbn [forallb]. now rewrite Hb, HX.
    + destruct (IH k Ht) as (X & -> & HX).
      exists (c :: X). split; [reflexivity|].
      cbn [forallb]. now rewrite Hb, HX.
Qed.

Lemma group3_head d ds :
  forallb isdecimal ds = true ->
  exists body, group3 (d :: ds) = d :: body
               /\ forallb (number_body true) body = true.
Proof.
  intros H. unfold group3. cbn [rev].
  destruct (commas_aux_snoc 3 (rev ds) d) as (X & -> & HX);
    [now rewrite forallb_rev|].
  exists (rev X). rewrite rev_app_distr. split; [reflexivity|].
  now rewrite forallb_rev.
Qed.

(** ** Numeric tokens *)

Lemma decimal_char c :
  isdecimal c = true ->
  eqc c "-" = false /\ eqc c "," = false /\ eqc c "<" = false
  /\ isspace c = false.
Proof.
  destruct c as [[] [] [] [] [] [] [] []]; vm_compute; intros H;
    first [discriminate H | repeat split].
Qed.

Lemma number_body_char c :
  number_body true c = true -> eqc c "<" = false /\ isspace c = false.
Proof.
  unfold number_body. intros H. apply orb_true_iff in H as [H|H].
  - now destruct (decimal_char c H) as (_ & _ & ? & ?).
  - cbn [andb] in H. apply eqc_eq in H. subst c. now split.
Qed.

Lemma zeros_decimal k : forallb isdecimal (zeros k) = true.
Proof. induction k as [|k IH]; [reflexivity|exact IH]. Qed.

Lemma zeros_value k : digits_value (zeros k) = 0.
Proof.
  unfold digits_value. induction k as [|k IH]; [reflexivity|exact IH].
Qed.

Lemma zeros_length k : length (zeros k) = k.
Proof. apply repeat_length. Qed.

Lemma remove_char_decimal s :
  forallb isdecimal s = true -> remove_char "," s = s.
Proof.
  induction s as [|c s IH]; intros H; [reflexivity|].
  cbn [forallb] in H. apply andb_true_iff in H as [Hc Hs].
  destruct (decimal_char c Hc) as (_ & Hcomma & _).
  unfold remove_char in *. cbn [List.filter]. rewrite Hcomma. cbn [negb].
  f_equal. now apply IH.
Qed.

Lemma remove_char_app c a b :
  remove_char c (a ++ b) = remove_char c a ++ remove_char c b.
Proof. apply List.filter_app. Qed.

Lemma suffix_head frac :
  numeral_suffix frac ->
  match frac with [] => True | c :: _ => number_body true c = false end
  /\ match frac with [] => True | c :: _ => isdecimal c = false end
  /\ remove_char "," frac = frac
  /\ forallb (fun c => negb (eqc c "<")) frac = true
  /\ forallb (fun c => negb (isspace c)) frac = true.
Proof.
  intros [->|[k ->]]; [repeat split|].
  assert (Hz := zeros_decimal (S k)).
  repeat split.
  - change (remove_char "," ("."%char :: zeros (S k)))
      with ("."%char :: remove_char "," (zeros (S k))).
    now rewrite remove_char_decimal.
  - cbn [forallb]. change (negb (eqc "." "<")) with true. cbn [andb].
    eapply forallb_impl; [|exact Hz].
    intros c Hc. now destruct (decimal_char c Hc) as (_ & _ & -> & _).
  - cbn [forallb]. change (negb (isspace ".")) with true. cbn [andb].
    eapply forallb_impl; [|exact Hz].
    intros c Hc. now destruct (decimal_char c Hc) as (_ & _ & _ & ->).
Qed.

Lemma match_number_numeral (neg : bool) d body frac :
  isdecimal d = true -> forallb (number_body true) body = true ->
  numeral_suffix frac ->
  let tok := (if neg then ["-"%char] else []) ++ d :: body ++ frac in
  match_number true true tok = Some (tok, length tok).
Proof.
  intros Hd Hb Hf tok.
  destruct (suffix_head frac Hf) as (Hh & _).
  destruct (take_while_all (number_body true) body frac Hb Hh) as [Ht Hr].
  assert (Hfrac :
            match frac with
            | c :: r1 =>
                if eqc c "." then
                  match take_while isdecimal r1 with
                  | [] => []
                  | fd => c :: fd
                  end
                else []
            | [] => []
            end = frac).
  { destruct Hf as [->|[k ->]]; [reflexivity|].
    change (eqc "." ".") with true. cbv iota.
    pose proof (take_while_all isdecimal (zeros (S k)) [] (zeros_decimal _) I)
      as [Hz _].
    rewrite app_nil_r in Hz. rewrite Hz. reflexivity. }
  destruct (decimal_char d Hd) as (Hminus & _).
  unfold match_number. cbv zeta.
  destruct neg; subst tok; cbn [app].
  - change (eqc "-" "-") with true. rewrite Hd. cbn [andb tl].
    rewrite Hd, Ht, Hr, Hfrac. reflexivity.
  - assert (Hs : match d :: body ++ frac with
                 | c :: d0 :: _ => eqc c "-" && isdecimal d0
                 | _ => false
                 end = false).
    { destruct (body ++ frac); [reflexivity|]. now rewrite Hminus. }
    rewrite Hs. cbn [andb]. rewrite Hd, Ht, Hr, Hfrac. reflexivity.
Qed.

Lemma findall_whole m (tok : str) :
  tok <> [] -> m tok = Some (tok, length tok) ->
  findall m tok = [tok].
Proof.
  intros Hne Hm. unfold findall.
  destruct tok as [|x t]; [congruence|].
  cbn [findall_from]. rewrite Hm. f_equal.
  cbn [length Nat.pred].
  rewrite <- (app_nil_r t) at 2. apply findall_from_skip.
Qed.

Lemma int_of_float_text_numeral (neg : bool) m frac :
  0 <= m <= 2 ^ 53 -> numeral_suffix frac ->
  int_of_float_text ((if neg then ["-"%char] else []) ++ digits m ++ frac)
  = Ret (if neg then - m else m).
Proof.
  intros Hm Hf.
  destruct (digits_head m (proj1 Hm)) as (d & ds & E & Hd & Hds).
  assert (Hdig : forallb isdecimal (digits m) = true)
    by (apply digits_decimal; lia).
  destruct (suffix_head frac Hf) as (_ & Hh & _).
  destruct (take_while_all isdecimal (digits m) frac Hdig Hh) as [Ht Hr].
  destruct (decimal_char d Hd) as (Hminus & _).
  assert (Hfp : exists k,
             match frac with
             | c :: r => if eqc c "." then take_while isdecimal r else []
             | [] => []
             end = zeros k).
  { destruct Hf as [->|[k ->]]; [now exists 0%nat|].
    exists (S k). change (eqc "." ".") with true. cbv iota.
    pose proof (take_while_all isdecimal (zeros (S k)) [] (zeros_decimal _) I)
      as [Hz _].
    now rewrite app_nil_r in Hz. }
  destruct Hfp as [k Hfp].
  assert (Hq : 0 < 10 ^ Z.of_nat k) by (apply Z.pow_pos_nonneg; lia).
  unfold int_of_float_text. cbv zeta.
  destruct neg; cbn [app].
  - change (eqc "-" "-") with true. cbn [tl].
    rewrite Ht, Hr, Hfp, zeros_length, zeros_value, Z.add_0_r.
    rewrite digits_value_digits by lia.
    now rewrite float_trunc_exact.
  - rewrite E. cbn [app]. rewrite Hminus.
    change (d :: ds ++ frac) with ((d :: ds) ++ frac). rewrite <- E.
    rewrite Ht, Hr, Hfp, zeros_length, zeros_value, Z.add_0_r.
    rewrite digits_value_digits by lia.
    now rewrite float_trunc_exact.
Qed.

Lemma extract_span body :
  no_lt body = true -> _extract_answer_tag (span body) = Some (strip body).
Proof.
  intros H.
  pose proof (extract_one_span [] open_tag body close_tag []
                (no_lt_no_open_tag [] eq_refl) eq_refl
                (no_lt_no_close_tag body H) eq_refl
                (or_introl (no_lt_no_open_tag [] eq_refl))) as E.
  cbn [app] in E. rewrite app_nil_r in E. exact E.
Qed.

(** The numerals of an integer in the exact range of binary64 are read back
    as that integer. *)
Lemma parse_number_numeral n d body frac :
  Z.abs n <= 2 ^ 53 ->
  isdecimal d = true -> forallb (number_body true) body = true ->
  remove_char "," (d :: body) = digits (Z.abs n) ->
  numeral_suffix frac ->
  parse_number (span (sign_of n ++ d :: body ++ frac)) = Ret (Some n).
Proof.
  intros Hn Hd Hb Hrm Hf.
  set (neg := n <? 0).
  assert (Hsign : sign_of n = if neg then ["-"%char] else []) by reflexivity.
  set (tok := sign_of n ++ d :: body ++ frac).
  destruct (suffix_head frac Hf) as (_ & _ & Hfr & Hflt & Hfsp).
  destruct (decimal_char d Hd) as (_ & _ & Hdlt & Hdsp).
  assert (Hbody : forallb (fun c => negb (eqc c "<")) body = true
                  /\ forallb (fun c => negb (isspace c)) body = true).
  { split; (eapply forallb_impl; [|exact Hb]); intros c Hc;
      destruct (number_body_char c Hc) as [H1 H2]; now rewrite ?H1, ?H2. }
  destruct Hbody as [Hblt Hbsp].
  assert (Hlt : no_lt tok = true).
  { unfold no_lt, tok. rewrite Hsign.
    destruct neg; cbn [app forallb]; rewrite ?forallb_app, Hdlt, Hblt, Hflt;
      reflexivity. }
  assert (Hsp : forallb (fun c => negb (isspace c)) tok = true).
  { unfold tok. rewrite Hsign.
    destruct neg; cbn [app forallb]; rewrite ?forallb_app, Hdsp, Hbsp, Hfsp;
      reflexivity. }
  assert (Hne : tok <> []).
  { unfold tok. rewrite Hsign. destruct neg; discriminate. }
  assert (Hm : match_number true true tok = Some (tok, length tok)).
  { unfold tok. rewrite Hsign. now apply match_number_numeral. }
  assert (Hint : int_of_token tok = Ret n).
  { unfold int_of_token, tok. rewrite Hsign.
    rewrite remove_char_app.
    change (d :: body ++ frac) with ((d :: body) ++ frac).
    rewrite remove_char_app, Hrm, Hfr.
    replace (remove_char "," (if neg then ["-"%char] else []))
      with (if neg then ["-"%char] else []) by now destruct neg.
    rewrite int_of_float_text_numeral by (auto; lia).
    f_equal. unfold neg. destruct (n <? 0) eqn:E.
    - apply Z.ltb_lt in E. lia.
    - apply Z.ltb_ge in E. lia. }
  unfold parse_number.
  change (is_empty (span tok)) with false. cbv iota.
  rewrite (extract_span tok Hlt), (strip_solid tok Hsp).
  rewrite (findall_whole _ tok Hne Hm).
  cbn [rev app first_convertible]. now rewrite Hint.
Qed.

Lemma plain_is_str n : plain n = str_of_int n.
Proof.
  unfold plain, str_of_int, sign_of.
  destruct (n <? 0) eqn:E.
  - apply Z.ltb_lt in E. now rewrite Z.abs_neq by lia.
  - apply Z.ltb_ge in E. now rewrite Z.abs_eq by lia.
Qed.

Lemma parse_number_plain n frac :
  Z.abs n <= 2 ^ 53 -> numeral_suffix frac ->
  parse_number (span (plain n ++ frac)) = Ret (Some n).
Proof.
  intros Hn Hf. unfold plain.
  destruct (digits_head (Z.abs n) (Z.abs_nonneg n)) as (d & ds & E & Hd & Hds).
  rewrite E, <- app_assoc.
  change ((d :: ds) ++ frac) with (d :: ds ++ frac).
  apply parse_number_numeral; auto.
  - eapply forallb_impl; [|exact Hds].
    intros c Hc. unfold number_body. now rewrite Hc.
  - rewrite E. apply remove_char_decimal. cbn [forallb]. now rewrite Hd, Hds.
Qed.

Lemma parse_number_with_commas n frac :
  Z.abs n <= 2 ^ 53 -> numeral_suffix frac ->
  parse_number (span (with_commas n ++ frac)) = Ret (Some n).
Proof.
  intros Hn Hf. unfold with_commas.
  destruct (digits_head (Z.abs n) (Z.abs_nonneg n)) as (d & ds & E & Hd & Hds).
  assert (Hall : forallb isdecimal (digits (Z.abs n)) = true)
    by (rewrite E; cbn [forallb]; now rewrite Hd, Hds).
  pose proof (group3_remove _ Hall) as Hrm.
  rewrite E in Hrm |- *.
  destruct (group3_head d ds Hds) as (body & Eg & Hbody).
  rewrite Eg in Hrm |- *. rewrite <- app_assoc.
  change ((d :: body) ++ frac) with (d :: body ++ frac).
  apply parse_number_numeral; auto. now rewrite E.
Qed.

(** C2, as the source has it: an integer of magnitude at most 2^53, written
    inside an answer span as [str] writes it, with commas between groups
    of three digits, or with a decimal suffix of a point and zeros, is
    extracted exactly. *)
Theorem integer_round_trip (n : Z) (k : nat) :
  Z.abs n <= 2 ^ 53 ->
  parse_number (span (str_of_int n)) = Ret (Some n)
  /\ parse_number (span (with_commas n)) = Ret (Some n)
  /\ parse_number (span (with_fraction (str_of_int n) (S k))) = Ret (Some n)
  /\ parse_number (span (with_fraction (with_commas n) (S k))) = Ret (Some n).
Proof.
  intros Hn. rewrite <- plain_is_str.
  assert (H0 : numeral_suffix []) by now left.
  assert (Hk : numeral_suffix ("."%char :: zeros (S k))) by (right; eauto).
  pose proof (parse_number_plain n [] Hn H0) as H1.
  pose proof (parse_number_with_commas n [] Hn H0) as H2.
  rewrite app_nil_r in H1, H2.
  repeat split; auto.
  - apply (parse_number_plain n _ Hn Hk).
  - apply (parse_number_with_commas n _ Hn Hk).
Qed.

Lemma integer_round_trip_witness :
  Z.abs (-1234567) <= 2 ^ 53
  /\ with_commas (-1234567) = lit "-1,234,567"
  /\ parse_number (span (with_commas (-1234567))) = Ret (Some (-1234567)).
Proof.
  assert (H : Z.abs (-1234567) <= 2 ^ 53) by (vm_compute; discriminate).
  split; [exact H|]. split; [reflexivity|].
  exact (proj1 (proj2 (integer_round_trip (-1234567) 0 H))).
Defined.

(** C2 as the claim states it fails: 2^53 + 1 is written in full inside
    the span and 2^53 is extracted. *)
Lemma integer_round_trip_inexact :
  str_of_int 9007199254740993 = lit "9007199254740993"
  /\ parse_number (span (str_of_int 9007199254740993))
     = Ret (Some 9007199254740992).
Proof. split; vm_compute; reflexivity. Qed.

(** ** The last span *)

Lemma parse_number_same_span t1 t2 :
  t1 <> [] -> t2 <> [] ->
  _extract_answer_tag t1 = _extract_answer_tag t2 ->
  parse_number t1 = parse_number t2.
Proof.
  intros H1 H2 E. unfold parse_number.
  destruct t1; [congruence|]. destruct t2; [congruence|].
  cbn [is_empty]. now rewrite E.
Qed.

Lemma no_lt_plain n : no_lt (plain n) = true.
Proof.
  unfold plain, sign_of, no_lt.
  assert (H : forallb (fun c => negb (eqc c "<")) (digits (Z.abs n)) = true).
  { eapply forallb_impl; [|apply digits_decimal, Z.abs_nonneg].
    intros c Hc. now destruct (decimal_char c Hc) as (_ & _ & -> & _). }
  destruct (n <? 0); cbn [app forallb]; now rewrite H.
Qed.

Lemma lower_char_gt c : lower_char c = ">"%char -> c = ">"%char.
Proof.
  destruct c as [[] [] [] [] [] [] [] []]; vm_compute; intros H;
    first [reflexivity | discriminate H].
Qed.

Lemma open_tag_end o :
  spelling_of open_tag o -> exists o', o = o' ++ [">"%char].
Proof.
  unfold spelling_of. intros H.
  destruct o as [|a1 [|a2 [|a3 [|a4 [|a5 [|a6 [|a7 [|a8 [|a9 o]]]]]]]]];
    try discriminate H.
  cbn [lower map] in H. injection H as _ _ _ _ _ _ _ H.
  apply lower_char_gt in H. subst a8. now exists [a1; a2; a3; a4; a5; a6; a7].
Qed.

(** The match that ends with the closing tag of a span whose content holds
    no ["<"] is the last one when no span follows; its content ends with
    that of the span, after nothing or after a [">"]. *)
Lemma last_match_ends_with X o body c post :
  spelling_of open_tag o -> spelling_of close_tag c -> no_lt body = true ->
  spanless post ->
  exists Y,
    last (findall match_answer (X ++ o ++ body ++ c ++ post)) = Some (Y ++ body)
    /\ (Y = [] \/ exists Y', Y = Y' ++ [">"%char]).
Proof.
  intros Ho Hc Hb Hpost.
  remember (length X) as n eqn:En.
  assert (Hn : (length X <= n)%nat) by lia. clear En.
  revert X Hn. induction n as [|n IH]; intros X Hn.
  - destruct X; [|cbn [length] in Hn; lia]. exists []. split; [|now left].
    pose proof (findall_span [] o body c post) as E. cbn [app] in *.
    rewrite E; auto.
    + now rewrite (findall_spanless post Hpost).
    + apply free_of_nil. discriminate.
    + now apply no_lt_no_close_tag.
  - destruct (contains_ci open_tag X) eqn:Eo.
    + apply first_occurrence in Eo as (pre & o1 & X1 & -> & Hp & Ho1);
        [|discriminate].
      destruct (contains_ci close_tag X1) eqn:Ec.
      * apply first_occurrence in Ec as (b1 & c1 & X2 & -> & Hb1 & Hc1);
          [|discriminate].
        destruct (IH X2) as (Y & EY & HY).
        { pose proof (spelling_length _ _ Ho1) as Lo.
          rewrite !length_app, Lo in Hn.
          change (length open_tag) with 8%nat in Hn. lia. }
        exists Y. split; [|exact HY].
        replace ((pre ++ o1 ++ b1 ++ c1 ++ X2) ++ o ++ body ++ c ++ post)
          with (pre ++ o1 ++ b1 ++ c1 ++ (X2 ++ o ++ body ++ c ++ post))
          by now rewrite <- !app_assoc.
        rewrite (findall_span _ _ _ _ _ Hp Ho1 Hb1 Hc1).
        rewrite last_cons, EY. reflexivity.
      * exists (X1 ++ o). split.
        -- replace ((pre ++ o1 ++ X1) ++ o ++ body ++ c ++ post)
             with (pre ++ o1 ++ (X1 ++ o ++ body) ++ c ++ post)
             by now rewrite <- !app_assoc.
           rewrite (findall_span pre o1 (X1 ++ o ++ body) c post Hp Ho1); auto.
           ++ rewrite (findall_spanless post Hpost). cbn [last].
              now rewrite <- !app_assoc.
           ++ apply no_close_tag_join; auto. now apply contains_ci_free_of.
        -- right. destruct (open_tag_end o Ho) as [o' ->].
           exists (X1 ++ o'). now rewrite <- app_assoc.
    + exists []. split; [|now left]. cbn [app].
      rewrite (findall_span X o body c post); auto.
      * now rewrite (findall_spanless post Hpost).
      * now apply contains_ci_free_of.
      * now apply no_lt_no_close_tag.
Qed.

(** *** Numeric tokens after other text *)

Lemma take_drop_while f (s : str) : take_while f s ++ drop_while f s = s.
Proof.
  induction s as [|x s IH]; [reflexivity|].
  cbn [take_while drop_while]. destruct (f x); [|reflexivity].
  cbn [app]. now rewrite IH.
Qed.

Lemma take_while_forallb f (s : str) : forallb f (take_while f s) = true.
Proof.
  induction s as [|x s IH]; [reflexivity|].
  cbn [take_while]. destruct (f x) eqn:E; [|reflexivity].
  cbn [forallb]. now rewrite E, IH.
Qed.

(** A numeric token is a prefix of the text, made of digits, commas,
    points and minus signs. *)
Lemma match_number_prefix commas fraction s found len :
  match_number commas fraction s = Some (found, len) ->
  len = length found
  /\ forallb number_char found = true
  /\ exists rest, s = found ++ rest.
Proof.
  unfold match_number. cbv zeta.
  set (signed := match s with
                 | c :: d :: _ => eqc c "-" && isdecimal d
                 | _ => false
                 end).
  assert (Hs : s = (if signed then ["-"%char] else []) ++ (if signed then tl s else s)).
  { unfold signed. destruct s as [|c [|d s]]; try reflexivity.
    destruct (eqc c "-") eqn:Ec; [|reflexivity].
    apply eqc_eq in Ec. subst c. cbn [andb]. now destruct (isdecimal d). }
  destruct (if signed then tl s else s) as [|d t] eqn:E1; [discriminate|].
  destruct (isdecimal d) eqn:Ed; [|discriminate].
  intros [= <- <-]. split; [reflexivity|].
  set (f := number_body commas).
  assert (Hrun : forallb number_char (take_while f t) = true).
  { eapply forallb_impl; [|apply take_while_forallb].
    intros c Hc. unfold f, number_body, number_char in *.
    destruct (isdecimal c); [reflexivity|]. cbn [orb] in *.
    apply andb_true_iff in Hc as [_ Hc]. now rewrite Hc. }
  set (frac := match drop_while f t with
               | c :: r1 =>
                   if fraction && eqc c "."
                   then match take_while isdecimal r1 with
                        | [] => []
                        | fd => c :: fd
                        end
                   else []
               | [] => []
               end).
  assert (Hfrac : forallb number_char frac = true
                  /\ exists rest, drop_while f t = frac ++ rest).
  { unfold frac. destruct (drop_while f t) as [|c r1]; [split; [reflexivity|now exists []]|].
    destruct (fraction && eqc c ".") eqn:Ec;
      [|split; [reflexivity|now exists (c :: r1)]].
    apply andb_true_iff in Ec as [_ Ec].
    pose proof (take_while_forallb isdecimal r1) as Hd.
    pose proof (take_drop_while isdecimal r1) as Hr.
    destruct (take_while isdecimal r1) as [|x fd];
      [split; [reflexivity|now exists (c :: r1)]|].
    split.
    - change (forallb number_char (c :: x :: fd))
        with (number_char c && forallb number_char (x :: fd)).
      apply andb_true_iff. split.
      + unfold number_char. rewrite Ec. now rewrite !orb_true_r.
      + eapply forallb_impl; [|exact Hd]. intros y Hy. unfold number_char.
        now rewrite Hy.
    - exists (drop_while isdecimal r1). rewrite <- Hr at 1. reflexivity. }
  destruct Hfrac as [Hf [rest Hrest]]. split.
  - rewrite forallb_app. cbn [forallb]. rewrite forallb_app, Hrun, Hf.
    unfold number_char at 2. rewrite Ed. cbn [orb andb].
    rewrite andb_true_r. now destruct signed.
  - exists rest. rewrite Hs at 1. rewrite <- app_assoc. f_equal.
    cbn [app]. f_equal. rewrite <- app_assoc, <- Hrest.
    symmetry. apply take_drop_while.
Qed.

Lemma prefix_before (found rest a t : str) (x : ascii) :
  found ++ rest = a ++ x :: t -> forallb number_char found = true ->
  number_char x = false -> (length found <= length a)%nat.
Proof.
  revert a. induction found as [|y found IH]; intros a E Hf Hx;
    [cbn [length]; lia|].
  cbn [forallb] in Hf. apply andb_true_iff in Hf as [Hy Hf].
  destruct a as [|z a]; cbn [app] in E.
  - injection E as -> _. congruence.
  - injection E as _ E. cbn [length]. specialize (IH a E Hf Hx). lia.
Qed.

Lemma findall_number_after commas fraction A k tok :
  (k <= length A)%nat ->
  exists l,
    findall_from (match_number commas fraction) k (A ++ ">"%char :: tok)
    = l ++ findall_from (match_number commas fraction) 0 tok.
Proof.
  revert k. induction A as [|x A IH]; intros k Hk.
  - cbn [length] in Hk. assert (k = 0%nat) as -> by lia.
    exists []. cbn [app findall_from].
    assert (E : match_number commas fraction (">"%char :: tok) = None).
    { unfold match_number. destruct tok; reflexivity. }
    now rewrite E.
  - cbn [app findall_from]. destruct k as [|k].
    + destruct (match_number commas fraction (x :: A ++ ">"%char :: tok))
        as [[found len]|] eqn:E.
      * apply match_number_prefix in E as (-> & Hf & rest & E).
        change (x :: A ++ ">"%char :: tok) with ((x :: A) ++ ">"%char :: tok) in E.
        symmetry in E. apply prefix_before in E; [|exact Hf|reflexivity].
        cbn [length] in E.
        destruct (IH (Nat.pred (length found))) as [l El]; [lia|].
        exists (found :: l). now rewrite El.
      * destruct (IH 0%nat) as [l El]; [lia|]. now exists l.
    + cbn [length] in Hk. destruct (IH k) as [l El]; [lia|]. now exists l.
Qed.

Lemma strip_before_solid a w :
  w <> [] -> forallb (fun c => negb (isspace c)) w = true ->
  exists a', strip (a ++ w) = a' ++ w.
Proof.
  intros Hne Hw. unfold strip, strip_with.
  assert (Hh : exists c w', w = c :: w' /\ isspace c = false).
  { destruct w as [|c w']; [congruence|]. exists c, w'. split; [reflexivity|].
    cbn [forallb] in Hw. apply andb_true_iff in Hw as [Hc _].
    now apply negb_true_iff in Hc. }
  destruct (drop_while_keeps isspace a w [] Hh) as [a' E].
  rewrite app_nil_r in E. rewrite E.
  exists a'. rewrite rev_app_distr.
  assert (Hr : exists c r, rev w = c :: r /\ isspace c = false).
  { destruct (rev w) as [|c r] eqn:Er.
    - apply (f_equal (@rev ascii)) in Er. rewrite rev_involutive in Er.
      now subst w.
    - exists c, r. split; [reflexivity|].
      rewrite forallb_forall in Hw. apply negb_true_iff, Hw, in_rev.
      rewrite Er. now left. }
  destruct Hr as (c & r & Er & Hc). rewrite Er. cbn [app drop_while].
  rewrite Hc. change (c :: r ++ rev a') with ((c :: r) ++ rev a').
  rewrite <- Er, <- rev_app_distr. apply rev_involutive.
Qed.

(** The numeral of an integer in the exact range of binary64 is one token,
    read back as that integer. *)
Lemma plain_token n :
  Z.abs n <= 2 ^ 53 ->
  plain n <> []
  /\ match_number true true (plain n) = Some (plain n, length (plain n))
  /\ int_of_token (plain n) = Ret n
  /\ no_lt (plain n) = true
  /\ forallb (fun c => negb (isspace c)) (plain n) = true.
Proof.
  intros Hn. unfold plain.
  destruct (digits_head (Z.abs n) (Z.abs_nonneg n)) as (d & ds & E & Hd & Hds).
  assert (Hb : forallb (number_body true) ds = true).
  { eapply forallb_impl; [|exact Hds]. intros c Hc. unfold number_body.
    now rewrite Hc. }
  set (neg := n <? 0).
  assert (Hsign : sign_of n = if neg then ["-"%char] else []) by reflexivity.
  rewrite E, Hsign. split; [destruct neg; discriminate|]. split.
  { pose proof (match_number_numeral neg d ds [] Hd Hb (or_introl eq_refl)) as H.
    cbv zeta in H. now rewrite app_nil_r in H. }
  split.
  { unfold int_of_token. rewrite remove_char_app.
    rewrite (remove_char_decimal (d :: ds))
      by (cbn [forallb]; now rewrite Hd, Hds).
    replace (remove_char "," (if neg then ["-"%char] else []))
      with (if neg then ["-"%char] else []) by now destruct neg.
    pose proof (int_of_float_text_numeral neg (Z.abs n) []) as H.
    rewrite app_nil_r, E in H. rewrite H; [|lia|now left].
    f_equal. unfold neg. destruct (n <? 0) eqn:En.
    - apply Z.ltb_lt in En. lia.
    - apply Z.ltb_ge in En. lia. }
  pose proof (no_lt_plain n) as Hlt. unfold plain in Hlt.
  rewrite E, Hsign in Hlt. split; [exact Hlt|].
  destruct (decimal_char d Hd) as (_ & _ & _ & Hdsp).
  assert (Hsp : forallb (fun c => negb (isspace c)) ds = true).
  { eapply forallb_impl; [|exact Hds]. intros c Hc.
    destruct (decimal_char c Hc) as (_ & _ & _ & ->). reflexivity. }
  destruct neg; cbn [app forallb]; now rewrite Hdsp, Hsp.
Qed.

(** The integer of the last span is extracted, whatever comes before the
    span. *)
Lemma parse_number_last_span X n post :
  spanless post -> Z.abs n <= 2 ^ 53 ->
  parse_number (X ++ span (plain n) ++ post) = Ret (Some n).
Proof.
  intros Hpost Hn.
  destruct (plain_token n Hn) as (Hne & Hm & Hint & Hlt & Hsp).
  unfold span. rewrite <- !app_assoc.
  destruct (last_match_ends_with X open_tag (plain n) close_tag post
              eq_refl eq_refl Hlt Hpost) as (Y & EY & HY).
  unfold parse_number, _extract_answer_tag.
  assert (Hx : is_empty (X ++ open_tag ++ plain n ++ close_tag ++ post) = false)
    by now destruct X.
  rewrite Hx, EY.
  assert (Hin : exists l,
             findall (match_number true true) (strip (Y ++ plain n))
             = l ++ [plain n]).
  { destruct HY as [->|[Y' ->]].
    - exists []. cbn [app]. rewrite (strip_solid _ Hsp).
      now apply findall_whole.
    - rewrite <- app_assoc. cbn [app].
      destruct (strip_before_solid Y' (">"%char :: plain n)) as [a' ->];
        [discriminate|cbn [forallb]; now rewrite Hsp|].
      unfold findall.
      destruct (findall_number_after true true a' 0 (plain n)) as [l ->];
        [lia|].
      exists l. f_equal. now apply findall_whole. }
  destruct Hin as [l ->].
  destruct (l ++ [plain n]) eqn:El; [now destruct l|]. rewrite <- El.
  rewrite rev_app_distr. cbn [rev app first_convertible]. now rewrite Hint.
Qed.

Lemma findall_response segs tail :
  Forall plain_segment segs -> spanless tail ->
  findall match_answer (response segs tail) = map seg_body segs.
Proof.
  intros Hs Ht. induction Hs as [|g segs (Hp & Ho & Hb & Hc) _ IH].
  - now apply findall_spanless.
  - cbn [response map].
    now rewrite (findall_span _ _ _ _ _ Hp Ho Hb Hc), IH.
Qed.

Lemma response_nonempty g segs tail :
  plain_segment g -> response (g :: segs) tail <> [].
Proof.
  intros (_ & Ho & _). cbn [response].
  pose proof (spelling_length _ _ Ho) as L.
  destruct (seg_open g); [discriminate|]. now destruct (seg_pre g).
Qed.

Lemma extract_response segs g tail :
  Forall plain_segment (segs ++ [g]) -> spanless tail ->
  _extract_answer_tag (response (segs ++ [g]) tail)
  = Some (strip (seg_body g)).
Proof.
  intros Hs Ht.
  rewrite extract_of_findall.
  - rewrite (findall_response _ _ Hs Ht), map_app. cbn [map].
    now rewrite last_snoc.
  - destruct segs as [|g0 segs]; cbn [app];
      apply response_nonempty; now inversion Hs.
Qed.

(** C4: extraction reads the last answer span only.  Every text is made
    of answer spans and a tail that holds no span (no opening tag, or no
    closing tag after its first opening tag); a span begins at the first
    opening tag after the span before it and ends at the first closing
    tag after that, tags in any letter case, newlines allowed anywhere.
    The content extracted is that of the last span, and the integer
    extracted is the one the last span alone gives; a text that holds no
    span yields [None] whatever else it holds.  With two integers in two
    spans, whatever is around them as long as no span follows, the
    integer extracted is the second when its magnitude is at most
    2^53. *)
Theorem last_span_is_extracted :
  (forall text,
      exists segs tail,
        text = response segs tail /\ Forall plain_segment segs
        /\ spanless tail)
  /\ (forall segs g tail,
         Forall plain_segment (segs ++ [g]) -> spanless tail ->
         _extract_answer_tag (response (segs ++ [g]) tail)
         = Some (strip (seg_body g))
         /\ parse_number (response (segs ++ [g]) tail)
            = parse_number (span (seg_body g)))
  /\ (forall pre n1 mid n2 post,
         spanless post -> Z.abs n2 <= 2 ^ 53 ->
         parse_number
           (pre ++ span (str_of_int n1) ++ mid ++ span (str_of_int n2) ++ post)
         = Ret (Some n2))
  /\ (forall text,
         spanless text ->
         _extract_answer_tag text = None /\ parse_number text = Ret None).
Proof.
  split; [exact response_of_text|]. split; [|split].
  - intros segs g tail Hs Ht.
    pose proof (extract_response segs g tail Hs Ht) as E.
    split; [exact E|].
    assert (Hg : plain_segment g).
    { apply Forall_app in Hs as [_ Hg]. now inversion Hg. }
    destruct Hg as (_ & _ & Hb & _).
    apply parse_number_same_span.
    + destruct segs as [|g0 segs]; cbn [app];
        apply response_nonempty; now inversion Hs.
    + discriminate.
    + rewrite E. symmetry.
      pose proof (extract_one_span [] open_tag (seg_body g) close_tag []
                    (no_lt_no_open_tag [] eq_refl) eq_refl Hb eq_refl
                    (or_introl (no_lt_no_open_tag [] eq_refl))) as E1.
      cbn [app] in E1. rewrite app_nil_r in E1. exact E1.
  - intros pre n1 mid n2 post Hq Hn.
    rewrite <- !plain_is_str.
    pose proof (parse_number_last_span (pre ++ span (plain n1) ++ mid) n2 post
                  Hq Hn) as E.
    now rewrite <- !app_assoc in E.
  - intros text H. pose proof (extract_spanless text H) as E.
    split; [exact E|]. unfold parse_number.
    destruct (is_empty text); [reflexivity|]. now rewrite E.
Qed.

Lemma last_span_is_extracted_witness :
  spanless (lit "</answer> and <answer>")
  /\ Z.abs 7 <= 2 ^ 53
  /\ parse_number (lit "<answer> I count 6 < 8... " ++ span (str_of_int 6)
                   ++ lit " wait: <Answer>" ++ span (str_of_int 7)
                   ++ lit "</answer> and <answer>")
     = Ret (Some 7).
Proof.
  assert (H1 : spanless (lit "</answer> and <answer>")).
  { right. exists (lit "</answer> and "), open_tag, [].
    split; [reflexivity|]. split; [now apply contains_ci_free_of|].
    split; [reflexivity|]. now apply contains_ci_free_of. }
  assert (H : Z.abs 7 <= 2 ^ 53) by (vm_compute; discriminate).
  split; [exact H1|]. split; [exact H|].
  exact (proj1 (proj2 (proj2 last_span_is_extracted))
           (lit "<answer> I count 6 < 8... ") 6 (lit " wait: <Answer>") 7
           (lit "</answer> and <answer>") H1 H).
Defined.

(** C4 as the claim states it fails on the integer: 2^53 + 1 is written in
    full in the second of two spans, and 2^53 is extracted. *)
Lemma second_span_read_inexactly :
  str_of_int 9007199254740993 = lit "9007199254740993"
  /\ parse_number (span (str_of_int 1) ++ span (str_of_int 9007199254740993))
     = Ret (Some 9007199254740992).
Proof. split; vm_compute; reflexivity. Qed.

(** ** Whole words *)

Lemma last_or_cons prev c pre : last_or prev (c :: pre) = last_or (Some c) pre.
Proof.
  unfold last_or. destruct pre as [|x pre]; [reflexivity|].
  rewrite last_cons. destruct (last (x :: pre)); reflexivity.
Qed.

Lemma word_at_app prev w post :
  word_at prev (w ++ post) w
  = boundary prev (head (w ++ post)) && boundary (last w) (head post).
Proof.
  unfold word_at. now rewrite startswith_app, skipn_length_app, andb_true_r.
Qed.

Lemma word_at_here ws prev s :
  existsb (word_at prev s) ws = true ->
  exists w post,
    In w ws /\ s = w ++ post
    /\ boundary prev (head (w ++ post)) = true
    /\ boundary (last w) (head post) = true.
Proof.
  intros H. apply existsb_exists in H as (w & Hw & Hat).
  unfold word_at in Hat.
  apply andb_true_iff in Hat as [Hat Hb2].
  apply andb_true_iff in Hat as [Hb1 Hs].
  apply startswith_inv in Hs as [post ->].
  rewrite skipn_length_app in Hb2. eauto 6.
Qed.

Lemma search_words_occurs ws prev s :
  search_words ws prev s = true <->
  exists w pre post,
    In w ws /\ s = pre ++ w ++ post
    /\ boundary (last_or prev pre) (head (w ++ post)) = true
    /\ boundary (last w) (head post) = true.
Proof.
  split.
  - revert prev. induction s as [|c s IH]; intros prev H.
    + cbn [search_words] in H. rewrite orb_false_r in H.
      destruct (word_at_here _ _ _ H) as (w & post & Hw & E & Hb1 & Hb2).
      exists w, [], post. auto.
    + cbn [search_words] in H. apply orb_true_iff in H as [H|H].
      * destruct (word_at_here _ _ _ H) as (w & post & Hw & E & Hb1 & Hb2).
        exists w, [], post. auto.
      * destruct (IH _ H) as (w & pre & post & Hw & -> & Hb1 & Hb2).
        exists w, (c :: pre), post. rewrite last_or_cons. auto.
  - intros (w & pre & post & Hw & -> & Hb1 & Hb2).
    revert prev Hb1. induction pre as [|c pre IH]; intros prev Hb1.
    + assert (Hat : word_at prev (w ++ post) w = true).
      { rewrite word_at_app. unfold last_or in Hb1. cbn [last] in Hb1.
        now rewrite Hb1, Hb2. }
      assert (He : existsb (word_at prev (w ++ post)) ws = true).
      { apply existsb_exists. eauto. }
      cbn [app]. destruct (w ++ post); cbn [search_words]; now rewrite He.
    + cbn [app search_words]. rewrite last_or_cons in Hb1.
      rewrite (IH _ Hb1). apply orb_true_r.
Qed.

Lemma search_words_whole ws s :
  search_words ws None s = true <->
  exists w, In w ws /\ whole_word_in w s.
Proof.
  rewrite search_words_occurs. unfold whole_word_in, last_or. split.
  - intros (w & pre & post & Hw & E & Hb1 & Hb2).
    exists w. split; [exact Hw|]. exists pre, post.
    destruct (last pre); auto.
  - intros (w & Hw & pre & post & E & Hb1 & Hb2).
    exists w, pre, post. destruct (last pre); auto.
Qed.

(** [re.search] returns the leftmost match. *)
Lemma search_leftmost m s found :
  search m s = Some found ->
  exists pre rest n,
    s = pre ++ rest /\ m rest = Some (found, n)
    /\ forall a b, pre = a ++ b -> b <> [] -> m (b ++ rest) = None.
Proof.
  induction s as [|c s IH]; cbn [search]; intros H.
  - destruct (m []) as [[f n]|] eqn:E; [|discriminate].
    injection H as <-. exists [], [], n. repeat split; auto.
    intros a b Hab Hb. destruct a, b; try discriminate. congruence.
  - destruct (m (c :: s)) as [[f n]|] eqn:E.
    + injection H as <-. exists [], (c :: s), n. repeat split; auto.
      intros a b Hab Hb. destruct a, b; try discriminate. congruence.
    + destruct (IH H) as (pre & rest & n & -> & Hm & Hleft).
      exists (c :: pre), rest, n. repeat split; auto.
      intros a b Hab Hb. destruct a as [|x a].
      * cbn [app] in Hab. subst b. exact E.
      * injection Hab as _ Hpre. now apply (Hleft a b).
Qed.

Lemma int_of_float_text_no_value_error s :
  int_of_float_text s <> Raise ValueError.
Proof.
  unfold int_of_float_text, pmap, bind, float_trunc, float_trunc_at.
  cbv zeta.
  repeat match goal with
         | |- context [if ?b then _ else _] => destruct b
         end; discriminate.
Qed.

(** C5, as the source has it: with the span found, a negation keyword
    occurring as a whole word in the lower-cased span gives [False]; else an
    affirmation keyword gives [True]; else the leftmost token of the shape
    minus sign, digit, digits and commas -- not the rightmost, and with no
    decimal fraction -- gives [value > 0]; else [None]. *)
Theorem parse_boolean_rule (text inner : str) :
  _extract_answer_tag text = Some inner ->
  ((exists w, In w neg_words /\ whole_word_in w (lower inner)) ->
   parse_boolean text = Ret (Some false))
  /\ ((forall w, In w neg_words -> ~ whole_word_in w (lower inner)) ->
      (exists w, In w pos_words /\ whole_word_in w (lower inner)) ->
      parse_boolean text = Ret (Some true))
  /\ ((forall w, In w neg_words -> ~ whole_word_in w (lower inner)) ->
      (forall w, In w pos_words -> ~ whole_word_in w (lower inner)) ->
      parse_boolean text
      = match search (match_number true false) inner with
        | Some found => pmap (fun v => Some (0 <? v)) (int_of_token found)
        | None => Ret None
        end)
  /\ (forall found,
         search (match_number true false) inner = Some found ->
         exists pre rest n,
           inner = pre ++ rest
           /\ match_number true false rest = Some (found, n)
           /\ forall a b, pre = a ++ b -> b <> [] ->
                          match_number true false (b ++ rest) = None).
Proof.
  intros He.
  assert (Hne : is_empty text = false).
  { unfold _extract_answer_tag in He. destruct (is_empty text); congruence. }
  assert (Hno : forall ws,
             (forall w, In w ws -> ~ whole_word_in w (lower inner)) ->
             search_words ws None (lower inner) = false).
  { intros ws H. apply not_true_is_false. intros E.
    apply search_words_whole in E as (w & Hw & Hin). exact (H w Hw Hin). }
  unfold parse_boolean. rewrite Hne, He. cbv zeta.
  split; [|split; [|split]].
  - intros H. apply search_words_whole in H. now rewrite H.
  - intros Hn Hp. rewrite (Hno _ Hn).
    apply search_words_whole in Hp. now rewrite Hp.
  - intros Hn Hp. rewrite (Hno _ Hn), (Hno _ Hp).
    destruct (search (match_number true false) inner) as [found|];
      [|reflexivity].
    unfold int_of_token.
    pose proof (int_of_float_text_no_value_error (remove_char "," found)) as Hv.
    destruct (int_of_float_text (remove_char "," found)) as [v|[]];
      try reflexivity. congruence.
  - intros found. apply search_leftmost.
Qed.

Lemma parse_boolean_rule_witness :
  _extract_answer_tag (span (lit "No, it does contain it"))
  = Some (lit "No, it does contain it")
  /\ (exists w, In w neg_words
                /\ whole_word_in w (lower (lit "No, it does contain it")))
  /\ parse_boolean (span (lit "No, it does contain it")) = Ret (Some false).
Proof.
  assert (H : _extract_answer_tag (span (lit "No, it does contain it"))
              = Some (lit "No, it does contain it"))
    by (vm_compute; reflexivity).
  assert (W : exists w, In w neg_words
                        /\ whole_word_in w
                             (lower (lit "No, it does contain it"))).
  { exists (lit "no"). split; [left; reflexivity|].
    exists [], (lit ", it does contain it"). repeat split. }
  split; [exact H|]. split; [exact W|].
  exact (proj1 (parse_boolean_rule _ _ H) W).
Defined.

(** C5 as the claim states it fails: the span holds the tokens 0 and 5 and
    no keyword; the integer rule extracts the rightmost, 5, which is
    positive, and the boolean extracted is [False]. *)
Lemma boolean_takes_leftmost_token :
  parse_number (span (lit "0 or 5")) = Ret (Some 5)
  /\ parse_boolean (span (lit "0 or 5")) = Ret (Some false).
Proof. split; vm_compute; reflexivity. Qed.

(** * Further properties of the code *)

Import Json Routing Resume Notions.

(** ** Names without regard to letter case *)

Lemma isspace_lower_char c : isspace (lower_char c) = isspace c.
Proof. destruct c as [[] [] [] [] [] [] [] []]; reflexivity. Qed.

Lemma drop_while_lower s :
  drop_while isspace (lower s) = lower (drop_while isspace s).
Proof.
  induction s as [|c s IH]; [reflexivity|].
  cbn [lower map drop_while]. rewrite isspace_lower_char.
  destruct (isspace c); [exact IH|reflexivity].
Qed.

Lemma strip_lower s : strip (lower s) = lower (strip s).
Proof.
  unfold strip, strip_with.
  rewrite drop_while_lower. unfold lower at 1. rewrite <- map_rev.
  fold (lower (rev (drop_while isspace s))).
  rewrite drop_while_lower. unfold lower. now rewrite map_rev.
Qed.

(** X1: the scorer compares names without regard to letter case: two names
    that [str.lower] makes equal have the same normalized form, under
    either knowledge label. *)
Theorem normalize_name_ignores_case (a b : str) (knowledge_label : knowledge_label) :
  lower a = lower b ->
  _normalize_name a knowledge_label = _normalize_name b knowledge_label.
Proof.
  intros H. unfold _normalize_name.
  assert (He : is_empty a = is_empty b).
  { destruct a, b; try reflexivity; discriminate. }
  rewrite He. destruct (is_empty b); [reflexivity|].
  rewrite <- !strip_lower, H. reflexivity.
Qed.

Lemma normalize_name_ignores_case_witness :
  lower (lit "Mr. Mime") = lower (lit "MR. MIME")
  /\ _normalize_name (lit "Mr. Mime") knowledge_intensive
     = _normalize_name (lit "MR. MIME") knowledge_intensive.
Proof.
  split; [reflexivity|].
  apply (normalize_name_ignores_case (lit "Mr. Mime") (lit "MR. MIME")).
  reflexivity.
Defined.

(** ** Stripping twice *)

Lemma drop_while_head f s :
  match drop_while f s with [] => True | c :: _ => f c = false end.
Proof.
  induction s as [|c s IH]; simpl; [exact I|].
  destruct (f c) eqn:E; [exact IH|exact E].
Qed.

Lemma drop_while_fixed f s :
  match s with [] => True | c :: _ => f c = false end ->
  drop_while f s = s.
Proof. destruct s as [|c s]; simpl; [reflexivity|]. now intros ->. Qed.

Lemma strip_with_idem f s : strip_with f (strip_with f s) = strip_with f s.
Proof.
  unfold strip_with.
  set (u := drop_while f s).
  set (w := drop_while f (rev u)).
  assert (Hw : drop_while f (rev w) = rev w).
  { apply drop_while_fixed.
    destruct (rev w) as [|c t] eqn:E; [exact I|].
    (* the head of [rev w] is the last character of [w], so of [rev u]:
       it is the head of [u] *)
    assert (Hwne : w <> []) by (intros ->; discriminate).
    destruct (drop_while_suffix f (rev u)) as [p Hp]. fold w in Hp.
    assert (Hu : exists q, u = c :: q).
    { destruct u as [|a q] eqn:Eu.
      - simpl in w. subst w. congruence.
      - exists q. f_equal.
        assert (E2 : rev (rev (a :: q)) = rev (p ++ w)) by now rewrite Hp.
        rewrite rev_involutive, rev_app_distr, E in E2. simpl in E2.
        now injection E2. }
    destruct Hu as [q Hu].
    pose proof (drop_while_head f s) as Hh. fold u in Hh. now rewrite Hu in Hh. }
  rewrite Hw.
  rewrite rev_involutive.
  rewrite (drop_while_fixed f w); [reflexivity|].
  apply drop_while_head.
Qed.

Lemma strip_idem s : strip (strip s) = strip s.
Proof. apply strip_with_idem. Qed.

(** ** From the extracted list to the scored set *)

Lemma to_set_of_cleaned (xs : list str) :
  let l := List.filter nonempty (map strip xs) in
  _to_set (VList (map VStr l)) = l.
Proof.
  cbv zeta. unfold _to_set. rewrite map_map. cbn [py_str].
  induction xs as [|x xs IH]; [reflexivity|].
  cbn [map List.filter].
  destruct (nonempty (strip x)) eqn:E; [|exact IH].
  cbn [map List.filter]. rewrite strip_idem, E. now f_equal.
Qed.

(** X2: the list [parse_intersection_list] extracts is scored as it is:
    written to the prediction file and read back by [_to_set], it yields
    the same elements in the same order, none dropped or altered. *)
Theorem intersection_list_scored_as_extracted
    (literal_eval : str -> literal) (text : str) (l : list str) :
  parse_intersection_list literal_eval text = Ret l ->
  _to_set (to_pyval (EList l)) = l.
Proof.
  unfold parse_intersection_list, to_pyval.
  destruct (is_empty text); [now intros [= <-]|].
  destruct (_extract_answer_tag text) as [inner|]; [|now intros [= <-]].
  destruct (is_empty (strip inner)); [now intros [= <-]|].
  destruct (bracketed (strip inner)).
  - destruct (literal_eval (strip inner)) as [items| | |];
      try discriminate; intros [= <-]; apply to_set_of_cleaned.
  - intros [= <-]; apply to_set_of_cleaned.
Qed.

Lemma intersection_list_scored_as_extracted_witness :
  parse_intersection_list no_literal (lit "<answer> Mew ; Pikachu and Abra </answer>")
  = Ret [lit "Mew"; lit "Pikachu"; lit "Abra"]
  /\ _to_set (to_pyval (EList [lit "Mew"; lit "Pikachu"; lit "Abra"]))
     = [lit "Mew"; lit "Pikachu"; lit "Abra"].
Proof.
  assert (H : parse_intersection_list no_literal
                (lit "<answer> Mew ; Pikachu and Abra </answer>")
              = Ret [lit "Mew"; lit "Pikachu"; lit "Abra"])
    by (vm_compute; reflexivity).
  split; [exact H|].
  exact (intersection_list_scored_as_extracted _ _ _ H).
Defined.

(** ** The range of the set F1 *)



Lemma inject_Z_nonzero z : z <> 0 -> ~ (inject_Z z == 0)%Q.
Proof. intros H E. apply H. unfold Qeq in E. simpl in E. lia. Qed.

Lemma f1_formula (i a b : Z) :
  0 < i -> 0 < a -> 0 < b ->
  let inter := inject_Z i in
  let prec := (inter / inject_Z b)%Q in
  let rec := (inter / inject_Z a)%Q in
  (~ prec + rec == 0)%Q
  /\ (2 * prec * rec / (prec + rec) == inject_Z (2 * i) / inject_Z (a + b))%Q.
Proof.
  intros Hi Ha Hb. cbv zeta.
  pose proof (inject_Z_nonzero i ltac:(lia)).
  pose proof (inject_Z_nonzero a ltac:(lia)).
  pose proof (inject_Z_nonzero b ltac:(lia)).
  pose proof (inject_Z_nonzero (a + b) ltac:(lia)) as Hab.
  pose proof (inject_Z_nonzero (i * a + i * b) ltac:(nia)) as Hiab.
  rewrite inject_Z_plus in Hab.
  rewrite inject_Z_plus, !inject_Z_mult in Hiab.
  split.
  - intros E. apply Hiab.
    transitivity ((inject_Z i / inject_Z b + inject_Z i / inject_Z a)
                  * (inject_Z a * inject_Z b))%Q; [field; auto|].
    rewrite E. ring.
  - rewrite !inject_Z_mult, !inject_Z_plus. field. repeat split; auto.
Qed.

Lemma ratio_range (n d : Z) :
  0 <= n -> 0 < d ->
  ((0 <= inject_Z n / inject_Z d)%Q <-> True)
  /\ ((inject_Z n / inject_Z d <= 1)%Q <-> n <= d)
  /\ ((inject_Z n / inject_Z d == 1)%Q <-> n = d)
  /\ ((inject_Z n / inject_Z d == 0)%Q <-> n = 0).
Proof.
  intros Hn Hd. destruct d as [|p|p]; try lia.
  rewrite <- Qmake_Qdiv.
  unfold Qle, Qeq. simpl. repeat split; intros; try lia.
Qed.

Lemma sample_f1_sets_cases (A B : gset str) :
  (A = ∅ /\ B = ∅ /\ sample_f1_sets A B = 1%Q)
  \/ ((A = ∅ \/ B = ∅ \/ A ∩ B = ∅) /\ (A <> ∅ \/ B <> ∅)
      /\ sample_f1_sets A B = 0%Q)
  \/ (A ∩ B <> ∅
      /\ (sample_f1_sets A B
          == inject_Z (2 * Z.of_nat (size (A ∩ B)))
             / inject_Z (Z.of_nat (size A) + Z.of_nat (size B)))%Q).
Proof.
  unfold sample_f1_sets.
  destruct (decide (size A = 0%nat)) as [Ha|Ha];
    destruct (decide (size B = 0%nat)) as [Hb|Hb];
    rewrite ?(bool_decide_eq_true_2 _ Ha), ?(bool_decide_eq_true_2 _ Hb),
            ?(bool_decide_eq_false_2 _ Ha), ?(bool_decide_eq_false_2 _ Hb);
    cbn [andb orb].
  - left. apply size_empty_iff in Ha, Hb. now fold_leibniz.
  - right. left. apply size_empty_iff in Ha. apply size_non_empty_iff in Hb.
    fold_leibniz. auto.
  - right. left. apply size_empty_iff in Hb. apply size_non_empty_iff in Ha.
    fold_leibniz. auto.
  - destruct (decide (size (A ∩ B) = 0%nat)) as [Hi|Hi].
    + right. left. rewrite Hi.
      apply size_empty_iff in Hi. apply size_non_empty_iff in Ha.
      fold_leibniz. split; [auto|]. split; [auto|].
      cbv zeta.
      replace (Qeq_bool _ 0) with true; [reflexivity|].
      symmetry. apply Qeq_bool_iff. unfold Qdiv. simpl inject_Z at 1 3. ring.
    + right. right. split.
      { apply size_non_empty_iff in Hi. now fold_leibniz. }
      destruct (f1_formula (Z.of_nat (size (A ∩ B))) (Z.of_nat (size A))
                  (Z.of_nat (size B))) as [Hnz Hf]; try lia.
      cbv zeta in *.
      destruct (Qeq_bool _ 0) eqn:E.
      { apply Qeq_bool_iff in E. now apply Hnz in E. }
      exact Hf.
Qed.

Lemma inter_size_eq (A B : gset str) :
  (2 * Z.of_nat (size (A ∩ B)) = Z.of_nat (size A) + Z.of_nat (size B))
  <-> A = B.
Proof.
  assert (H1 : (size (A ∩ B) <= size A)%nat)
    by apply subseteq_size, intersection_subseteq_l.
  assert (H2 : (size (A ∩ B) <= size B)%nat)
    by apply subseteq_size, intersection_subseteq_r.
  split.
  - intros H.
    assert (E1 : A ∩ B = A)
      by (apply set_subseteq_size_eq; [apply intersection_subseteq_l|lia]).
    assert (E2 : A ∩ B = B)
      by (apply set_subseteq_size_eq; [apply intersection_subseteq_r|lia]).
    congruence.
  - intros ->. rewrite (idemp_L (∩) B). lia.
Qed.

Lemma sample_f1_sets_bounds (A B : gset str) :
  (0 <= sample_f1_sets A B <= 1)%Q.
Proof.
  assert (H1 : (size (A ∩ B) <= size A)%nat)
    by apply subseteq_size, intersection_subseteq_l.
  assert (H2 : (size (A ∩ B) <= size B)%nat)
    by apply subseteq_size, intersection_subseteq_r.
  destruct (sample_f1_sets_cases A B)
    as [(_ & _ & ->)|[(_ & _ & ->)|(Hi & Hf)]]; [split; discriminate..|].
  assert (Hpos : (0 < size (A ∩ B))%nat).
  { assert (size (A ∩ B) <> 0%nat); [|lia].
    apply size_non_empty_iff. now fold_leibniz. }
  destruct (ratio_range (2 * Z.of_nat (size (A ∩ B)))
              (Z.of_nat (size A) + Z.of_nat (size B)))
    as (R0 & R1 & _); try lia.
  rewrite Hf. split; [now apply R0|apply R1; lia].
Qed.

(** X3: the F1 of a sample lies between 0 and 1; it is 1 exactly when the
    ground truth and the prediction hold the same elements, and 0 exactly
    when they share no element and are not both empty. *)
Theorem sample_f1_range (gt pred : pyval) :
  (0 <= sample_f1 gt pred <= 1)%Q
  /\ ((sample_f1 gt pred == 1)%Q
      <-> forall x, In x (_to_set gt) <-> In x (_to_set pred))
  /\ ((sample_f1 gt pred == 0)%Q
      <-> (forall x, In x (_to_set gt) -> ~ In x (_to_set pred))
          /\ (_to_set gt <> [] \/ _to_set pred <> [])).
Proof.
  unfold sample_f1.
  set (G := _to_set gt). set (P := _to_set pred).
  assert (Heq : to_gset G = to_gset P <-> forall x, In x G <-> In x P).
  { unfold to_gset. rewrite set_eq. setoid_rewrite elem_of_list_to_set.
    setoid_rewrite list_elem_of_In. reflexivity. }
  assert (Hdis : to_gset G ∩ to_gset P = ∅
                 <-> forall x, In x G -> ~ In x P).
  { unfold to_gset. rewrite set_eq. setoid_rewrite elem_of_intersection.
    setoid_rewrite elem_of_list_to_set. setoid_rewrite list_elem_of_In.
    split.
    - intros H x Hg Hp. apply (not_elem_of_empty (C := gset str) x).
      apply H. auto.
    - intros H x. split; [intros [Hg Hp]; destruct (H x Hg Hp)|].
      intros Hx. now apply not_elem_of_empty in Hx. }
  assert (Hnil : forall l : list str, to_gset l = ∅ <-> l = []).
  { intros l. split; [|now intros ->].
    destruct l as [|x l]; [reflexivity|]. intros H. exfalso.
    assert (Hx : x ∈ to_gset (x :: l)) by (apply elem_of_list_to_set; left).
    rewrite H in Hx. set_solver. }
  rewrite <- Heq, <- Hdis, <- !Hnil.
  set (A := to_gset G) in *. set (B := to_gset P) in *.
  assert (H1 : (size (A ∩ B) <= size A)%nat)
    by apply subseteq_size, intersection_subseteq_l.
  assert (H2 : (size (A ∩ B) <= size B)%nat)
    by apply subseteq_size, intersection_subseteq_r.
  destruct (sample_f1_sets_cases A B)
    as [(Ha & Hb & ->)|[(Hc & Hd & ->)|(Hi & Hf)]].
  - split; [split; discriminate|]. split.
    + split; [congruence|reflexivity].
    + split; [discriminate|]. intros [_ [H|H]]; contradiction.
  - split; [split; discriminate|]. split.
    + split; [discriminate|]. intros ->.
      destruct Hc as [Hc|[Hc|Hc]], Hd as [Hd|Hd]; try contradiction;
        rewrite (idemp_L (∩) B) in Hc; contradiction.
    + split; [|reflexivity]. intros _. split; [|exact Hd].
      destruct Hc as [->|[->|Hc]];
        [apply (left_absorb_L ∅ (∩))|apply (right_absorb_L ∅ (∩))|exact Hc].
  - assert (Hpos : (0 < size (A ∩ B))%nat).
    { assert (size (A ∩ B) <> 0%nat); [|lia].
      apply size_non_empty_iff. now fold_leibniz. }
    destruct (ratio_range (2 * Z.of_nat (size (A ∩ B)))
                (Z.of_nat (size A) + Z.of_nat (size B)))
      as (R0 & R1 & R2 & R3); try lia.
    rewrite Hf. split; [split; [now apply R0|apply R1; lia]|]. split.
    + rewrite R2. apply inter_size_eq.
    + rewrite R3. split; [lia|]. intros [H _]. contradiction.
Qed.

(** ** The range of the report *)

Lemma compare_pair_lists_range pred gt : unit_range (_compare_pair_lists pred gt).
Proof.
  unfold _compare_pair_lists, unit_range.
  destruct pred, gt; try (split; discriminate).
  repeat match goal with
         | |- context [if ?b then _ else _] => destruct b
         end; split; discriminate.
Qed.

Lemma sample_score_range question_type knowledge_label history_label gt pred x :
  sample_score question_type knowledge_label history_label gt pred
  = Ret (Some x) ->
  unit_range x.
Proof.
  unfold sample_score, unit_range.
  destruct (is_number_type question_type).
  - destruct (_to_number gt) as [[g|]|], (_to_number pred) as [[p|]|];
      cbn [bind]; try discriminate;
      intros [= <-]; [destruct (p =? g)|]; split; discriminate.
  - destruct question_type, history_label; try discriminate.
    all: repeat match goal with
           | |- context [match ?v with _ => _ end] =>
               match v with
               | _normalize_boolean _ => destruct v
               | _normalize_pair_list _ _ => destruct v
               | is_empty _ => destruct v
               end
           end; try discriminate; intros [= <-];
      try apply compare_pair_lists_range;
      try (match goal with |- context [if ?b then _ else _] => destruct b end);
      split; discriminate.
Qed.

Lemma of_nat_S n : (of_nat (S n) == of_nat n + 1)%Q.
Proof.
  unfold of_nat. rewrite Nat2Z.inj_succ, <- Z.add_1_r, inject_Z_plus.
  reflexivity.
Qed.

Lemma of_nat_pos n : (0 < n)%nat -> (0 < of_nat n)%Q.
Proof. intros H. unfold of_nat, Qlt. simpl. lia. Qed.

Lemma ratio_unit_range (c : Q) (t : nat) :
  (0 < t)%nat -> (0 <= c <= of_nat t)%Q -> unit_range (c / of_nat t).
Proof.
  intros Ht [H0 H1]. pose proof (of_nat_pos t Ht) as Hp. split.
  - apply Qle_shift_div_l; [exact Hp|]. now rewrite Qmult_0_l.
  - apply Qle_shift_div_r; [exact Hp|]. now rewrite Qmult_1_l.
Qed.

Section Ranges.

Variable question_type : question_type.
Variable knowledge_label : knowledge_label.
Variable history_label : history_label.
Variable data : gmap str row.

Lemma accuracy_loop_range preds c c' :
  accuracy_loop question_type knowledge_label history_label data preds c
  = Ret c' ->
  (c_total c <= c_matched c)%nat -> (0 <= c_correct c <= of_nat (c_total c))%Q ->
  (c_total c' <= c_matched c')%nat
  /\ (0 <= c_correct c' <= of_nat (c_total c'))%Q.
Proof.
  revert c. induction preds as [|p preds IH]; intros c H Hm Hc.
  - injection H as <-. auto.
  - cbn [accuracy_loop] in H.
    destruct (matched_row data p) as [r|]; [|now apply (IH c)].
    destruct (sample_score _ _ _ _ _) as [[x|]|e] eqn:Es; cbn [bind] in H;
      [| |discriminate].
    + apply sample_score_range in Es. destruct Es as [Hx0 Hx1].
      apply (IH _ H); cbn [c_matched c_total c_correct]; [lia|].
      destruct Hc as [Hc0 Hc1]. split.
      * rewrite <- (Qplus_0_r 0). now apply Qplus_le_compat.
      * rewrite of_nat_S. now apply Qplus_le_compat.
    + apply (IH _ H); cbn [c_matched c_total c_correct]; [lia|exact Hc].
Qed.

Lemma f1_loop_range preds m fs :
  Forall unit_range fs ->
  Forall unit_range (snd (f1_loop data preds m fs)).
Proof.
  revert m fs. induction preds as [|p preds IH]; intros m fs H; [exact H|].
  cbn [f1_loop]. destruct (matched_row data p) as [r|]; [|now apply IH].
  apply IH. apply Forall_app. split; [exact H|]. constructor; [|constructor].
  apply sample_f1_sets_bounds.
Qed.

End Ranges.

Lemma fold_Qplus_range (l : list Q) (acc : Q) (n : nat) :
  Forall unit_range l -> (0 <= acc <= of_nat n)%Q ->
  (0 <= fold_left Qplus l acc <= of_nat (n + length l))%Q.
Proof.
  revert acc n. induction l as [|x l IH]; intros acc n Hl Ha.
  - simpl. now rewrite Nat.add_0_r.
  - inversion Hl as [|? ? [Hx0 Hx1] Hl']; subst.
    cbn [fold_left length]. rewrite Nat.add_succ_r, <- Nat.add_succ_l.
    apply IH; [exact Hl'|]. destruct Ha as [Ha0 Ha1]. split.
    + rewrite <- (Qplus_0_r 0). now apply Qplus_le_compat.
    + rewrite of_nat_S. now apply Qplus_le_compat.
Qed.

(** X4: in every report [evaluate] returns the matched and the skipped
    predictions add up to the number of prediction records, the score lies
    between 0 and 1, and on the accuracy path [correct] lies between 0 and
    [total], which is at most [matched]. *)
Theorem evaluate_report_range
    (question_type : question_type) (knowledge_label : knowledge_label)
    (history_label : history_label) (rows : list row)
    (preds : list prediction) (r : report) :
  evaluate question_type knowledge_label history_label rows preds = Ret r ->
  (matched r + skipped r = length preds)%nat
  /\ (0 <= score r <= 1)%Q
  /\ (forall c t, correct r = Some c -> total r = Some t ->
        (t <= matched r)%nat /\ (0 <= c <= of_nat t)%Q).
Proof.
  intros H. destruct (evaluate_data _ _ _ _ _ _ H) as [data Hd]. split.
  { destruct (evaluate_counts _ _ _ _ _ _ _ Hd H) as [-> ->].
    rewrite (filter_split_length (is_matched data) (unmatched data) preds).
    - lia.
    - intros p. unfold is_matched. now rewrite negb_involutive. }
  destruct (accuracy_case question_type history_label) eqn:Hacc.
  - rewrite (evaluate_accuracy _ _ _ _ _ _ Hd Hacc) in H.
    destruct (accuracy_loop _ _ _ _ preds _) as [c|e] eqn:E;
      cbn [pmap bind] in H; [|discriminate].
    injection H as <-.
    apply accuracy_loop_range in E; cbn [c_matched c_total c_correct];
      [|lia|split; discriminate].
    destruct E as [Hm Hc]. unfold accuracy_report. cbn [score correct total matched].
    split.
    + destruct (0 <? c_total c)%nat eqn:Et; [|split; discriminate].
      apply Nat.ltb_lt in Et. now apply ratio_unit_range.
    + intros c0 t0 [= <-] [= <-]. auto.
  - destruct question_type, history_label; try discriminate.
    rewrite (evaluate_f1 _ _ _ _ Hd) in H.
    pose proof (f1_loop_range data preds 0 [] (List.Forall_nil _)) as Hf.
    destruct (f1_loop _ preds 0 []) as [m fs]. cbn [snd] in Hf.
    injection H as <-. unfold f1_report. cbn [score correct total].
    split; [|discriminate].
    destruct fs as [|x fs]; [split; discriminate|].
    apply ratio_unit_range; [simpl; lia|].
    apply (fold_Qplus_range (x :: fs) 0 0 Hf). split; discriminate.
Qed.

Lemma evaluate_report_range_witness :
  evaluate COUNT_FREQUENCY_TOOL knowledge_intensive Concise_Response
    [sample_row] [sample_pred (lit "a") (VInt 7); sample_pred (lit "zz") (VInt 7)]
  = Ret {| metric := accuracy; score := (0 + 1) / of_nat 1;
           correct := Some (0 + 1)%Q; total := Some 1%nat;
           matched := 1; skipped := 1 |}
  /\ (0 <= (0 + 1) / of_nat 1 <= 1)%Q.
Proof.
  assert (H : evaluate COUNT_FREQUENCY_TOOL knowledge_intensive Concise_Response
                [sample_row]
                [sample_pred (lit "a") (VInt 7); sample_pred (lit "zz") (VInt 7)]
              = Ret {| metric := accuracy; score := (0 + 1) / of_nat 1;
                       correct := Some (0 + 1)%Q; total := Some 1%nat;
                       matched := 1; skipped := 1 |})
    by (vm_compute; reflexivity).
  split; [exact H|].
  exact (proj1 (proj2 (evaluate_report_range _ _ _ _ _ _ H))).
Defined.

(** ** Rows and their ids *)

Lemma build_data_app rows1 rows2 data :
  build_data (rows1 ++ rows2) data
  = bind (build_data rows1 data) (build_data rows2).
Proof.
  revert data. induction rows1 as [|r rows1 IH]; intros data; [reflexivity|].
  cbn [app build_data]. destruct (r_id r) as [[]|]; try apply IH; reflexivity.
Qed.

Lemma build_data_other rows data data' (k : str) :
  build_data rows data = Ret data' ->
  Forall (fun r => r_id r <> Some (VStr k)) rows ->
  data' !! k = data !! k.
Proof.
  revert data. induction rows as [|r rows IH]; intros data Hd H.
  - now injection Hd as <-.
  - inversion H as [|? ? Hr Hrows]; subst. cbn [build_data] in Hd.
    destruct (r_id r) as [[| | |s|]|] eqn:E; try discriminate;
      try now apply IH.
    rewrite (IH _ Hd Hrows). apply lookup_insert_ne. congruence.
Qed.

(** The dictionary is built when every row has an id that can be hashed. *)
Lemma build_data_keyed rows data :
  Forall keyed rows -> exists data', build_data rows data = Ret data'.
Proof.
  revert data. induction rows as [|r rows IH]; intros data H; [now exists data|].
  inversion H as [|? ? (v & Ev & Hv) Hrows]; subst. cbn [build_data].
  rewrite Ev. destruct v; try discriminate Hv; now apply IH.
Qed.

(** X5: when several rows of the dataset have the same id, a prediction
    with that id is matched with the last of them.  The rows are those of
    a dataset [evaluate] accepts: each has an id, and no id is a list. *)
Theorem last_row_with_an_id_is_scored
    (before after : list row) (r : row) (pred : prediction) (key : str) :
  Forall keyed (before ++ r :: after) ->
  r_id r = Some (VStr key) ->
  Forall (fun r' => r_id r' <> Some (VStr key)) after ->
  _pred_key pred = Some key -> key <> [] ->
  exists data,
    build_data (before ++ r :: after) ∅ = Ret data
    /\ matched_row data pred = Some r.
Proof.
  intros Hk Hr Hafter Hkey Hne.
  destruct (build_data_keyed _ ∅ Hk) as [data Hd].
  exists data. split; [exact Hd|].
  unfold matched_row. rewrite Hkey.
  destruct key as [|c key]; [congruence|]. cbn [is_empty].
  rewrite build_data_app in Hd.
  destruct (build_data before ∅) as [data0|e]; cbn [bind] in Hd;
    [|discriminate].
  cbn [build_data] in Hd. rewrite Hr in Hd.
  rewrite (build_data_other _ _ _ _ Hd Hafter). apply lookup_insert_eq.
Qed.

Lemma last_row_with_an_id_is_scored_witness :
  exists data,
    build_data ([sample_row] ++ null_row :: []) ∅ = Ret data
    /\ matched_row data (sample_pred (lit "a") (VInt 7)) = Some null_row.
Proof.
  apply (last_row_with_an_id_is_scored [sample_row] [] null_row
           (sample_pred (lit "a") (VInt 7)) (lit "a")).
  - repeat constructor; eexists; (split; [reflexivity|reflexivity]).
  - reflexivity.
  - constructor.
  - reflexivity.
  - discriminate.
Defined.

Lemma build_data_not_text rows :
  Forall (fun r => exists v, r_id r = Some v /\ not_text v = true) rows ->
  build_data rows ∅ = Ret ∅.
Proof.
  induction 1 as [|r rows (v & Ev & Hv) _ IH]; [reflexivity|].
  cbn [build_data]. rewrite Ev. destruct v; try discriminate; exact IH.
Qed.

Lemma f1_loop_empty preds m fs :
  f1_loop ∅ preds m fs = (m, fs).
Proof.
  induction preds as [|p preds IH]; [reflexivity|].
  cbn [f1_loop]. unfold matched_row.
  destruct (_pred_key p) as [[|c k]|]; simpl; rewrite ?lookup_empty; exact IH.
Qed.

Lemma accuracy_loop_empty question_type knowledge_label history_label preds c :
  accuracy_loop question_type knowledge_label history_label ∅ preds c = Ret c.
Proof.
  induction preds as [|p preds IH]; [reflexivity|].
  cbn [accuracy_loop]. unfold matched_row.
  destruct (_pred_key p) as [[|ch k]|]; simpl; rewrite ?lookup_empty; exact IH.
Qed.

Lemma build_data_stops before r after data :
  Forall keyed before ->
  build_data (before ++ r :: after) data
  = match r_id r with
    | None => Raise KeyError
    | Some (VList _) => Raise TypeError
    | Some _ => build_data (before ++ r :: after) data
    end.
Proof.
  intros H. destruct (r_id r) as [v|] eqn:Er;
    [destruct v; try reflexivity|];
    rewrite build_data_app;
    destruct (build_data_keyed before data H) as (data' & ->);
    cbn [bind build_data]; now rewrite Er.
Qed.

(** X22: the scorer needs an id in every row of the dataset, though the
    runners do not.  Once the question type and the context are found,
    [evaluate] stops at the first row of the dataset that has no [id], or
    has a list for its id, whatever the predictions are and whatever
    follows the row: it raises [KeyError] for the one and [TypeError] for
    the other. *)
Theorem dataset_row_without_id_is_rejected
    (parts : list str) (before after preds : list (gmap str pyval))
    (sample : gmap str pyval) (question_type : question_type)
    (context : str * knowledge_label * str * history_label) :
  require_single_question_type (before ++ sample :: after)
  = Done question_type ->
  infer_context_from_path parts = Done context ->
  Forall (fun s => exists v, s !! lit "id" = Some v /\ hashable v = true)
         before ->
  (sample !! lit "id" = None ->
   Scorer.evaluate parts (before ++ sample :: after) preds
   = Fails (Exn KeyError))
  /\ (forall l, sample !! lit "id" = Some (VList l) ->
      Scorer.evaluate parts (before ++ sample :: after) preds
      = Fails (Exn TypeError)).
Proof.
  intros Hq Hctx Hb.
  assert (Hk : Forall keyed (map Scorer.row_of before)).
  { apply Forall_forall. intros r Hr.
    apply list_elem_of_In, in_map_iff in Hr as (s & <- & Hs).
    rewrite Forall_forall in Hb. apply list_elem_of_In, Hb in Hs.
    exact Hs. }
  assert (E : forall e,
             build_data (map Scorer.row_of (before ++ sample :: after)) ∅
             = Raise e ->
             Scorer.evaluate parts (before ++ sample :: after) preds
             = Fails (Exn e)).
  { intros e He. unfold Scorer.evaluate. rewrite Hq. cbn [and_then].
    rewrite Hctx. cbn [and_then]. destruct context as [[[kk kl] hk] hl].
    unfold evaluate. now rewrite He. }
  split; [intros Hs|intros l Hs]; apply E;
    rewrite map_app; cbn [map];
    rewrite (build_data_stops _ _ _ _ Hk); cbn [Scorer.row_of r_id];
    now rewrite Hs.
Qed.

Lemma dataset_row_without_id_is_rejected_witness :
  Scorer.evaluate example_path
    ([example_row (VStr (lit "a"))]
       ++ delete (lit "id") (example_row VNone)
       :: [example_row (VList [])])
    [example_record (VStr (lit "a"))]
  = Fails (Exn KeyError).
Proof.
  apply (dataset_row_without_id_is_rejected example_path
           [example_row (VStr (lit "a"))] [example_row (VList [])]
           [example_record (VStr (lit "a"))]
           (delete (lit "id") (example_row VNone)) INTERSECTION
           (lit "ki", knowledge_intensive, lit "c", Concise_Response)).
  - vm_compute. reflexivity.
  - vm_compute. reflexivity.
  - repeat constructor. exists (VStr (lit "a")). split; reflexivity.
  - vm_compute. reflexivity.
Defined.

(** X6: the rows are filed under their [id] as it is, and looked up by the
    text of the id of a prediction; so when the ids of the rows are JSON
    numbers, booleans or null, no prediction is matched, whatever its id:
    every prediction is skipped and the score is 0. *)
Theorem rows_without_text_id_match_nothing
    (question_type : question_type) (knowledge_label : knowledge_label)
    (history_label : history_label) (rows : list row)
    (preds : list prediction) :
  Forall (fun r => exists v, r_id r = Some v /\ not_text v = true) rows ->
  exists r,
    evaluate question_type knowledge_label history_label rows preds = Ret r
    /\ matched r = 0%nat /\ skipped r = length preds /\ score r = 0%Q.
Proof.
  intros H. unfold evaluate. rewrite (build_data_not_text rows H). cbn [bind].
  destruct (accuracy_case question_type history_label) eqn:Hacc.
  - eexists. split.
    + destruct question_type, history_label; try discriminate;
        rewrite accuracy_loop_empty; reflexivity.
    + simpl. repeat split. lia.
  - destruct question_type, history_label; try discriminate.
    rewrite f1_loop_empty. eexists. split; [reflexivity|].
    simpl. repeat split. lia.
Qed.

Lemma rows_without_text_id_match_nothing_witness :
  exists r,
    evaluate COUNT_FREQUENCY_TOOL knowledge_intensive Concise_Response
      [{| r_id := Some (VInt 1); r_answer := VInt 7 |}]
      [{| p_id := VInt 1; p_sample_id := VNone; p_round := VNone;
          p_pred_answer := VInt 7; p_pred_intersection := VNone |}]
    = Ret r
    /\ matched r = 0%nat /\ skipped r = 1%nat /\ score r = 0%Q.
Proof.
  apply (rows_without_text_id_match_nothing COUNT_FREQUENCY_TOOL
           knowledge_intensive Concise_Response
           [{| r_id := Some (VInt 1); r_answer := VInt 7 |}]).
  repeat constructor. now exists (VInt 1).
Defined.

(** ** Numbers written as text *)

Lemma digit_val_range c : isdecimal c = true -> 0 <= digit_val c <= 9.
Proof.
  destruct c as [[] [] [] [] [] [] [] []]; vm_compute; intros H;
    first [discriminate H | split; discriminate].
Qed.

Lemma digits_value_range s :
  forallb isdecimal s = true -> 0 <= digits_value s < 10 ^ Z.of_nat (length s).
Proof.
  induction s as [|c s IH] using rev_ind; intros H; [vm_compute; split; congruence|].
  rewrite forallb_app in H. apply andb_true_iff in H as [Hs Hc].
  cbn [forallb] in Hc. rewrite andb_true_r in Hc.
  specialize (IH Hs). pose proof (digit_val_range c Hc).
  rewrite digits_value_snoc, length_app, Nat2Z.inj_add. cbn [length].
  rewrite Z.pow_add_r by lia. change (10 ^ Z.of_nat 1) with 10. lia.
Qed.

Lemma search_here m (s found : str) (len : nat) :
  m s = Some (found, len) -> search m s = Some found.
Proof. intros H. destruct s; simpl; now rewrite H. Qed.

(** A token that ends where the text ends or before a character that
    neither continues the digits nor opens a fraction. *)
Lemma match_number_digits commas fraction (neg : bool) d run rest :
  isdecimal d = true -> forallb (number_body commas) run = true ->
  match rest with
  | [] => True
  | c :: _ => number_body commas c = false /\ eqc c "." = false
  end ->
  let sign := if neg then ["-"%char] else [] in
  match_number commas fraction (sign ++ d :: run ++ rest)
  = Some (sign ++ d :: run, length (sign ++ d :: run)).
Proof.
  intros Hd Hrun Hrest sign.
  assert (Hh : match rest with [] => True | c :: _ => number_body commas c = false end)
    by (destruct rest; [exact I|apply Hrest]).
  destruct (take_while_all (number_body commas) run rest Hrun Hh) as [Ht Hr].
  assert (Hfrac :
            match rest with
            | c :: r1 =>
                if fraction && eqc c "." then
                  match take_while isdecimal r1 with
                  | [] => []
                  | fd => c :: fd
                  end
                else []
            | [] => []
            end = []).
  { destruct rest as [|c r1]; [reflexivity|].
    destruct Hrest as [_ ->]. now rewrite andb_false_r. }
  destruct (decimal_char d Hd) as (Hminus & _).
  unfold match_number. cbv zeta.
  destruct neg; subst sign; cbn [app].
  - change (eqc "-" "-") with true. rewrite Hd. cbn [andb tl].
    rewrite Hd, Ht, Hr, Hfrac, app_nil_r. reflexivity.
  - assert (Hs : match d :: run ++ rest with
                 | c :: d0 :: _ => eqc c "-" && isdecimal d0
                 | _ => false
                 end = false).
    { destruct (run ++ rest); [reflexivity|]. now rewrite Hminus. }
    rewrite Hs. cbn [andb]. rewrite Hd, Ht, Hr, Hfrac, app_nil_r. reflexivity.
Qed.

Lemma int_of_float_text_digits (neg : bool) d ds :
  isdecimal d = true -> forallb isdecimal ds = true ->
  digits_value (d :: ds) <= 2 ^ 53 ->
  int_of_float_text ((if neg then ["-"%char] else []) ++ d :: ds)
  = Ret (if neg then - digits_value (d :: ds) else digits_value (d :: ds)).
Proof.
  intros Hd Hds Hv.
  assert (Hall : forallb isdecimal (d :: ds) = true)
    by (cbn [forallb]; now rewrite Hd, Hds).
  pose proof (digits_value_range _ Hall) as [Hv0 _].
  destruct (take_while_all isdecimal (d :: ds) [] Hall I) as [Ht Hr].
  rewrite app_nil_r in Ht, Hr.
  destruct (decimal_char d Hd) as (Hminus & _).
  unfold int_of_float_text. cbv zeta.
  destruct neg; cbn [app].
  - change (eqc "-" "-") with true. cbn [tl]. rewrite Ht, Hr.
    cbn [length]. change (10 ^ Z.of_nat 0) with 1.
    change (digits_value []) with 0. rewrite Z.add_0_r.
    now rewrite float_trunc_exact.
  - rewrite Hminus, Ht, Hr.
    cbn [length]. change (10 ^ Z.of_nat 0) with 1.
    change (digits_value []) with 0. rewrite Z.add_0_r.
    now rewrite float_trunc_exact.
Qed.

Lemma to_number_digits (neg : bool) d ds rest :
  isdecimal d = true -> forallb isdecimal ds = true ->
  digits_value (d :: ds) <= 2 ^ 53 ->
  match rest with
  | [] => True
  | c :: _ => isdecimal c = false /\ eqc c "." = false
  end ->
  _to_number (VStr ((if neg then ["-"%char] else []) ++ d :: ds ++ rest))
  = Ret (Some (if neg then - digits_value (d :: ds) else digits_value (d :: ds))).
Proof.
  intros Hd Hds Hv Hrest. unfold _to_number. cbn [py_str].
  assert (Hrun : forallb (number_body false) ds = true).
  { eapply forallb_impl; [|exact Hds]. intros c Hc. unfold number_body.
    now rewrite Hc. }
  assert (Hrest' : match rest with
                   | [] => True
                   | c :: _ => number_body false c = false /\ eqc c "." = false
                   end).
  { destruct rest as [|c r]; [exact I|]. destruct Hrest as [H1 H2].
    unfold number_body. now rewrite H1, H2. }
  rewrite (search_here _ _ _ _
             (match_number_digits false true neg d ds rest Hd Hrun Hrest')).
  now rewrite int_of_float_text_digits.
Qed.

Lemma to_number_plain n :
  Z.abs n <= 2 ^ 53 -> _to_number (VStr (str_of_int n)) = Ret (Some n).
Proof.
  intros Hn. rewrite <- plain_is_str. unfold plain.
  destruct (digits_head (Z.abs n) (Z.abs_nonneg n)) as (d & ds & E & Hd & Hds).
  pose proof (digits_value_digits (Z.abs n) (Z.abs_nonneg n)) as Hv.
  rewrite E in Hv |- *.
  pose proof (to_number_digits (n <? 0) d ds [] Hd Hds ltac:(lia) I) as H.
  rewrite app_nil_r in H. unfold sign_of. refine (eq_trans H _).
  rewrite Hv. do 2 f_equal.
  destruct (n <? 0) eqn:En; [apply Z.ltb_lt in En|apply Z.ltb_ge in En]; lia.
Qed.

(** The last group [commas_aux] writes (the leading group of the numeral)
    holds one to three digits. *)
Lemma commas_aux_groups k s :
  forallb isdecimal s = true ->
  ((length s <= k)%nat /\ commas_aux k s = s)
  \/ exists Y g, commas_aux k s = Y ++ ","%char :: g
                 /\ forallb isdecimal g = true
                 /\ (1 <= length g <= 3)%nat.
Proof.
  revert k. induction s as [|c t IH]; intros k H.
  - left. split; [simpl; lia|reflexivity].
  - cbn [forallb] in H. apply andb_true_iff in H as [Hc Ht].
    destruct k as [|k]; cbn [commas_aux].
    + right. destruct (IH 2%nat Ht) as [[Hl ->]|(Y & g & -> & Hg & Hlen)].
      * exists [], (c :: t). split; [reflexivity|]. split.
        -- cbn [forallb]. now rewrite Hc, Ht.
        -- simpl. lia.
      * exists (","%char :: c :: Y), g. auto.
    + destruct (IH k Ht) as [[Hl ->]|(Y & g & -> & Hg & Hlen)].
      * left. split; [simpl; lia|reflexivity].
      * right. exists (c :: Y), g. auto.
Qed.

Lemma group3_leading ds :
  forallb isdecimal ds = true -> (3 < length ds)%nat ->
  exists d g rest,
    group3 ds = d :: g ++ ","%char :: rest
    /\ isdecimal d = true /\ forallb isdecimal g = true
    /\ (length g <= 2)%nat.
Proof.
  intros H Hlen. unfold group3.
  destruct (commas_aux_groups 3 (rev ds)) as [[Hl _]|(Y & g & -> & Hg & Hgl)].
  - now rewrite forallb_rev.
  - rewrite length_rev in Hl. lia.
  - rewrite rev_app_distr. cbn [rev]. rewrite <- app_assoc. cbn [app].
    destruct (rev g) as [|d g'] eqn:E.
    + apply (f_equal (@length _)) in E. rewrite length_rev in E. simpl in E. lia.
    + assert (Hr : forallb isdecimal (d :: g') = true)
        by (rewrite <- E; now rewrite forallb_rev).
      cbn [forallb] in Hr. apply andb_true_iff in Hr as [Hd Hg'].
      exists d, g', (rev Y). split; [reflexivity|]. split; [exact Hd|].
      split; [exact Hg'|].
      apply (f_equal (@length _)) in E. rewrite length_rev in E. simpl in E. lia.
Qed.

Lemma digits_length n : 1000 <= n -> (3 < length (digits n))%nat.
Proof.
  intros Hn.
  pose proof (digits_value_range (digits n) (digits_decimal n ltac:(lia))) as H.
  rewrite digits_value_digits in H by lia.
  destruct (le_lt_dec (length (digits n)) 3) as [Hle|]; [|assumption].
  exfalso.
  assert (10 ^ Z.of_nat (length (digits n)) <= 10 ^ 3)
    by (apply Z.pow_le_mono_r; lia).
  change (10 ^ 3) with 1000 in *. lia.
Qed.

(** X7: the scorer does not read thousands separators, though the
    extractor does: of a ground truth stored as the text of an integer of
    four digits or more with commas, [_to_number] reads the leading group
    only, so the prediction of that very integer scores 0. *)
Theorem ground_truth_with_commas_is_misread
    (question_type : question_type) (knowledge_label : knowledge_label)
    (history_label : history_label) (n : Z) :
  is_number_type question_type = true -> 1000 <= Z.abs n ->
  (exists m, _to_number (VStr (with_commas n)) = Ret (Some m) /\ Z.abs m < 1000)
  /\ sample_score question_type knowledge_label history_label
       (VStr (with_commas n)) (VInt n) = Ret (Some 0%Q).
Proof.
  intros Hq Hn.
  assert (Hm : exists m, _to_number (VStr (with_commas n)) = Ret (Some m)
                         /\ Z.abs m < 1000).
  { unfold with_commas, sign_of.
    destruct (group3_leading (digits (Z.abs n)))
      as (d & g & rest & -> & Hd & Hg & Hlen).
    - apply digits_decimal, Z.abs_nonneg.
    - now apply digits_length.
    - assert (Hall : forallb isdecimal (d :: g) = true)
        by (cbn [forallb]; now rewrite Hd, Hg).
      pose proof (digits_value_range _ Hall) as Hv.
      assert (Hp : 10 ^ Z.of_nat (length (d :: g)) <= 10 ^ 3)
        by (apply Z.pow_le_mono_r; simpl length; lia).
      change (10 ^ 3) with 1000 in Hp.
      pose proof (to_number_digits (n <? 0) d g (","%char :: rest) Hd Hg) as H.
      eexists. split.
      + refine (eq_trans (H _ _) _); [|split; reflexivity|reflexivity].
        assert (1000 <= 2 ^ 53) by (vm_compute; discriminate). lia.
      + destruct (n <? 0); lia. }
  split; [exact Hm|].
  destruct Hm as (m & Em & Hlt).
  unfold sample_score. rewrite Hq, Em. cbn [bind _to_number].
  destruct (n =? m) eqn:E; [|reflexivity].
  apply Z.eqb_eq in E. lia.
Qed.

Lemma ground_truth_with_commas_is_misread_witness :
  with_commas 1234 = lit "1,234"
  /\ sample_score COUNT_FREQUENCY_TOOL knowledge_intensive Concise_Response
       (VStr (with_commas 1234)) (VInt 1234) = Ret (Some 0%Q).
Proof.
  split; [reflexivity|].
  apply (ground_truth_with_commas_is_misread COUNT_FREQUENCY_TOOL
           knowledge_intensive Concise_Response 1234).
  - reflexivity.
  - vm_compute. discriminate.
Defined.

(** ** A response with one answer span *)

Lemma extract_around before body after :
  no_open_tag before -> no_lt body = true -> spanless after ->
  _extract_answer_tag (before ++ span body ++ after)
  = _extract_answer_tag (span body).
Proof.
  intros Hb Hlt Ha. rewrite (extract_span body Hlt).
  unfold span. rewrite <- !app_assoc. rewrite extract_of_findall.
  - rewrite (findall_span before open_tag body close_tag after Hb eq_refl
               (no_lt_no_close_tag body Hlt) eq_refl).
    now rewrite (findall_spanless after Ha).
  - now destruct before.
Qed.

(** The extractors read the raw text through its answer span only. *)
Lemma parse_response_same_span literal_eval question_type history_label t1 t2 :
  t1 <> [] -> t2 <> [] ->
  _extract_answer_tag t1 = _extract_answer_tag t2 ->
  parse_response literal_eval question_type history_label t1
  = parse_response literal_eval question_type history_label t2.
Proof.
  intros H1 H2 E.
  unfold parse_response, parse_number, parse_boolean, parse_pair_list,
    parse_intersection_list, parse_final_guess.
  destruct t1; [congruence|]. destruct t2; [congruence|].
  cbn [is_empty]. now rewrite E.
Qed.

Lemma process_sample_around literal_eval question_type history_label
    id sample_id round before body after :
  no_open_tag before -> no_lt body = true -> spanless after ->
  _process_sample literal_eval question_type history_label id sample_id round
    (before ++ span body ++ after)
  = _process_sample literal_eval question_type history_label id sample_id
      round (span body).
Proof.
  intros Hb Hlt Ha. unfold _process_sample.
  rewrite (parse_response_same_span literal_eval question_type history_label
             (before ++ span body ++ after) (span body)); [reflexivity| | |].
  - now destruct before.
  - discriminate.
  - now apply extract_around.
Qed.

Lemma no_lt_with_commas n : no_lt (with_commas n) = true.
Proof.
  unfold with_commas.
  destruct (digits_head (Z.abs n) (Z.abs_nonneg n)) as (d & ds & E & Hd & Hds).
  rewrite E. destruct (group3_head d ds Hds) as (body & -> & Hbody).
  destruct (decimal_char d Hd) as (_ & _ & Hdlt & _).
  assert (Hb : no_lt body = true).
  { unfold no_lt. eapply forallb_impl; [|exact Hbody]. intros c Hc.
    now destruct (number_body_char c Hc) as [-> _]. }
  unfold no_lt in *. unfold sign_of.
  destruct (n <? 0); cbn [app forallb]; now rewrite Hdlt, Hb.
Qed.

(** X8: for the question types with a numeric answer, a response with one
    answer span (a text that holds no opening tag, the span, and a text
    that holds no span) whose span holds the ground-truth integer (of
    magnitude at most 2^53, plain or with thousands separators) yields a
    record whose [pred_answer] is that integer, and the record scores 1,
    whether the dataset stores the ground truth as a number or as its
    decimal text. *)
Theorem number_answer_scores_one
    (literal_eval : str -> literal)
    (question_type : question_type) (knowledge_label : knowledge_label)
    (history_label : history_label) (id sample_id round : pyval)
    (n : Z) (before answer after : str) (gt : pyval) :
  is_number_type question_type = true -> Z.abs n <= 2 ^ 53 ->
  answer = str_of_int n \/ answer = with_commas n ->
  gt = VInt n \/ gt = VStr (str_of_int n) ->
  no_open_tag before -> spanless after ->
  exists pred,
    _process_sample literal_eval question_type history_label
      id sample_id round (before ++ span answer ++ after) = Ret pred
    /\ p_pred_answer pred = VInt n
    /\ sample_score question_type knowledge_label history_label
         gt (p_pred_answer pred) = Ret (Some 1%Q).
Proof.
  intros Hq Hn Ha Hg Hbefore Hafter.
  assert (Hlt : no_lt answer = true).
  { destruct Ha as [->| ->];
      [rewrite <- plain_is_str; apply no_lt_plain|apply no_lt_with_commas]. }
  rewrite (process_sample_around _ _ _ _ _ _ _ _ _ Hbefore Hlt Hafter).
  assert (Hp : parse_number (span answer) = Ret (Some n)).
  { assert (H0 : numeral_suffix []) by now left.
    destruct Ha as [->| ->].
    - rewrite <- plain_is_str. rewrite <- (app_nil_r (plain n)).
      now apply parse_number_plain.
    - rewrite <- (app_nil_r (with_commas n)).
      now apply parse_number_with_commas. }
  unfold _process_sample, parse_response. rewrite Hq. cbn [fst]. rewrite Hp.
  cbn [pmap bind of_option to_pyval]. eexists. split; [reflexivity|].
  cbn [p_pred_answer]. split; [reflexivity|].
  unfold sample_score. rewrite Hq.
  assert (Hgt : _to_number gt = Ret (Some n)).
  { destruct Hg as [->| ->]; [reflexivity|now apply to_number_plain]. }
  rewrite Hgt. cbn [bind _to_number]. now rewrite Z.eqb_refl.
Qed.

Lemma number_answer_scores_one_witness :
  exists pred,
    _process_sample no_literal COUNT_FREQUENCY_TOOL Concise_Response
      (VStr (lit "a")) VNone VNone
      (lit "I count 1 < 2, so: " ++ span (with_commas 1234567)
       ++ lit " (</answer> ends it).")
    = Ret pred
    /\ p_pred_answer pred = VInt 1234567
    /\ sample_score COUNT_FREQUENCY_TOOL knowledge_intensive Concise_Response
         (VStr (str_of_int 1234567)) (p_pred_answer pred) = Ret (Some 1%Q).
Proof.
  apply (number_answer_scores_one no_literal COUNT_FREQUENCY_TOOL
           knowledge_intensive Concise_Response (VStr (lit "a")) VNone VNone
           1234567 (lit "I count 1 < 2, so: ") (with_commas 1234567)
           (lit " (</answer> ends it).") (VStr (str_of_int 1234567))).
  - reflexivity.
  - vm_compute. discriminate.
  - now right.
  - now right.
  - now apply contains_ci_free_of.
  - left. now apply contains_ci_free_of.
Defined.

(** ** The routing helpers *)

Lemma label_nonempty q : truthy (VStr (label q)) = true.
Proof. now destruct q. Qed.

Lemma question_type_of_label q : question_type_of (label q) = Some q.
Proof. destruct q; vm_compute; reflexivity. Qed.

Lemma question_type_of_inv s q : question_type_of s = Some q -> s = label q.
Proof.
  unfold question_type_of. intros H. apply find_some in H as [_ H].
  now apply bool_decide_eq_true in H.
Qed.

Lemma py_eqb_text s v : py_eqb (VStr s) v = true -> v = VStr s.
Proof.
  destruct v; try discriminate. cbn [py_eqb]. intros H.
  apply bool_decide_eq_true in H. now subst.
Qed.

(** X9: [require_single_question_type] returns a question type exactly
    when some row has it as its [question_type] and every row has it, or
    has no [question_type], or one that is false in a condition (null, an
    empty text, zero); the text of the field is then one of the eight
    known labels. *)
Theorem require_single_question_type_spec
    (rows : list (gmap str pyval)) (q : question_type) :
  require_single_question_type rows = Done q
  <-> (exists row, In row rows /\ get row "question_type" = VStr (label q))
      /\ Forall (fun row => truthy (get row "question_type") = true ->
                            get row "question_type" = VStr (label q)) rows.
Proof.
  unfold require_single_question_type.
  set (values := List.filter truthy
                   (map (fun row => get row "question_type") rows)).
  assert (Hin : forall v, In v values
                          <-> exists row, In row rows
                                          /\ get row "question_type" = v
                                          /\ truthy v = true).
  { intros v. unfold values. rewrite filter_In, in_map_iff. split.
    - intros [(row & E & Hr) Ht]. eauto.
    - intros (row & Hr & E & Ht). eauto. }
  split.
  - intros H.
    destruct (forallb hashable values); cbn [negb] in H; [|discriminate].
    destruct values as [|v rest] eqn:Ev; [discriminate|].
    destruct (forallb (py_eqb v) rest) eqn:Eall;
      [|destruct (sortable (v :: rest)); discriminate].
    destruct v as [| | |s|]; try discriminate.
    destruct (question_type_of s) as [q'|] eqn:Eq; [|discriminate].
    injection H as ->. apply question_type_of_inv in Eq. subst s.
    assert (Hall : forall v, In v (VStr (label q) :: rest) -> v = VStr (label q)).
    { intros v [<-|Hv]; [reflexivity|].
      rewrite forallb_forall in Eall. now apply py_eqb_text, Eall. }
    split.
    + destruct (proj1 (Hin (VStr (label q))) (or_introl eq_refl))
        as (row & Hr & E & _). eauto.
    + apply Forall_forall. intros row Hr Ht. apply list_elem_of_In in Hr.
      apply Hall. apply Hin. eauto.
  - intros [(row & Hr & E) Hall].
    assert (Hvals : forall v, In v values -> v = VStr (label q)).
    { intros v Hv. apply Hin in Hv as (r & Hr' & <- & Ht).
      rewrite Forall_forall in Hall. apply Hall; [|exact Ht].
      now apply list_elem_of_In. }
    assert (Hne : In (VStr (label q)) values).
    { apply Hin. exists row. repeat split; auto. apply label_nonempty. }
    replace (forallb hashable values) with true.
    2:{ symmetry. apply forallb_forall. intros v Hv.
        now rewrite (Hvals v Hv). }
    cbn [negb].
    destruct values as [|v rest]; [destruct Hne|].
    rewrite (Hvals v (or_introl eq_refl)).
    replace (forallb (py_eqb (VStr (label q))) rest) with true.
    2:{ symmetry. apply forallb_forall. intros x Hx.
        rewrite (Hvals x (or_intror Hx)). cbn [py_eqb]. apply str_eqb_refl. }
    now rewrite question_type_of_label.
Qed.

Lemma context_code_inv (part : str) :
  context_code part = true ->
  In part (map fst context_table).
Proof.
  unfold context_code.
  destruct part as [|k [|x [|d [|y [|z r]]]]]; try discriminate.
  intros H. repeat (apply andb_true_iff in H as [H ?]).
  apply eqc_eq in H. subst k.
  match goal with E : eqc d _ = true |- _ => apply eqc_eq in E; subst d end.
  repeat match goal with
         | E : _ || _ = true |- _ => apply orb_true_iff in E as [E|E]
         | E : eqc _ _ = true |- _ => apply eqc_eq in E; subst
         end; cbn; auto.
Qed.

Lemma context_of_cases (part : str) :
  match context_of part with
  | Some context =>
      find context_code [lower part] = Some (lower part)
      /\ infer_context_from_path [part] = Done context
  | None => context_code (lower part) = false
  end.
Proof.
  unfold context_of.
  destruct (context_code (lower part)) eqn:E.
  - unfold infer_context_from_path. cbn [map find]. rewrite E.
    apply context_code_inv in E. cbn [map fst context_table] in E.
    destruct E as [E|[E|[E|[E|[]]]]]; rewrite <- E; vm_compute; auto.
  - destruct (find _ context_table) as [[code context]|] eqn:Ef; [|reflexivity].
    apply find_some in Ef as [Hin Heq]. cbn [fst] in Heq.
    apply bool_decide_eq_true in Heq. rewrite <- Heq in E.
    cbn [context_table] in Hin.
    destruct Hin as [H|[H|[H|[H|[]]]]]; injection H as <- <-; discriminate E.
Qed.

Lemma infer_context_cons part parts :
  infer_context_from_path (part :: parts)
  = match context_of part with
    | Some context => Done context
    | None => infer_context_from_path parts
    end.
Proof.
  pose proof (context_of_cases part) as H.
  destruct (context_of part) as [context|].
  - destruct H as [Hf Hd]. unfold infer_context_from_path in *.
    cbn [map find] in *.
    destruct (context_code (lower part)); [exact Hd|discriminate].
  - unfold infer_context_from_path. cbn [map find]. now rewrite H.
Qed.

(** X10: [infer_context_from_path] decides by the first component of the
    path that spells one of the four codes (ki-c, ki-v, kf-c, kf-v) in any
    letter case, and returns what the code stands for; it raises
    [ValueError] exactly when no component does. *)
Theorem infer_context_takes_first_code (parts : list str) :
  (forall context,
      infer_context_from_path parts = Done context
      <-> exists before part after,
            parts = before ++ part :: after
            /\ Forall (fun p => context_of p = None) before
            /\ context_of part = Some context)
  /\ (forall e,
         infer_context_from_path parts = Fails e
         <-> e = Exn ValueError /\ Forall (fun p => context_of p = None) parts).
Proof.
  induction parts as [|p parts [IH1 IH2]].
  - split.
    + intros context. split; [discriminate|].
      intros (before & part & after & E & _). now destruct before.
    + intros e. split.
      * intros [= <-]. split; [reflexivity|constructor].
      * now intros [-> _].
  - rewrite infer_context_cons.
    destruct (context_of p) as [c|] eqn:Ec.
    + split.
      * intros context. split.
        -- intros [= <-]. exists [], p, parts. repeat split; auto.
        -- intros (before & part & after & E & Hb & Hp).
           destruct before as [|b before]; cbn [app] in E;
             injection E as E1 E2; subst.
           ++ congruence.
           ++ inversion Hb; congruence.
      * intros e. split; [discriminate|].
        intros [_ H]. inversion H; congruence.
    + split.
      * intros context. rewrite IH1. split.
        -- intros (before & part & after & -> & Hb & Hp).
           exists (p :: before), part, after. repeat split; auto.
        -- intros (before & part & after & E & Hb & Hp).
           destruct before as [|b before]; cbn [app] in E;
             injection E as E1 E2; subst.
           ++ congruence.
           ++ inversion Hb; subst. eauto 6.
      * intros e. rewrite IH2. split.
        -- intros [-> H]. split; [reflexivity|now constructor].
        -- intros [-> H]. inversion H; subst. auto.
Qed.

(** ** Windows of rows *)

Lemma slice_rows_window {A} (rows : list A) (offset limit : Z) :
  0 <= offset -> 0 <= limit ->
  slice_rows rows offset (Some limit)
  = take (Z.to_nat limit) (drop (Z.to_nat offset) rows).
Proof.
  intros Ho Hl. unfold slice_rows, slice, slice_index. cbn [option_map].
  set (len := Z.of_nat (length rows)).
  replace (offset <? 0) with false by (symmetry; apply Z.ltb_ge; lia).
  replace (offset + limit <? 0) with false by (symmetry; apply Z.ltb_ge; lia).
  destruct (Z_le_gt_dec len offset) as [Hge|Hlt].
  - rewrite !Z.min_r by lia. rewrite Z.sub_diag.
    rewrite (drop_ge rows (Z.to_nat offset)) by (unfold len in Hge; lia).
    rewrite (drop_ge rows (Z.to_nat len)) by (unfold len; lia).
    now rewrite !take_nil.
  - rewrite (Z.min_l offset) by lia.
    destruct (Z_le_gt_dec (offset + limit) len) as [Hin|Hout].
    + rewrite Z.min_l by lia. f_equal. lia.
    + rewrite Z.min_r by lia.
      rewrite !take_ge; [reflexivity| |];
        rewrite length_drop; unfold len in *; lia.
Qed.

Lemma slice_rows_from {A} (rows : list A) (offset : Z) :
  0 <= offset -> slice_rows rows offset None = drop (Z.to_nat offset) rows.
Proof.
  intros Ho. unfold slice_rows, slice, slice_index. cbn [option_map].
  set (len := Z.of_nat (length rows)).
  replace (offset <? 0) with false by (symmetry; apply Z.ltb_ge; lia).
  destruct (Z_le_gt_dec len offset) as [Hge|Hlt].
  - rewrite Z.min_r by lia. rewrite Z.sub_diag.
    rewrite (drop_ge rows (Z.to_nat offset)) by (unfold len in Hge; lia).
    reflexivity.
  - rewrite Z.min_l by lia. apply take_ge.
    rewrite length_drop. unfold len. lia.
Qed.

(** X11: the windows of a dataset taken with an offset and a limit that are
    not negative tile it: a window followed by the window that starts where
    it ends is the window of both limits, a window followed by the rest is
    the dataset from the offset on, and offset 0 without a limit gives
    every row. *)
Theorem consecutive_windows_tile_the_rows
    {A} (rows : list A) (offset limit limit' : Z) :
  0 <= offset -> 0 <= limit -> 0 <= limit' ->
  slice_rows rows offset (Some limit)
    ++ slice_rows rows (offset + limit) (Some limit')
  = slice_rows rows offset (Some (limit + limit'))
  /\ slice_rows rows offset (Some limit)
       ++ slice_rows rows (offset + limit) None
     = slice_rows rows offset None
  /\ slice_rows rows 0 None = rows.
Proof.
  intros Ho Hl Hl'.
  rewrite !slice_rows_window, !slice_rows_from by lia.
  rewrite !Z2Nat.inj_add by lia.
  rewrite <- !drop_drop. split; [apply take_take_drop|].
  split; [apply take_drop|reflexivity].
Qed.

Lemma consecutive_windows_tile_the_rows_witness :
  slice_rows [1; 2; 3; 4; 5] 1 (Some 2) ++ slice_rows [1; 2; 3; 4; 5] (1 + 2) (Some 9)
  = slice_rows [1; 2; 3; 4; 5] 1 (Some (2 + 9)).
Proof.
  apply (consecutive_windows_tile_the_rows [1; 2; 3; 4; 5] 1 2 9); lia.
Defined.

(** ** Records and the ordered dictionary *)

Lemma get_insert_eq (o : gmap str pyval) (key : string) (v : pyval) :
  get (<[lit key := v]> o) key = v.
Proof. unfold get. now rewrite lookup_insert_eq. Qed.

Lemma get_insert_ne (o : gmap str pyval) (key key' : string) (v : pyval) :
  lit key <> lit key' -> get (<[lit key := v]> o) key' = get o key'.
Proof. intros H. unfold get. f_equal. now apply lookup_insert_ne. Qed.

Lemma get_or_insert_eq (o : gmap str pyval) (key : string) (v d : pyval) :
  get_or (<[lit key := v]> o) key d = v.
Proof. unfold get_or. now rewrite lookup_insert_eq. Qed.

Lemma get_or_insert_ne (o : gmap str pyval) (key key' : string) (v d : pyval) :
  lit key <> lit key' -> get_or (<[lit key := v]> o) key' d = get_or o key' d.
Proof. intros H. unfold get_or. f_equal. now apply lookup_insert_ne. Qed.

Ltac other_key := let E := fresh in intro E; vm_compute in E; discriminate E.

Lemma record_of_id question_type sample pred_value parse_kind raw_content :
  get (record_of question_type sample pred_value parse_kind raw_content) "id"
  = get sample "id".
Proof.
  unfold record_of, copy_key.
  destruct (sample !! lit "j_round"), (sample !! lit "i_round"),
    (sample !! lit "round");
    repeat (rewrite get_insert_ne by other_key);
    apply get_insert_eq.
Qed.

Lemma record_of_response question_type sample pred_value parse_kind raw_content :
  has_response (record_of question_type sample pred_value parse_kind raw_content)
  = nonempty (strip raw_content).
Proof.
  unfold has_response, record_of, copy_key.
  destruct (sample !! lit "j_round"), (sample !! lit "i_round"),
    (sample !! lit "round");
    repeat (rewrite get_or_insert_ne by other_key);
    now rewrite get_or_insert_eq.
Qed.

Lemma od_set_keys {A} key (v : A) d :
  keys (od_set key v d) = if bool_decide (key ∈ keys d) then keys d
                          else keys d ++ [key].
Proof.
  unfold keys. induction d as [|[k x] d IH]; [reflexivity|].
  cbn [od_set]. unfold str_eqb.
  destruct (bool_decide (k = key)) eqn:E.
  - apply bool_decide_eq_true in E. subst k. cbn [map fst].
    rewrite bool_decide_eq_true_2; [reflexivity|left].
  - apply bool_decide_eq_false in E. cbn [map fst] in *. rewrite IH.
    destruct (bool_decide (key ∈ map fst d)) eqn:E2.
    + apply bool_decide_eq_true in E2.
      rewrite bool_decide_eq_true_2; [reflexivity|now right].
    + apply bool_decide_eq_false in E2.
      rewrite bool_decide_eq_false_2; [reflexivity|].
      intros H. apply elem_of_cons in H as [H|H]; congruence.
Qed.

Lemma od_set_Forall {A} (P : str * A -> Prop) key (v : A) d :
  P (key, v) -> Forall P d -> Forall P (od_set key v d).
Proof.
  intros Hv. induction 1 as [|[k x] d Hx Hd IH]; cbn [od_set].
  - now constructor.
  - unfold str_eqb. destruct (bool_decide (k = key)) eqn:E.
    + apply bool_decide_eq_true in E. subst k. now constructor.
    + now constructor.
Qed.

Lemma od_set_key_in {A} key (v : A) d : key ∈ keys (od_set key v d).
Proof.
  rewrite od_set_keys. destruct (bool_decide (key ∈ keys d)) eqn:E.
  - now apply bool_decide_eq_true in E.
  - apply elem_of_app. right. left.
Qed.

Lemma od_set_keys_kept {A} key (v : A) d k :
  k ∈ keys d -> k ∈ keys (od_set key v d).
Proof.
  intros H. rewrite od_set_keys. destruct (bool_decide (key ∈ keys d)); [exact H|].
  apply elem_of_app. now left.
Qed.

(** ** Resuming a run *)

Lemma od_set_NoDup {A} key (v : A) d : NoDup (keys d) -> NoDup (keys (od_set key v d)).
Proof.
  intros H. rewrite od_set_keys. destruct (bool_decide (key ∈ keys d)) eqn:E.
  - exact H.
  - apply bool_decide_eq_false in E. apply NoDup_app. split; [exact H|].
    split; [|apply NoDup_singleton].
    intros x Hx Hx'. apply list_elem_of_singleton in Hx'. now subst.
Qed.

Lemma completed_from_records d acc :
  Forall completes d ->
  exists c, completed_from (map Object (od_values d)) acc = Done c
            /\ (forall key, key ∈ acc -> key ∈ c)
            /\ (forall key, key ∈ keys d -> key ∈ c).
Proof.
  intros H. revert acc. induction H as [|[k o] d (H1 & H2 & H3) _ IH]; intros acc.
  - exists acc. split; [reflexivity|]. split; [auto|]. intros key Hk. inversion Hk.
  - cbn [od_values map snd completed_from]. cbn [fst snd] in *.
    rewrite H1, H3. cbn [negb andb].
    destruct (IH ({[py_str (get o "id")]} ∪ acc)) as (c & E & Ha & Hd).
    exists c. split; [exact E|]. split.
    + intros key Hk. apply Ha. apply elem_of_union. now right.
    + intros key Hk. cbn [keys map fst] in Hk.
      apply elem_of_cons in Hk as [->|Hk]; [|now apply Hd].
      apply Ha. apply elem_of_union. left. rewrite H2. now apply elem_of_singleton.
Qed.

Lemma existing_from_records (l : list (gmap str pyval)) acc :
  exists e, existing_from (map Object l) acc = Done e.
Proof.
  revert acc. induction l as [|o l IH]; intros acc; [now exists acc|].
  cbn [map existing_from]. apply IH.
Qed.

Section Runs.

Variable literal_eval : str -> literal.
Variable respond : nat -> option str.
Variable question_type : question_type.
Variable history_label : history_label.

Lemma process_sample_record_inv sample k record :
  _process_sample_record literal_eval respond question_type history_label
    sample k = Done record ->
  exists raw, respond k = Some raw
              /\ get record "id" = get sample "id"
              /\ has_response record = nonempty (strip raw).
Proof.
  unfold _process_sample_record.
  destruct (respond k) as [raw|]; [|discriminate].
  destruct (parse_response _ _ _ raw) as [pred kind].
  destruct pred as [v|e]; cbn [of_py and_then]; [|discriminate].
  intros [= <-]. exists raw. split; [reflexivity|].
  split; [apply record_of_id|apply record_of_response].
Qed.

Lemma process_completes k pending records out :
  (forall j raw, (k <= j < k + length pending)%nat -> respond j = Some raw ->
                 nonempty (strip raw) = true) ->
  Forall (fun sample => is_none (get sample "id") = false) pending ->
  Forall completes records ->
  process literal_eval respond question_type history_label k pending records
  = Done out ->
  Forall completes out
  /\ (forall key, key ∈ keys records -> key ∈ keys out)
  /\ Forall (fun sample => py_str (get sample "id") ∈ keys out) pending.
Proof.
  revert k records. induction pending as [|sample rest IH];
    intros k records Hresp Hids Hrec Hp.
  - injection Hp as <-. auto.
  - cbn [process] in Hp.
    destruct (_process_sample_record _ _ _ _ sample k) as [record|e] eqn:Er;
      cbn [and_then] in Hp; [|discriminate].
    apply process_sample_record_inv in Er as (raw & Eraw & Eid & Eresp).
    inversion Hids as [|? ? Hid Hrest]; subst.
    rewrite Hid in Hp.
    apply IH in Hp as (Hout & Hkeys & Hpend).
    + split; [exact Hout|]. split.
      * intros key Hk. apply Hkeys. now apply od_set_keys_kept.
      * constructor; [|exact Hpend]. apply Hkeys. apply od_set_key_in.
    + intros j r Hj. apply Hresp. cbn [length]. lia.
    + exact Hrest.
    + apply od_set_Forall; [|exact Hrec].
      unfold completes. cbn [fst snd]. rewrite Eid, Eresp.
      split; [exact Hid|]. split; [reflexivity|].
      apply (Hresp k raw); [cbn [length]; lia|exact Eraw].
Qed.

(** The loop of the pool keeps what holds of the records it found and of
    the record of each call that returns. *)
Lemma gather_keeps (P : str * gmap str pyval -> Prop) pending order records
    w out n :
  (forall k sample record,
      nth_error pending k = Some sample ->
      _process_sample_record literal_eval respond question_type history_label
        sample k = Done record ->
      is_none (get sample "id") = false ->
      P (py_str (get sample "id"), record)) ->
  Forall P records ->
  gather literal_eval respond question_type history_label pending order
    records w = (out, n) ->
  Forall P out.
Proof.
  intros HP. revert records w. induction order as [|k order IH];
    intros records w Hrec Hg; cbn [gather] in Hg.
  - now injection Hg as <- _.
  - destruct (nth_error pending k) as [sample|] eqn:Ek; [|now apply (IH records w)].
    destruct (_process_sample_record _ _ _ _ sample k) as [record|e] eqn:Er;
      [|now apply (IH records w)].
    cbv zeta in Hg. destruct (is_none (get sample "id")) eqn:Hid.
    + now apply (IH records (S w)).
    + apply (IH _ _) in Hg; [exact Hg|].
      apply od_set_Forall; [|exact Hrec]. now apply (HP k sample record).
Qed.

(** It keeps the keys it found, counts the calls that returned, and when
    every call returned it has a record under the id of every row. *)
Lemma gather_keys pending order records w out n :
  gather literal_eval respond question_type history_label pending order
    records w = (out, n) ->
  (forall key, key ∈ keys records -> key ∈ keys out)
  /\ (w <= n <= w + length order)%nat
  /\ (NoDup (keys records) -> NoDup (keys out))
  /\ (n = (w + length order)%nat ->
      Forall (fun k =>
                forall sample,
                  nth_error pending k = Some sample ->
                  is_none (get sample "id") = false ->
                  py_str (get sample "id") ∈ keys out) order).
Proof.
  revert records w. induction order as [|k order IH];
    intros records w Hg; cbn [gather] in Hg.
  - injection Hg as <- <-. cbn [length].
    split; [auto|]. split; [lia|]. split; [auto|]. intros _. constructor.
  - cbn [length].
    destruct (nth_error pending k) as [sample|] eqn:Ek.
    + destruct (_process_sample_record _ _ _ _ sample k) as [record|e] eqn:Er.
      * cbv zeta in Hg. apply IH in Hg as (Hk & Hn & Hd & Hall).
        destruct (is_none (get sample "id")) eqn:Hid.
        -- split; [exact Hk|]. split; [lia|]. split; [exact Hd|].
           intros E. constructor.
           ++ intros s Es. rewrite Ek in Es. injection Es as <-. congruence.
           ++ apply Hall. lia.
        -- split; [|split; [lia|split]].
           ++ intros key Hkey. now apply Hk, od_set_keys_kept.
           ++ intros Hnd. now apply Hd, od_set_NoDup.
           ++ intros E. constructor; [|apply Hall; lia].
              intros s Es _. rewrite Ek in Es. injection Es as <-.
              apply Hk, od_set_key_in.
      * apply IH in Hg as (Hk & Hn & Hd & Hall).
        split; [exact Hk|]. split; [lia|]. split; [exact Hd|]. intros E. lia.
    + apply IH in Hg as (Hk & Hn & Hd & Hall).
      split; [exact Hk|]. split; [lia|]. split; [exact Hd|]. intros E. lia.
Qed.

End Runs.

(** The cases of a run that ends: nothing was pending; or one worker took
    the pending rows in turn; or a pool of workers took them. *)
Lemma run_inv literal_eval respond as_completed parts rows offset limit
    workers resume output n output' :
  run literal_eval respond as_completed parts rows offset limit workers
      resume output = Done (n, output') ->
  exists question_type context existing completed,
    require_single_question_type (slice_rows rows offset limit)
    = Done question_type
    /\ infer_context_from_path parts = Done context
    /\ (if resume then _load_existing_records output else Done [])
       = Done existing
    /\ (if resume then _load_completed_ids output else Done ∅)
       = Done completed
    /\ ((List.filter (is_pending completed) (slice_rows rows offset limit)
         = []
         /\ n = 0%nat /\ output' = output)
        \/ (List.filter (is_pending completed) (slice_rows rows offset limit)
            <> []
            /\ exists out,
                output' = Some (map Object (od_values out))
                /\ ((workers = 1
                     /\ process literal_eval respond question_type
                          (snd context) 0
                          (List.filter (is_pending completed)
                             (slice_rows rows offset limit)) existing
                        = Done out
                     /\ n = length
                             (List.filter (is_pending completed)
                                (slice_rows rows offset limit)))
                    \/ (1 < workers
                        /\ gather literal_eval respond question_type
                             (snd context)
                             (List.filter (is_pending completed)
                                (slice_rows rows offset limit))
                             (as_completed
                                (length
                                   (List.filter (is_pending completed)
                                      (slice_rows rows offset limit))))
                             existing 0
                           = (out, n))))).
Proof.
  unfold run. cbv zeta. intros Hrun.
  destruct (require_single_question_type _) as [q|e];
    cbn [and_then] in Hrun; [|discriminate].
  destruct (infer_context_from_path parts) as [[[[kk kl] hk] hl]|e];
    cbn [and_then] in Hrun; [|discriminate].
  destruct (if resume then _load_existing_records output else Done [])
    as [existing|e]; cbn [and_then] in Hrun; [|discriminate].
  destruct (if resume then _load_completed_ids output else Done ∅)
    as [completed|e]; cbn [and_then] in Hrun; [|discriminate].
  exists q, (kk, kl, hk, hl), existing, completed.
  repeat (split; [reflexivity|]).
  destruct (List.filter (is_pending completed) _) as [|sample rest] eqn:Ep.
  - left. injection Hrun as <- <-. auto.
  - right. split; [discriminate|]. cbn [snd].
    destruct (workers =? 1) eqn:Ew.
    + destruct (process _ _ _ _ _ (sample :: rest) existing) as [out|e] eqn:Eo;
        cbn [and_then] in Hrun; [|discriminate].
      injection Hrun as <- <-. exists out. split; [reflexivity|]. left.
      apply Z.eqb_eq in Ew. auto.
    + destruct (workers <=? 0) eqn:Ew0; [discriminate|].
      destruct (gather _ _ _ _ (sample :: rest) _ existing 0) as [out w] eqn:Eg.
      injection Hrun as <- <-. exists out. split; [reflexivity|]. right.
      apply Z.eqb_neq in Ew. apply Z.leb_gt in Ew0. split; [lia|reflexivity].
Qed.

Lemma is_pending_empty sample : is_pending ∅ sample = true.
Proof.
  unfold is_pending. rewrite bool_decide_eq_false_2; [|apply not_elem_of_empty].
  now rewrite andb_false_r.
Qed.

Lemma filter_all {A} (f : A -> bool) l :
  (forall x, f x = true) -> List.filter f l = l.
Proof.
  intros H. induction l as [|x l IH]; [reflexivity|].
  cbn [List.filter]. now rewrite H, IH.
Qed.

Lemma filter_every {A} (f : A -> bool) l :
  Forall (fun x => f x = true) l -> List.filter f l = l.
Proof.
  induction 1 as [|x l Hx _ IH]; [reflexivity|].
  cbn [List.filter]. now rewrite Hx, IH.
Qed.

Lemma filter_none {A} (f : A -> bool) l :
  Forall (fun x => f x = false) l -> List.filter f l = [].
Proof.
  induction 1 as [|x l Hx _ IH]; [reflexivity|].
  cbn [List.filter]. now rewrite Hx.
Qed.

Lemma existing_from_settled lines records existing :
  Forall settled lines -> Forall completes records ->
  existing_from lines records = Done existing ->
  Forall completes existing.
Proof.
  intros H. revert records. induction H as [|l lines Hl _ IH];
    intros records Hrec He.
  - now injection He as <-.
  - destruct l as [| |obj|]; cbn [existing_from] in He; try discriminate;
      try (now apply (IH records)).
    destruct (is_none (get obj "id")) eqn:Eid; [now apply (IH records)|].
    refine (IH _ _ He). apply od_set_Forall; [|exact Hrec].
    unfold completes. cbn [fst snd]. auto.
Qed.

Lemma completed_within_existing lines completed records c existing :
  (forall key, key ∈ completed -> key ∈ keys records) ->
  completed_from lines completed = Done c ->
  existing_from lines records = Done existing ->
  forall key, key ∈ c -> key ∈ keys existing.
Proof.
  revert completed records. induction lines as [|l lines IH];
    intros completed records Hsub Hc He.
  - injection Hc as <-. injection He as <-. exact Hsub.
  - destruct l as [| |obj|]; cbn [completed_from existing_from] in Hc, He;
      try discriminate; try (now apply (IH completed records)).
    refine (IH _ _ _ Hc He).
    destruct (is_none (get obj "id")) eqn:Eid; cbn [negb andb]; [exact Hsub|].
    intros key Hk.
    destruct (has_response obj).
    + apply elem_of_union in Hk as [Hk|Hk].
      * apply elem_of_singleton in Hk. subst key. apply od_set_key_in.
      * now apply od_set_keys_kept, Hsub.
    + now apply od_set_keys_kept, Hsub.
Qed.

Lemma window_pending (completed : gset str) (window : list (gmap str pyval)) s :
  In s window -> is_pending completed s = true ->
  In s (List.filter (is_pending completed) window).
Proof. intros H1 H2. apply filter_In. now split. Qed.

(** A row that is not pending has its id among the completed ones. *)
Lemma not_pending_completed (completed : gset str) s :
  is_pending completed s = false ->
  py_str (get s "id") ∈ completed.
Proof.
  unfold is_pending. intros H. apply negb_false_iff in H.
  apply andb_true_iff in H as [_ H]. now apply bool_decide_eq_true in H.
Qed.

(** What a run starts from: records that mark their keys as completed, and
    completed ids that are among their keys. *)
Lemma start_settled resume output existing completed :
  resume = false \/ settled_file output ->
  (if resume then _load_existing_records output else Done []) = Done existing ->
  (if resume then _load_completed_ids output else Done ∅) = Done completed ->
  Forall completes existing
  /\ forall key, key ∈ completed -> key ∈ keys existing.
Proof.
  intros Hfresh He Hc. destruct resume.
  - destruct Hfresh as [Hf|Hf]; [discriminate|].
    destruct output as [lines|]; cbn in He, Hc, Hf.
    + split.
      * apply (existing_from_settled lines [] existing Hf (List.Forall_nil _) He).
      * apply (completed_within_existing lines ∅ [] completed existing);
          auto. intros key Hk. now apply not_elem_of_empty in Hk.
    + injection He as <-. injection Hc as <-. split; [constructor|].
      intros key Hk. now apply not_elem_of_empty in Hk.
  - injection He as <-. injection Hc as <-. split; [constructor|].
    intros key Hk. now apply not_elem_of_empty in Hk.
Qed.

(** When every call of a pool returned, every pending row has its record. *)
Lemma gather_all literal_eval respond question_type history_label
    (as_completed : nat -> list nat) pending records out :
  complete_once as_completed ->
  gather literal_eval respond question_type history_label pending
    (as_completed (length pending)) records 0 = (out, length pending) ->
  Forall (fun sample => is_none (get sample "id") = false ->
                        py_str (get sample "id") ∈ keys out) pending.
Proof.
  intros Hperm Hg.
  pose proof (Permutation_length (Hperm (length pending))) as Hlen.
  rewrite length_seq in Hlen.
  apply gather_keys in Hg as (_ & _ & _ & Hall).
  specialize (Hall ltac:(lia)).
  apply Forall_forall. intros s Hs Hid.
  apply list_elem_of_In, In_nth_error in Hs as [k Hk].
  rewrite Forall_forall in Hall. apply (Hall k); [|exact Hk|exact Hid].
  apply list_elem_of_In.
  apply (Permutation_in _ (Permutation_sym (Hperm (length pending)))).
  apply in_seq. split; [lia|]. cbn [Nat.add].
  apply nth_error_Some. congruence.
Qed.

(** X12: a run that is resumed after it has ended has nothing to do.  When
    every row of the window has an id and no response of the run was blank,
    the run started afresh or from a file whose records with an id all
    have a response, and it had one worker, or a pool of workers and
    returned the number of rows of the window (no call of it failed), a
    resumed run on the file it leaves calls the model for no row, returns
    0 and leaves the file as it is, whatever its workers. *)
Theorem resumed_run_has_nothing_to_do
    (literal_eval : str -> literal) (respond respond' : nat -> option str)
    (as_completed as_completed' : nat -> list nat)
    (parts : list str) (rows : list (gmap str pyval))
    (offset : Z) (limit : option Z) (workers workers' : Z) (resume : bool)
    (output output' : file) (n : nat) :
  resume = false \/ settled_file output ->
  Forall (fun sample => is_none (get sample "id") = false)
         (slice_rows rows offset limit) ->
  (forall k raw, (k < n)%nat -> respond k = Some raw ->
                 nonempty (strip raw) = true) ->
  workers = 1
  \/ (complete_once as_completed
      /\ n = length (slice_rows rows offset limit)) ->
  run literal_eval respond as_completed parts rows offset limit workers
      resume output = Done (n, output') ->
  run literal_eval respond' as_completed' parts rows offset limit workers'
      true output' = Done (0%nat, output').
Proof.
  intros Hfresh Hids Hresp Hw Hrun.
  apply run_inv in Hrun
    as (q & [[[kk kl] hk] hl] & existing & completed & Eq & Ectx & He & Hc
        & Hcases).
  destruct (start_settled _ _ _ _ Hfresh He Hc) as [Hgood Hsub].
  unfold run. cbv zeta. rewrite Eq, Ectx. cbn [and_then snd] in *.
  set (rows' := slice_rows rows offset limit) in *.
  set (pending := List.filter (is_pending completed) rows') in *.
  destruct Hcases as [(Ep & -> & ->)|(Hne & out & -> & Hout)].
  - (* nothing was pending: the run was a resumed one *)
    destruct resume.
    + rewrite He, Hc. cbn [and_then]. fold pending. now rewrite Ep.
    + injection Hc as <-. unfold pending in Ep.
      rewrite (filter_all _ _ is_pending_empty) in Ep.
      rewrite Ep in Eq. discriminate Eq.
  - assert (Hpids : Forall (fun s => is_none (get s "id") = false) pending).
    { apply Forall_forall. intros s Hs. rewrite Forall_forall in Hids.
      apply Hids. apply list_elem_of_In. apply list_elem_of_In in Hs.
      apply filter_In in Hs. tauto. }
    assert (Hfacts : Forall completes out
                     /\ (forall key, key ∈ keys existing -> key ∈ keys out)
                     /\ Forall (fun s => py_str (get s "id") ∈ keys out)
                               pending).
    { destruct Hout as [(_ & Eo & ->)|(Hpool & Eg)].
      - apply process_completes in Eo as (H1 & H2 & H3); auto.
        intros j raw Hj. apply Hresp. lia.
      - destruct Hw as [->|[Hperm ->]]; [lia|].
        pose proof (filter_length_le (is_pending completed) rows') as Hle.
        fold pending in Hle.
        pose proof (Permutation_length (Hperm (length pending))) as Hlen.
        rewrite length_seq in Hlen.
        pose proof (gather_keys _ _ _ _ _ _ _ _ _ _ Eg) as (Hk & Hn & _ & _).
        cbn [Nat.add] in Hn. fold rows' in Hn, Eg, Hresp.
        assert (El : length rows' = length pending) by lia.
        rewrite El in Eg.
        split; [|split; [exact Hk|]].
        + eapply gather_keeps; [|exact Hgood|exact Eg].
          intros k s record Hk' Er Hid.
          apply process_sample_record_inv in Er as (raw & Eraw & Eid & Eresp).
          unfold completes. cbn [fst snd]. rewrite Eid, Eresp.
          split; [exact Hid|]. split; [reflexivity|].
          apply (Hresp k raw); [|exact Eraw].
          rewrite El. apply nth_error_Some. congruence.
        + pose proof (gather_all _ _ _ _ _ _ _ _ Hperm Eg) as Hall.
          apply Forall_forall. intros s Hs.
          rewrite Forall_forall in Hall, Hpids. now apply Hall, Hpids. }
    destruct Hfacts as (Hout' & Hkept & Hpend).
    cbn [_load_existing_records _load_completed_ids].
    destruct (existing_from_records (od_values out) []) as [e' ->].
    destruct (completed_from_records out ∅ Hout') as (c & -> & _ & Hc').
    cbn [and_then].
    rewrite filter_none; [reflexivity|].
    apply Forall_forall. intros s Hs.
    rewrite Forall_forall in Hids, Hpend.
    unfold is_pending at 1. rewrite (Hids s Hs). cbn [negb andb].
    rewrite bool_decide_eq_true_2; [reflexivity|].
    apply Hc'.
    destruct (is_pending completed s) eqn:Es.
    + apply Hpend. apply list_elem_of_In, window_pending;
        [now apply list_elem_of_In|exact Es].
    + apply Hkept, Hsub. now apply not_pending_completed.
Qed.

Lemma resumed_run_has_nothing_to_do_witness :
  run no_literal example_reply last_first example_path
      [example_row (VStr (lit "a")); example_row (VStr (lit "b"))]
      0 None 1 true
      (Some [Object (example_record (VStr (lit "b")));
             Object (example_record (VStr (lit "a")))])
  = Done (0%nat, Some [Object (example_record (VStr (lit "b")));
                       Object (example_record (VStr (lit "a")))]).
Proof.
  apply (resumed_run_has_nothing_to_do no_literal example_reply example_reply
           last_first last_first
           example_path
           [example_row (VStr (lit "a")); example_row (VStr (lit "b"))]
           0 None 4 1 false None
           (Some [Object (example_record (VStr (lit "b")));
                  Object (example_record (VStr (lit "a")))]) 2).
  - now left.
  - repeat constructor.
  - intros k raw _ [= <-]. reflexivity.
  - right. split; [|reflexivity].
    intros n. apply Permutation_sym, Permutation_rev.
  - vm_compute. reflexivity.
Defined.

(** ** Rows without an id *)

Lemma process_without_ids literal_eval respond question_type history_label
    k pending records out :
  Forall (fun sample => is_none (get sample "id") = true) pending ->
  process literal_eval respond question_type history_label k pending records
  = Done out ->
  out = records.
Proof.
  revert k. induction pending as [|sample rest IH]; intros k Hids Hp.
  - now injection Hp as <-.
  - inversion Hids as [|? ? Hid Hrest]; subst. cbn [process] in Hp.
    destruct (_process_sample_record _ _ _ _ sample k) as [record|e];
      cbn [and_then] in Hp; [|discriminate].
    rewrite Hid in Hp. now apply (IH (S k)).
Qed.

Lemma gather_without_ids literal_eval respond question_type history_label
    pending order records w out n :
  Forall (fun sample => is_none (get sample "id") = true) pending ->
  gather literal_eval respond question_type history_label pending order
    records w = (out, n) ->
  out = records.
Proof.
  intros Hids. revert w. induction order as [|k order IH]; intros w Hg;
    cbn [gather] in Hg.
  - now injection Hg as <- _.
  - destruct (nth_error pending k) as [sample|] eqn:Ek; [|now apply (IH w)].
    destruct (_process_sample_record _ _ _ _ sample k) as [record|e];
      [|now apply (IH w)].
    cbv zeta in Hg. apply nth_error_In in Ek.
    rewrite Forall_forall in Hids. rewrite (Hids sample) in Hg
      by now apply list_elem_of_In.
    now apply (IH (S w)).
Qed.

(** X13: the runner calls the model for a row without an id but stores no
    record for it: when no row of the window has an id, a run that ends
    leaves in the file the records it found there and nothing else.  With
    one worker it returns the number of rows of the window; with a pool
    of workers it returns the number of calls that returned, at most the
    number of rows. *)
Theorem rows_without_id_are_not_stored
    (literal_eval : str -> literal) (respond : nat -> option str)
    (as_completed : nat -> list nat)
    (parts : list str) (rows : list (gmap str pyval))
    (offset : Z) (limit : option Z) (workers : Z) (resume : bool)
    (output output' : file) (n : nat) :
  Forall (fun sample => is_none (get sample "id") = true)
         (slice_rows rows offset limit) ->
  complete_once as_completed ->
  run literal_eval respond as_completed parts rows offset limit workers
      resume output = Done (n, output') ->
  (n <= length (slice_rows rows offset limit))%nat
  /\ (workers = 1 -> n = length (slice_rows rows offset limit))
  /\ (0 < length (slice_rows rows offset limit))%nat
  /\ exists existing_records,
       (if resume then _load_existing_records output else Done [])
       = Done existing_records
       /\ output' = Some (map Object (od_values existing_records)).
Proof.
  intros Hids Hperm Hrun.
  apply run_inv in Hrun
    as (q & [[[kk kl] hk] hl] & existing & completed & Eq & Ectx & He & Hc
        & Hcases).
  set (rows' := slice_rows rows offset limit) in *.
  assert (Hp : List.filter (is_pending completed) rows' = rows').
  { apply filter_every. eapply Forall_impl; [exact Hids|]. cbn beta.
    intros s Hs. unfold is_pending. now rewrite Hs. }
  rewrite Hp in Hcases. cbn [snd] in Hcases.
  assert (Hpos : (0 < length rows')%nat).
  { destruct rows'; [discriminate Eq|cbn [length]; lia]. }
  destruct Hcases as [(E & _)|(_ & out & -> & Hout)].
  { rewrite E in Eq. discriminate Eq. }
  destruct Hout as [(Hw & Eo & ->)|(Hw & Eg)].
  - apply process_without_ids in Eo; [|exact Hids]. subst out.
    split; [lia|]. split; [auto|]. split; [exact Hpos|]. now exists existing.
  - pose proof (gather_keys _ _ _ _ _ _ _ _ _ _ Eg) as (_ & Hn & _ & _).
    pose proof (Permutation_length (Hperm (length rows'))) as Hlen.
    rewrite length_seq in Hlen.
    apply gather_without_ids in Eg; [|exact Hids]. subst out.
    split; [lia|]. split; [lia|]. split; [exact Hpos|]. now exists existing.
Qed.

Lemma rows_without_id_are_not_stored_witness :
  run no_literal example_reply last_first example_path [example_row VNone]
      0 None 2 true None
  = Done (1%nat, Some [])
  /\ (1 <= length (slice_rows [example_row VNone] 0 None))%nat.
Proof.
  assert (H : run no_literal example_reply last_first example_path
                  [example_row VNone] 0 None 2 true None
              = Done (1%nat, Some []))
    by (vm_compute; reflexivity).
  split; [exact H|].
  refine (proj1 (rows_without_id_are_not_stored _ _ _ _ _ _ _ _ _ _ _ _
                   _ _ H)).
  - repeat constructor.
  - intros n. apply Permutation_sym, Permutation_rev.
Defined.

(** ** What a run leaves in the file *)

Lemma existing_from_filed lines records existing :
  Forall filed records -> NoDup (keys records) ->
  existing_from lines records = Done existing ->
  Forall filed existing /\ NoDup (keys existing).
Proof.
  revert records. induction lines as [|l lines IH]; intros records Hf Hn He.
  - injection He as <-. now split.
  - destruct l as [| |obj|]; cbn [existing_from] in He; try discriminate;
      try (now apply (IH records)).
    destruct (is_none (get obj "id")) eqn:Eid; [now apply (IH records)|].
    refine (IH _ _ _ He); [|now apply od_set_NoDup].
    apply od_set_Forall; [|exact Hf]. now split.
Qed.

Lemma process_filed literal_eval respond question_type history_label
    k pending records out :
  Forall filed records -> NoDup (keys records) ->
  process literal_eval respond question_type history_label k pending records
  = Done out ->
  Forall filed out /\ NoDup (keys out)
  /\ (forall key, key ∈ keys records -> key ∈ keys out)
  /\ Forall (fun sample => is_none (get sample "id") = false ->
                            py_str (get sample "id") ∈ keys out) pending.
Proof.
  revert k records. induction pending as [|sample rest IH];
    intros k records Hf Hn Hp.
  - injection Hp as <-. auto.
  - cbn [process] in Hp.
    destruct (_process_sample_record _ _ _ _ sample k) as [record|e] eqn:Er;
      cbn [and_then] in Hp; [|discriminate].
    apply process_sample_record_inv in Er as (raw & _ & Eid & _).
    destruct (is_none (get sample "id")) eqn:Hid.
    + apply IH in Hp as (H1 & H2 & H3 & H4); auto.
      repeat split; auto. constructor; [intros H; congruence|exact H4].
    + apply IH in Hp as (H1 & H2 & H3 & H4).
      * repeat split; auto.
        -- intros key Hk. now apply H3, od_set_keys_kept.
        -- constructor; [|exact H4]. intros _. apply H3, od_set_key_in.
      * apply od_set_Forall; [|exact Hf]. split; cbn [fst snd]; congruence.
      * now apply od_set_NoDup.
Qed.

Lemma filed_keys d :
  Forall filed d ->
  map (fun r => py_str (get r "id")) (od_values d) = keys d.
Proof.
  unfold od_values, keys.
  induction 1 as [|[k o] d [_ Hk] _ IH]; [reflexivity|].
  cbn [map fst snd] in *. now rewrite Hk, IH.
Qed.

(** X14: the file a run writes holds JSON objects only, each with an id,
    no two with the same id (as text).  When the run had one worker, or a
    pool of workers and returned the number of rows of the window (no
    call of it failed), the file holds a record for every row of the
    window that has an id. *)
Theorem run_output_holds_one_record_per_id
    (literal_eval : str -> literal) (respond : nat -> option str)
    (as_completed : nat -> list nat)
    (parts : list str) (rows : list (gmap str pyval))
    (offset : Z) (limit : option Z) (workers : Z) (resume : bool)
    (output output' : file) (n : nat) :
  run literal_eval respond as_completed parts rows offset limit workers
      resume output = Done (n, output') ->
  (0 < n)%nat ->
  exists records,
    output' = Some (map Object records)
    /\ Forall (fun r => is_none (get r "id") = false) records
    /\ NoDup (map (fun r => py_str (get r "id")) records)
    /\ (workers = 1
        \/ (complete_once as_completed
            /\ n = length (slice_rows rows offset limit)) ->
        Forall (fun sample =>
                  is_none (get sample "id") = false ->
                  exists r, In r records
                            /\ py_str (get r "id") = py_str (get sample "id"))
               (slice_rows rows offset limit)).
Proof.
  intros Hrun Hn.
  apply run_inv in Hrun
    as (q & [[[kk kl] hk] hl] & existing & completed & Eq & Ectx & He & Hc
        & Hcases).
  set (rows' := slice_rows rows offset limit) in *.
  set (pending := List.filter (is_pending completed) rows') in *.
  cbn [snd] in Hcases.
  assert (Hex : Forall filed existing /\ NoDup (keys existing)
                /\ forall key, key ∈ completed -> key ∈ keys existing).
  { assert (H0 : forall key : str, key ∈ (∅ : gset str) -> key ∈ keys (@nil (str * gmap str pyval)))
      by (intros key Hk; now apply not_elem_of_empty in Hk).
    destruct resume; [destruct output as [lines|]; cbn in He, Hc|].
    - destruct (existing_from_filed lines [] existing) as [H1 H2];
        [constructor|constructor|exact He|].
      split; [exact H1|]. split; [exact H2|].
      now apply (completed_within_existing lines ∅ [] completed existing).
    - injection He as <-. injection Hc as <-.
      split; [constructor|]. split; [constructor|exact H0].
    - injection He as <-. injection Hc as <-.
      split; [constructor|]. split; [constructor|exact H0]. }
  destruct Hex as (Hfiled & Hnodup & Hsub).
  destruct Hcases as [(_ & -> & _)|(_ & out & -> & Hout)]; [lia|].
  assert (Hfacts : Forall filed out /\ NoDup (keys out)
                   /\ (forall key, key ∈ keys existing -> key ∈ keys out)
                   /\ (workers = 1
                       \/ (complete_once as_completed /\ n = length rows') ->
                       Forall (fun sample =>
                                 is_none (get sample "id") = false ->
                                 py_str (get sample "id") ∈ keys out)
                              pending)).
  { destruct Hout as [(Hw & Eo & ->)|(Hw & Eg)].
    - apply process_filed in Eo as (Hf & Hnd & Hkept & Hpend); auto.
    - pose proof (gather_keys _ _ _ _ _ _ _ _ _ _ Eg) as (Hk & Hb & Hd & _).
      split; [|split; [auto|split; [exact Hk|]]].
      + eapply gather_keeps; [|exact Hfiled|exact Eg].
        intros k s record _ Er Hid.
        apply process_sample_record_inv in Er as (raw & _ & Eid & _).
        split; cbn [fst snd]; congruence.
      + intros [->|[Hperm ->]]; [lia|].
        pose proof (filter_length_le (is_pending completed) rows') as Hle.
        fold pending in Hle.
        pose proof (Permutation_length (Hperm (length pending))) as Hlen.
        rewrite length_seq in Hlen. cbn [Nat.add] in Hb.
        assert (El : length rows' = length pending) by lia.
        rewrite El in Eg. exact (gather_all _ _ _ _ _ _ _ _ Hperm Eg). }
  destruct Hfacts as (Hf & Hnd & Hkept & Hpend).
  exists (od_values out). split; [reflexivity|]. split; [|split].
  - clear -Hf. induction Hf as [|[k o] d [H _] _ IH]; constructor; auto.
  - now rewrite filed_keys.
  - intros Hw. specialize (Hpend Hw).
    apply Forall_forall. intros s Hs Hid.
    assert (Hkey : py_str (get s "id") ∈ keys out).
    { destruct (is_pending completed s) eqn:Es.
      - rewrite Forall_forall in Hpend. apply Hpend; [|exact Hid].
        apply list_elem_of_In, window_pending;
          [now apply list_elem_of_In|exact Es].
      - apply Hkept, Hsub. now apply not_pending_completed. }
    rewrite <- (filed_keys out) in Hkey by exact Hf.
    apply list_elem_of_In, in_map_iff in Hkey as (r & Hr & Hin). eauto.
Qed.

Lemma run_output_holds_one_record_per_id_witness :
  exists records,
    Some [Object (example_record (VStr (lit "b")));
          Object (example_record (VStr (lit "a")))]
    = Some (map Object records)
    /\ Forall (fun r => is_none (get r "id") = false) records
    /\ NoDup (map (fun r => py_str (get r "id")) records)
    /\ (3 = 1
        \/ (complete_once last_first
            /\ 2%nat
               = length (slice_rows [example_row (VStr (lit "a"));
                                     example_row (VStr (lit "b"))] 0 None)) ->
        Forall (fun sample =>
                  is_none (get sample "id") = false ->
                  exists r, In r records
                            /\ py_str (get r "id") = py_str (get sample "id"))
               (slice_rows [example_row (VStr (lit "a"));
                            example_row (VStr (lit "b"))] 0 None)).
Proof.
  apply (run_output_holds_one_record_per_id no_literal example_reply
           last_first example_path
           [example_row (VStr (lit "a")); example_row (VStr (lit "b"))]
           0 None 3 false None
           (Some [Object (example_record (VStr (lit "b")));
                  Object (example_record (VStr (lit "a")))]) 2).
  - vm_compute. reflexivity.
  - lia.
Defined.

(** ** Numbers beyond the range of binary64 *)

Lemma pow_1024_pos : 0 < 2 ^ 1024.
Proof. reflexivity. Qed.

Lemma round_half_even_lower num den : num / den <= round_half_even num den.
Proof.
  unfold round_half_even. cbv zeta.
  repeat match goal with |- context [if ?b then _ else _] => destruct b end; lia.
Qed.

Lemma float_trunc_overflow p :
  2 ^ 1024 <= p -> float_trunc p 1 = Raise OverflowError.
Proof.
  intros Hp.
  assert (H0 : 0 < p) by (pose proof pow_1024_pos; lia).
  pose proof (Z.log2_spec p H0) as [Hlo _].
  assert (Hlog : 1024 <= Z.log2 p) by (apply Z.log2_le_pow2; lia).
  unfold float_trunc. replace (p =? 0) with false by (symmetry; apply Z.eqb_neq; lia).
  unfold float_exponent. cbv zeta. change (Z.log2 1) with 0.
  replace (52 + (Z.log2 p - 0 - 52)) with (Z.log2 p) by lia.
  unfold below_pow2.
  replace (0 <=? Z.log2 p) with true by (symmetry; apply Z.leb_le; lia).
  replace (p <? 1 * 2 ^ Z.log2 p) with false
    by (symmetry; apply Z.ltb_ge; lia).
  rewrite Z.max_l by lia.
  set (e := Z.log2 p - 0 - 52).
  unfold float_trunc_at.
  replace (0 <=? e) with true by (symmetry; apply Z.leb_le; unfold e; lia).
  cbv zeta.
  assert (He : 0 < 2 ^ e) by (apply Z.pow_pos_nonneg; unfold e; lia).
  assert (Hpow : 2 ^ Z.log2 p = 2 ^ 52 * 2 ^ e).
  { rewrite <- Z.pow_add_r by (unfold e; lia). f_equal. unfold e. lia. }
  assert (Hdiv : 2 ^ 52 <= p / (1 * 2 ^ e)).
  { rewrite Z.mul_1_l. apply Z.div_le_lower_bound; [exact He|]. lia. }
  pose proof (round_half_even_lower p (1 * 2 ^ e)) as Hr.
  assert (Hbig : 2 ^ 1024 <= round_half_even p (1 * 2 ^ e) * 2 ^ e).
  { apply Z.le_trans with (2 ^ Z.log2 p).
    - apply Z.pow_le_mono_r; lia.
    - rewrite Hpow. apply Z.mul_le_mono_nonneg_r; lia. }
  apply Z.leb_le in Hbig. now rewrite Hbig.
Qed.

Lemma int_of_float_text_overflow n :
  2 ^ 1024 <= n -> int_of_float_text (digits n) = Raise OverflowError.
Proof.
  intros Hn.
  assert (H0 : 0 <= n) by (pose proof pow_1024_pos; lia).
  destruct (digits_head n H0) as (d & ds & E & Hd & Hds).
  pose proof (digits_value_digits n H0) as Hv.
  rewrite E in Hv |- *.
  assert (Hall : forallb isdecimal (d :: ds) = true)
    by (cbn [forallb]; now rewrite Hd, Hds).
  destruct (take_while_all isdecimal (d :: ds) [] Hall I) as [Ht Hr].
  rewrite app_nil_r in Ht, Hr.
  destruct (decimal_char d Hd) as (Hminus & _).
  unfold int_of_float_text. cbv zeta.
  rewrite Hminus, Ht, Hr.
  cbn [length]. change (10 ^ Z.of_nat 0) with 1.
  change (digits_value []) with 0. rewrite Z.add_0_r, Z.mul_1_r, Hv.
  now rewrite float_trunc_overflow.
Qed.

(** X15: the extractor and the scorer raise on a number too large for a
    float: for an integer from 2^1024 on, written in full, [parse_number]
    and so [_process_sample] raise [OverflowError] on a response that
    holds it in its answer span, and [_to_number] raises it on its text. *)
Theorem number_beyond_float_range_raises
    (literal_eval : str -> literal) (question_type : question_type)
    (history_label : history_label) (id sample_id round : pyval) (n : Z) :
  is_number_type question_type = true -> 2 ^ 1024 <= n ->
  parse_number (span (str_of_int n)) = Raise OverflowError
  /\ _process_sample literal_eval question_type history_label
       id sample_id round (span (str_of_int n)) = Raise OverflowError
  /\ _to_number (VStr (str_of_int n)) = Raise OverflowError.
Proof.
  intros Hq Hn.
  assert (H0 : 0 <= n) by (pose proof pow_1024_pos; lia).
  assert (Hs : str_of_int n = digits n).
  { unfold str_of_int. now replace (n <? 0) with false
      by (symmetry; apply Z.ltb_ge; lia). }
  destruct (digits_head n H0) as (d & ds & E & Hd & Hds).
  assert (Hall : forallb isdecimal (digits n) = true) by now apply digits_decimal.
  assert (Hlt : no_lt (digits n) = true).
  { unfold no_lt. eapply forallb_impl; [|exact Hall].
    intros c Hc. now destruct (decimal_char c Hc) as (_ & _ & -> & _). }
  assert (Hsp : forallb (fun c => negb (isspace c)) (digits n) = true).
  { eapply forallb_impl; [|exact Hall].
    intros c Hc. now destruct (decimal_char c Hc) as (_ & _ & _ & ->). }
  assert (Hover : int_of_float_text (digits n) = Raise OverflowError)
    by now apply int_of_float_text_overflow.
  assert (Hp : parse_number (span (digits n)) = Raise OverflowError).
  { assert (Hrun : forallb (number_body true) ds = true).
    { eapply forallb_impl; [|exact Hds]. intros c Hc. unfold number_body.
      now rewrite Hc. }
    pose proof (match_number_digits true true false d ds [] Hd Hrun I) as Hm.
    cbv zeta in Hm. cbn [app] in Hm. rewrite app_nil_r, <- E in Hm.
    unfold parse_number.
    change (is_empty (span (digits n))) with false. cbv iota.
    rewrite (extract_span _ Hlt), (strip_solid _ Hsp).
    rewrite (findall_whole _ (digits n)); [|rewrite E; discriminate|exact Hm].
    cbn [rev app first_convertible]. unfold int_of_token.
    rewrite (remove_char_decimal _ Hall). now rewrite Hover. }
  rewrite Hs. split; [exact Hp|]. split.
  - unfold _process_sample, parse_response. rewrite Hq. cbn [fst].
    now rewrite Hp.
  - unfold _to_number. cbn [py_str].
    assert (Hrun : forallb (number_body false) ds = true).
    { eapply forallb_impl; [|exact Hds]. intros c Hc. unfold number_body.
      now rewrite Hc. }
    pose proof (match_number_digits false true false d ds [] Hd Hrun I) as Hm.
    cbv zeta in Hm. cbn [app] in Hm. rewrite app_nil_r, <- E in Hm.
    rewrite (search_here _ _ _ _ Hm). now rewrite Hover.
Qed.

Lemma number_beyond_float_range_raises_witness :
  parse_number (span (str_of_int (2 ^ 1024))) = Raise OverflowError.
Proof.
  refine (proj1 (number_beyond_float_range_raises no_literal COUNT_FREQUENCY_TOOL
                   Concise_Response VNone VNone VNone (2 ^ 1024) _ _)).
  - reflexivity.
  - apply Z.le_refl.
Defined.

(** ** A pair of names in the format the prompt asks for *)

Lemma word_char c :
  isword c = true ->
  isspace c = false /\ eqc c "<" = false /\ eqc c "," = false
  /\ is_list_sep c = false /\ eqc c "[" = false.
Proof.
  destruct c as [[] [] [] [] [] [] [] []]; vm_compute; intros H;
    first [discriminate H | repeat split].
Qed.

Lemma and_letter c :
  eqc_ci "a" c || eqc_ci "n" c || eqc_ci "d" c = true -> isword c = true.
Proof.
  destruct c as [[] [] [] [] [] [] [] []]; vm_compute; intros H;
    first [discriminate H | reflexivity].
Qed.

Lemma eqc_ci_lower p c : eqc_ci p c = true -> lower_char c = p.
Proof. unfold eqc_ci. intros H. apply eqc_eq in H. now symmetry. Qed.

Lemma startswith_ci_and s :
  startswith_ci (lit "and") s = true ->
  exists a n d s', s = a :: n :: d :: s' /\ eqc_ci "a" a = true
                   /\ eqc_ci "n" n = true /\ eqc_ci "d" d = true.
Proof.
  destruct s as [|a [|n [|d s']]]; cbn [lit list_ascii_of_string startswith_ci];
    intros H; repeat (apply andb_true_iff in H as [? H]); try discriminate.
  exists a, n, d, s'. auto.
Qed.

(** No "and" is found where a word other than "and" starts. *)
Lemma and_at_word prev w rest :
  forallb isword w = true -> lower w <> lit "and" ->
  match rest with [] => True | c :: _ => isword c = false end ->
  and_at prev (w ++ rest) = false.
Proof.
  intros Hw Hne Hrest. unfold and_at.
  destruct (startswith_ci (lit "and") (w ++ rest)) eqn:Es;
    [|now rewrite andb_false_r].
  apply startswith_ci_and in Es as (a & n & d & s' & E & Ea & En & Ed).
  assert (Hl : forall c, eqc_ci "a" c = true \/ eqc_ci "n" c = true
                         \/ eqc_ci "d" c = true -> isword c = true).
  { intros c H. apply and_letter. destruct H as [-> | [-> | ->]];
      rewrite ?orb_true_r; reflexivity. }
  assert (Hr : forall c r, rest = c :: r ->
                           eqc_ci "a" c = true \/ eqc_ci "n" c = true
                           \/ eqc_ci "d" c = true -> False).
  { intros c r -> H. apply Hl in H. congruence. }
  rewrite E. cbn [skipn head].
  destruct w as [|c1 [|c2 [|c3 [|c4 w4]]]]; cbn [app] in E.
  - exfalso. eapply Hr; eauto.
  - injection E as -> E. exfalso. eapply Hr; eauto.
  - injection E as -> -> E. exfalso. eapply Hr; eauto.
  - injection E as -> -> ->. exfalso. apply Hne. cbn [lower map].
    now rewrite (eqc_ci_lower _ _ Ea), (eqc_ci_lower _ _ En),
      (eqc_ci_lower _ _ Ed).
  - injection E as -> -> -> <-. cbn [forallb] in Hw.
    repeat (apply andb_true_iff in Hw as [? Hw]).
    unfold boundary at 2. cbn [skipn head isword_opt].
    match goal with H3 : isword d = true, H4 : isword c4 = true |- _ =>
      rewrite H3, H4 end.
    now rewrite andb_false_r.
Qed.

(** Inside a word no "and" is found. *)
Lemma sub_and_inside p w rest :
  isword p = true -> forallb isword w = true ->
  sub_and (Some p) 0 (w ++ rest) = w ++ sub_and (last_or (Some p) w) 0 rest.
Proof.
  revert p. induction w as [|c w IH]; intros p Hp Hw; [reflexivity|].
  cbn [forallb] in Hw. apply andb_true_iff in Hw as [Hc Hw].
  cbn [app sub_and]. unfold and_at. cbn [head]. unfold boundary at 1.
  cbn [isword_opt]. rewrite Hp, Hc. cbn [xorb andb].
  rewrite (IH c Hc Hw). now rewrite last_or_cons.
Qed.

Lemma sub_and_word prev w rest :
  one_word w ->
  match rest with [] => True | c :: _ => isword c = false end ->
  sub_and prev 0 (w ++ rest) = w ++ sub_and (last w) 0 rest.
Proof.
  intros (Hne & Hw & Hand) Hrest.
  pose proof (and_at_word prev w rest Hw Hand Hrest) as Hat.
  destruct w as [|c w]; [congruence|].
  cbn [forallb] in Hw. apply andb_true_iff in Hw as [Hc Hw].
  cbn [app sub_and] in *. rewrite Hat.
  rewrite (sub_and_inside c w rest Hc Hw).
  replace (last (c :: w)) with (last_or (Some c) w); [reflexivity|].
  unfold last_or. destruct w as [|d w]; [reflexivity|].
  rewrite (last_cons c). now destruct (last (d :: w)).
Qed.

Lemma and_at_space prev r : and_at prev (" "%char :: r) = false.
Proof.
  unfold and_at. cbn [lit list_ascii_of_string startswith_ci].
  change (eqc_ci "a" " ") with false. cbn [andb]. now rewrite andb_false_r.
Qed.

Lemma and_at_and r :
  and_at (Some " "%char) ("a"%char :: "n"%char :: "d"%char :: " "%char :: r)
  = true.
Proof. reflexivity. Qed.

Lemma sub_and_pair x y :
  one_word x -> one_word y ->
  sub_and None 0 (x ++ lit " and " ++ y) = x ++ lit " , " ++ y.
Proof.
  intros Hx Hy.
  rewrite (sub_and_word None x _ Hx); [|reflexivity].
  f_equal.
  assert (Hlast : exists c, last x = Some c /\ isword c = true).
  { destruct Hx as (Hne & Hw & _).
    destruct (last x) as [c|] eqn:E.
    - exists c. split; [reflexivity|].
      apply last_Some in E as [l' ->]. rewrite forallb_app in Hw.
      apply andb_true_iff in Hw as [_ Hw]. cbn in Hw. now rewrite andb_true_r in Hw.
    - apply last_None in E. congruence. }
  destruct Hlast as (c & -> & Hc).
  change (lit " and " ++ y)
    with (" "%char :: "a"%char :: "n"%char :: "d"%char :: " "%char :: y).
  cbn [sub_and]. rewrite and_at_space, and_at_and, and_at_space.
  pose proof (sub_and_word (Some " "%char) y [] Hy I) as H.
  rewrite app_nil_r in H. rewrite H. destruct (last y); now rewrite app_nil_r.
Qed.

Lemma sub_and_comma x y :
  one_word x -> one_word y ->
  sub_and None 0 (x ++ lit ", " ++ y) = x ++ lit ", " ++ y.
Proof.
  intros Hx Hy.
  rewrite (sub_and_word None x _ Hx); [|reflexivity].
  f_equal.
  change (lit ", " ++ y) with (","%char :: " "%char :: y).
  cbn [sub_and].
  replace (and_at (last x) (","%char :: " "%char :: y)) with false.
  2:{ unfold and_at. cbn [lit list_ascii_of_string startswith_ci].
      change (eqc_ci "a" ",") with false. cbn [andb]. now rewrite andb_false_r. }
  rewrite and_at_space.
  pose proof (sub_and_word (Some " "%char) y [] Hy I) as H.
  rewrite app_nil_r in H. rewrite H. destruct (last y); now rewrite app_nil_r.
Qed.

Lemma sub_seps_plain s :
  forallb (fun c => negb (is_list_sep c)) s = true -> sub_seps s = s.
Proof.
  unfold sub_seps. induction s as [|c s IH]; intros H; [reflexivity|].
  cbn [forallb] in H. apply andb_true_iff in H as [Hc Hs].
  cbn [map]. apply negb_true_iff in Hc. rewrite Hc. now rewrite IH.
Qed.

Lemma split_on_plain s :
  forallb (fun c => negb (eqc c ",")) s = true -> split_on "," s = [s].
Proof.
  induction s as [|c s IH]; intros H; [reflexivity|].
  cbn [forallb] in H. apply andb_true_iff in H as [Hc Hs].
  cbn [split_on]. apply negb_true_iff in Hc. rewrite Hc. now rewrite IH.
Qed.

Lemma split_on_comma a b :
  forallb (fun c => negb (eqc c ",")) a = true ->
  split_on "," (a ++ ","%char :: b) = a :: split_on "," b.
Proof.
  induction a as [|c a IH]; intros H; [reflexivity|].
  cbn [forallb] in H. apply andb_true_iff in H as [Hc Hs].
  cbn [app split_on]. apply negb_true_iff in Hc. rewrite Hc. now rewrite IH.
Qed.

Lemma one_word_ends w :
  one_word w ->
  (exists c w', w = c :: w' /\ isword c = true)
  /\ (exists c w', rev w = c :: w' /\ isword c = true).
Proof.
  intros (Hne & Hw & _). split.
  - destruct w as [|c w']; [congruence|]. exists c, w'. split; [reflexivity|].
    cbn [forallb] in Hw. now apply andb_true_iff in Hw as [Hc _].
  - rewrite <- forallb_rev in Hw. destruct (rev w) as [|c w'] eqn:E.
    + apply (f_equal (@rev _)) in E. rewrite rev_involutive in E. now subst.
    + exists c, w'. split; [reflexivity|].
      cbn [forallb] in Hw. now apply andb_true_iff in Hw as [Hc _].
Qed.

(** Spaces around a word are stripped, the word is kept. *)
Lemma strip_around before w after :
  one_word w ->
  forallb isspace before = true -> forallb isspace after = true ->
  strip (before ++ w ++ after) = w.
Proof.
  intros Hw Hb Ha.
  destruct (one_word_ends w Hw) as [(c & w' & E & Hc) (d & v & Er & Hd)].
  assert (D : forall sp t x, forallb isspace sp = true -> isword x = true ->
                             drop_while isspace (sp ++ x :: t) = x :: t).
  { intros sp t x Hsp Hx. induction sp as [|s sp IH].
    - cbn [app drop_while]. now destruct (word_char x Hx) as (-> & _).
    - cbn [forallb] in Hsp. apply andb_true_iff in Hsp as [Hs Hsp].
      cbn [app drop_while]. rewrite Hs. now apply IH. }
  unfold strip, strip_with.
  rewrite E, <- app_comm_cons, (D before _ c Hb Hc).
  rewrite app_comm_cons, <- E, rev_app_distr, Er.
  rewrite (D (rev after) _ d); [| now rewrite forallb_rev | exact Hd].
  rewrite <- Er. apply rev_involutive.
Qed.

Lemma sub_numbering_plain chunk :
  starts_with_digit chunk = false -> sub_numbering chunk = chunk.
Proof.
  unfold sub_numbering, starts_with_digit.
  destruct chunk as [|c t]; [reflexivity|].
  cbn [take_while]. now intros ->.
Qed.

Lemma pair_tokens_of_pair x y sep :
  one_word x -> one_word y -> starts_with_digit x = false ->
  sep = lit " and " \/ sep = lit ", " ->
  pair_tokens (x ++ sep ++ y) = [x; y].
Proof.
  intros Hx Hy Hd Hsep.
  assert (Hn : normalize_separators (x ++ sep ++ y)
               = (x ++ [" "%char]) ++ ","%char :: " "%char :: y
               \/ normalize_separators (x ++ sep ++ y)
                  = x ++ ","%char :: " "%char :: y).
  { assert (Hs : forall w, one_word w ->
                           forallb (fun c => negb (is_list_sep c)) w = true).
    { intros w (_ & Hw & _). eapply forallb_impl; [|exact Hw].
      intros c Hc. now destruct (word_char c Hc) as (_ & _ & _ & -> & _). }
    unfold normalize_separators.
    destruct Hsep as [-> | ->].
    - left. rewrite sub_and_pair by assumption.
      rewrite sub_seps_plain; [now rewrite <- app_assoc|].
      rewrite !forallb_app, (Hs x Hx), (Hs y Hy). reflexivity.
    - right. rewrite sub_and_comma by assumption.
      rewrite sub_seps_plain; [reflexivity|].
      rewrite !forallb_app, (Hs x Hx), (Hs y Hy). reflexivity. }
  assert (Hc : forall w, one_word w ->
                         forallb (fun c => negb (eqc c ",")) w = true).
  { intros w (_ & Hw & _). eapply forallb_impl; [|exact Hw].
    intros c Hc. now destruct (word_char c Hc) as (_ & _ & -> & _). }
  assert (Hx1 : strip (sub_numbering (x ++ [" "%char])) = x).
  { rewrite sub_numbering_plain.
    - apply (strip_around [] x [" "%char] Hx); reflexivity.
    - destruct Hx as (Hne & _). destruct x; [congruence|exact Hd]. }
  assert (Hx2 : strip (sub_numbering x) = x).
  { rewrite sub_numbering_plain by exact Hd.
    pose proof (strip_around [] x [] Hx eq_refl eq_refl) as H.
    cbn [app] in H. now rewrite app_nil_r in H. }
  assert (Hy1 : strip (sub_numbering (" "%char :: y)) = y).
  { rewrite sub_numbering_plain by reflexivity.
    pose proof (strip_around [" "%char] y [] Hy eq_refl eq_refl) as H.
    cbn [app] in H. now rewrite app_nil_r in H. }
  assert (Hxe : nonempty x = true) by (destruct Hx as (Hne & _); now destruct x).
  assert (Hye : nonempty y = true) by (destruct Hy as (Hne & _); now destruct y).
  unfold pair_tokens.
  destruct Hn as [-> | ->]; rewrite split_on_comma, split_on_plain.
  - cbn [map List.filter]. now rewrite Hx1, Hy1, Hxe, Hye.
  - cbn [forallb]. now rewrite (Hc y Hy).
  - rewrite forallb_app, (Hc x Hx). reflexivity.
  - cbn [map List.filter]. now rewrite Hx2, Hy1, Hxe, Hye.
  - cbn [forallb]. now rewrite (Hc y Hy).
  - exact (Hc x Hx).
Qed.

Lemma strip_ends s :
  (exists c t, s = c :: t /\ isspace c = false) ->
  (exists c t, rev s = c :: t /\ isspace c = false) ->
  strip s = s.
Proof.
  intros (c & t & E & Hc) (d & v & Er & Hd). unfold strip, strip_with.
  rewrite (drop_while_fixed isspace s) by (rewrite E; exact Hc).
  rewrite (drop_while_fixed isspace (rev s)) by (rewrite Er; exact Hd).
  apply rev_involutive.
Qed.

Lemma pair_body x y sep :
  one_word x -> one_word y -> sep = lit " and " \/ sep = lit ", " ->
  no_lt (x ++ sep ++ y) = true
  /\ strip (x ++ sep ++ y) = x ++ sep ++ y
  /\ bracketed (x ++ sep ++ y) = false.
Proof.
  intros Hx Hy Hsep.
  destruct (one_word_ends x Hx) as [(c & x' & Ex & Hc) _].
  destruct (one_word_ends y Hy) as [_ (d & y' & Ey & Hd)].
  assert (Hlt : forall w, one_word w -> no_lt w = true).
  { intros w (_ & Hw & _). unfold no_lt. eapply forallb_impl; [|exact Hw].
    intros a Ha. now destruct (word_char a Ha) as (_ & -> & _). }
  split; [|split].
  - rewrite !no_lt_app, (Hlt x Hx), (Hlt y Hy).
    destruct Hsep as [-> | ->]; reflexivity.
  - apply strip_ends.
    + exists c, (x' ++ sep ++ y). rewrite Ex. split; [reflexivity|].
      now destruct (word_char c Hc) as (-> & _).
    + exists d, (y' ++ rev sep ++ rev x). rewrite !rev_app_distr, Ey, <- app_assoc.
      split; [reflexivity|]. now destruct (word_char d Hd) as (-> & _).
  - unfold bracketed. rewrite Ex. cbn [app lit list_ascii_of_string startswith].
    destruct (word_char c Hc) as (_ & _ & _ & _ & Hb).
    unfold eqc in *. rewrite Ascii.eqb_sym, Hb. reflexivity.
Qed.

(** X16: a pair given in the format the prompt asks for is read as it is:
    for two names of one word each (letters, digits, underscores; not the
    word "and"; the first not starting with a digit), a response with one
    answer span (a text that holds no opening tag, the span, and a text
    that holds no span) whose span is the first name, " and " or ", ",
    and the second name yields a record whose [pred_answer] is the two
    names in order, and the record scores 1 against that pair. *)
Theorem pair_in_prompted_format_scores_one
    (literal_eval : str -> literal) (knowledge_label : knowledge_label)
    (history_label : history_label) (id sample_id round : pyval)
    (x y sep before after : str) :
  one_word x -> one_word y -> starts_with_digit x = false ->
  sep = lit " and " \/ sep = lit ", " ->
  no_open_tag before -> spanless after ->
  exists pred,
    _process_sample literal_eval FIND_TARGET_OFFSETS_TOOL history_label
      id sample_id round (before ++ span (x ++ sep ++ y) ++ after) = Ret pred
    /\ p_pred_answer pred = VList [VStr x; VStr y]
    /\ sample_score FIND_TARGET_OFFSETS_TOOL knowledge_label history_label
         (VList [VStr x; VStr y]) (p_pred_answer pred) = Ret (Some 1%Q).
Proof.
  intros Hx Hy Hd Hsep Hbefore Hafter.
  destruct (pair_body x y sep Hx Hy Hsep) as (Hlt & Hstrip & Hbr).
  rewrite (process_sample_around _ _ _ _ _ _ _ _ _ Hbefore Hlt Hafter).
  assert (Hp : parse_pair_list literal_eval (span (x ++ sep ++ y))
               = Ret (Some [x; y])).
  { unfold parse_pair_list.
    change (is_empty (span (x ++ sep ++ y))) with false. cbv iota.
    rewrite (extract_span _ Hlt), !Hstrip, Hbr.
    now rewrite (pair_tokens_of_pair x y sep Hx Hy Hd Hsep). }
  unfold _process_sample, parse_response. cbn [is_number_type fst].
  rewrite Hp. cbn [pmap bind of_option to_pyval map].
  eexists. split; [reflexivity|]. cbn [p_pred_answer]. split; [reflexivity|].
  unfold sample_score. cbn [is_number_type _normalize_pair_list flat_map app].
  unfold _compare_pair_lists. cbn [length Nat.eqb nth andb].
  now rewrite !str_eqb_refl.
Qed.

Lemma pair_in_prompted_format_scores_one_witness :
  exists pred,
    _process_sample no_literal FIND_TARGET_OFFSETS_TOOL Concise_Response
      (VStr (lit "a")) VNone VNone
      (lit "The two are: "
       ++ span (lit "Sandshrew" ++ lit " and " ++ lit "Pikachu")
       ++ lit " <answer> is the tag.") = Ret pred
    /\ p_pred_answer pred = VList [VStr (lit "Sandshrew"); VStr (lit "Pikachu")]
    /\ sample_score FIND_TARGET_OFFSETS_TOOL knowledge_intensive Concise_Response
         (VList [VStr (lit "Sandshrew"); VStr (lit "Pikachu")])
         (p_pred_answer pred) = Ret (Some 1%Q).
Proof.
  apply (pair_in_prompted_format_scores_one no_literal knowledge_intensive
           Concise_Response (VStr (lit "a")) VNone VNone
           (lit "Sandshrew") (lit "Pikachu") (lit " and ")
           (lit "The two are: ") (lit " <answer> is the tag.")).
  - repeat split; [discriminate|discriminate].
  - repeat split; [discriminate|discriminate].
  - reflexivity.
  - now left.
  - now apply contains_ci_free_of.
  - right. exists (lit " "), open_tag, (lit " is the tag.").
    split; [reflexivity|]. split; [now apply contains_ci_free_of|].
    split; [reflexivity|now apply contains_ci_free_of].
Defined.

(** ** The final guess *)

(** X17: in the concise intersection case, a response with one answer
    span (a text that holds no opening tag, the span, and a text that
    holds no span) whose span holds the ground-truth name, in any letter
    case and with any whitespace around it, yields a record whose
    [pred_answer] is the stripped content of the span, and the record
    scores 1. *)
Theorem final_guess_scores_one_whatever_the_case
    (literal_eval : str -> literal) (knowledge_label : knowledge_label)
    (id sample_id round : pyval) (answer truth before after : str) :
  no_lt answer = true ->
  lower (strip answer) = lower (strip truth) ->
  _normalize_name truth knowledge_label <> [] ->
  no_open_tag before -> spanless after ->
  exists pred,
    _process_sample literal_eval INTERSECTION Concise_Response
      id sample_id round (before ++ span answer ++ after) = Ret pred
    /\ p_pred_answer pred = VStr (strip answer)
    /\ sample_score INTERSECTION knowledge_label Concise_Response
         (VStr truth) (p_pred_answer pred) = Ret (Some 1%Q).
Proof.
  intros Hlt Hlow Hne Hbefore Hafter.
  rewrite (process_sample_around _ _ _ _ _ _ _ _ _ Hbefore Hlt Hafter).
  assert (Hg : truth <> []) by (intros ->; now apply Hne).
  assert (Hs : strip answer <> []).
  { intros E. rewrite E in Hlow. cbn [lower map] in Hlow.
    apply Hne. unfold _normalize_name.
    destruct truth as [|c t]; [congruence|]. cbn [is_empty].
    rewrite <- Hlow. now destruct knowledge_label. }
  assert (Hp : parse_final_guess (span answer) = Some (strip answer)).
  { unfold parse_final_guess.
    change (is_empty (span answer)) with false. cbv iota.
    rewrite (extract_span _ Hlt), strip_idem.
    destruct (strip answer); [congruence|reflexivity]. }
  unfold _process_sample, parse_response. cbn [is_number_type fst].
  rewrite Hp. cbn [pmap bind of_option to_pyval].
  eexists. split; [reflexivity|]. cbn [p_pred_answer]. split; [reflexivity|].
  unfold sample_score. cbn [is_number_type truthy py_str].
  destruct truth as [|c t] eqn:Et; [congruence|]. rewrite <- Et in *.
  destruct (strip answer) as [|a s] eqn:Ea; [congruence|]. rewrite <- Ea in *.
  replace (is_empty truth) with false by now rewrite Et.
  replace (is_empty (strip answer)) with false by now rewrite Ea.
  cbn [negb].
  assert (Hn : _normalize_name (strip answer) knowledge_label
               = _normalize_name truth knowledge_label).
  { unfold _normalize_name.
    replace (is_empty truth) with false by now rewrite Et.
    replace (is_empty (strip answer)) with false by now rewrite Ea.
    now rewrite strip_idem, Hlow. }
  rewrite Hn, str_eqb_refl.
  destruct (_normalize_name truth knowledge_label); [congruence|reflexivity].
Qed.

Lemma final_guess_scores_one_whatever_the_case_witness :
  exists pred,
    _process_sample no_literal INTERSECTION Concise_Response
      (VStr (lit "a")) VNone VNone
      (lit "My guess: " ++ span (lit " MR. MIME ") ++ lit " (final)")
    = Ret pred
    /\ p_pred_answer pred = VStr (strip (lit " MR. MIME "))
    /\ sample_score INTERSECTION knowledge_intensive Concise_Response
         (VStr (lit "Mr. Mime")) (p_pred_answer pred) = Ret (Some 1%Q).
Proof.
  apply (final_guess_scores_one_whatever_the_case no_literal
           knowledge_intensive (VStr (lit "a")) VNone VNone
           (lit " MR. MIME ") (lit "Mr. Mime")
           (lit "My guess: ") (lit " (final)")).
  - reflexivity.
  - reflexivity.
  - vm_compute. discriminate.
  - now apply contains_ci_free_of.
  - left. now apply contains_ci_free_of.
Defined.

(** ** An empty window *)

Lemma slice_rows_empty {A} (rows : list A) (offset : Z) (limit : option Z) :
  Z.of_nat (length rows) <= offset \/ limit = Some 0 ->
  slice_rows rows offset limit = [].
Proof.
  intros [H| ->].
  - unfold slice_rows, slice. cbv zeta.
    assert (Ha : slice_index (Z.of_nat (length rows)) offset
                 = Z.of_nat (length rows)).
    { unfold slice_index.
      replace (offset <? 0) with false by (symmetry; apply Z.ltb_ge; lia).
      lia. }
    rewrite Ha, Nat2Z.id, skipn_all. apply firstn_nil.
  - unfold slice_rows, slice. cbn [option_map]. cbv zeta.
    rewrite Z.add_0_r, Z.sub_diag. reflexivity.
Qed.

(** X18: an empty window is an error, not an empty run: when the offset
    is at or past the end of the dataset (so for every offset when the
    dataset is empty) or the limit is 0, [run] raises [ValueError],
    whatever the output file holds and however many workers it has. *)
Theorem empty_window_is_rejected
    (literal_eval : str -> literal) (respond : nat -> option str)
    (as_completed : nat -> list nat)
    (parts : list str) (rows : list (gmap str pyval))
    (offset : Z) (limit : option Z) (workers : Z) (resume : bool)
    (output : file) :
  Z.of_nat (length rows) <= offset \/ limit = Some 0 ->
  run literal_eval respond as_completed parts rows offset limit workers
      resume output
  = Fails (Exn ValueError).
Proof.
  intros H. unfold run. now rewrite (slice_rows_empty rows offset limit H).
Qed.

Lemma empty_window_is_rejected_witness :
  run no_literal example_reply last_first example_path
      [example_row (VStr (lit "a"))] 1 None 1 true None
  = Fails (Exn ValueError).
Proof.
  apply empty_window_is_rejected. left. cbn [length]. lia.
Defined.

(** ** Blank responses *)

Lemma od_set_fresh {A} key (v : A) d :
  key ∉ keys d -> od_set key v d = d ++ [(key, v)].
Proof.
  induction d as [|[k x] d IH]; intros H; [reflexivity|].
  cbn [od_set]. unfold str_eqb.
  rewrite bool_decide_eq_false_2.
  - cbn [app]. f_equal. apply IH. intros Hk. apply H. now right.
  - intros ->. apply H. left.
Qed.

Lemma process_fresh literal_eval respond question_type history_label
    k pending records out :
  Forall (fun sample => is_none (get sample "id") = false) pending ->
  NoDup (keys records ++ map id_text pending) ->
  process literal_eval respond question_type history_label k pending records
  = Done out ->
  exists added, out = records ++ added /\ answered respond k pending added.
Proof.
  revert k records. induction pending as [|sample rest IH];
    intros k records Hids Hnd Hp.
  - injection Hp as <-. exists []. split; [now rewrite app_nil_r|constructor].
  - cbn [process] in Hp.
    destruct (_process_sample_record _ _ _ _ sample k) as [record|e] eqn:Er;
      cbn [and_then] in Hp; [|discriminate].
    apply process_sample_record_inv in Er as (raw & Eraw & Eid & Eresp).
    inversion Hids as [|? ? Hid Hrest]; subst. rewrite Hid in Hp.
    cbn [map] in Hnd.
    assert (Hfresh : py_str (get sample "id") ∉ keys records).
    { apply NoDup_app in Hnd as (_ & Hd & _). intros Hk.
      apply (Hd _ Hk). left. }
    rewrite (od_set_fresh _ _ _ Hfresh) in Hp.
    apply IH in Hp as (added & -> & Hadded); [|exact Hrest|].
    + exists ((py_str (get sample "id"), record) :: added).
      split; [now rewrite <- app_assoc|].
      unfold answered. cbn [length seq combine]. constructor; [|exact Hadded].
      cbn [fst snd]. unfold id_text. rewrite Eid, Eresp, Eraw. cbn [blank].
      repeat split; auto.
    + unfold keys in *. rewrite map_app. cbn [map fst].
      rewrite <- app_assoc. exact Hnd.
Qed.

Lemma completed_from_iff (l : list (gmap str pyval)) acc :
  exists c, completed_from (map Object l) acc = Done c
            /\ forall key, key ∈ c <->
                           key ∈ acc
                           \/ exists obj, In obj l
                                          /\ is_none (get obj "id") = false
                                          /\ has_response obj = true
                                          /\ id_text obj = key.
Proof.
  revert acc. induction l as [|obj l IH]; intros acc.
  - exists acc. split; [reflexivity|]. intros key. split; [auto|].
    intros [H|(o & [] & _)]. exact H.
  - cbn [map completed_from].
    destruct (IH (if negb (is_none (get obj "id")) && has_response obj
                  then {[py_str (get obj "id")]} ∪ acc else acc))
      as (c & E & Hc).
    exists c. split; [exact E|]. intros key. rewrite Hc. clear Hc E IH.
    assert (Hacc : key ∈ (if negb (is_none (get obj "id")) && has_response obj
                          then {[py_str (get obj "id")]} ∪ acc else acc)
                   <-> key ∈ acc
                       \/ (is_none (get obj "id") = false
                           /\ has_response obj = true /\ id_text obj = key)).
    { unfold id_text.
      destruct (is_none (get obj "id")), (has_response obj); cbn [negb andb];
        try (split; [now left|intros [H|(? & ? & ?)]; [exact H|discriminate]]).
      rewrite elem_of_union, elem_of_singleton. split.
      - intros [->|H]; [right; auto|now left].
      - intros [H|(_ & _ & <-)]; [now right|now left]. }
    rewrite Hacc. cbn [In]. split.
    + intros [[H|(H1 & H2 & H3)]|(o & Ho & H)].
      * now left.
      * right. exists obj. auto.
      * right. exists o. auto.
    + intros [H|(o & [<-|Ho] & H)].
      * left. now left.
      * left. now right.
      * right. exists o. auto.
Qed.

Lemma answered_with_response respond k pending added key :
  answered respond k pending added ->
  (exists obj, In obj (od_values added)
               /\ is_none (get obj "id") = false
               /\ has_response obj = true /\ id_text obj = key)
  <-> exists sj, In sj (combine pending (seq k (length pending)))
                 /\ id_text (fst sj) = key
                 /\ blank (respond (snd sj)) = false.
Proof.
  unfold answered. generalize (combine pending (seq k (length pending))).
  intros pairs H. induction H as [|sj kv pairs added (H1 & H2 & H3 & H4) _ IH].
  - split; [intros (? & [] & _)|intros (? & [] & _)].
  - cbn [od_values map In] in *. split.
    + intros (obj & [<-|Ho] & Hn & Hr & Hk).
      * exists sj. split; [now left|]. split; [congruence|].
        rewrite Hr in H4. now destruct (blank (respond (snd sj))).
      * destruct (proj1 IH) as (sj' & Hin & Hs); [eauto|].
        exists sj'. split; [now right|exact Hs].
    + intros (sj' & [<-|Hin] & Hk & Hb).
      * exists (snd kv). split; [now left|]. rewrite H4, Hb.
        repeat split; auto. congruence.
      * destruct (proj2 IH) as (obj & Ho & Hs); [eauto|].
        exists obj. split; [now right|exact Hs].
Qed.

Lemma combine_seq_fst {A} (l : list A) k :
  map fst (combine l (seq k (length l))) = l.
Proof.
  revert k. induction l as [|x l IH]; intros k; [reflexivity|].
  cbn [length seq combine map fst]. now rewrite IH.
Qed.

Lemma NoDup_map_eq {A B} (f : A -> B) l a b :
  NoDup (map f l) -> In a l -> In b l -> f a = f b -> a = b.
Proof.
  induction l as [|x l IH]; intros Hnd Ha Hb E; [destruct Ha|].
  cbn [map] in Hnd. apply NoDup_cons in Hnd as [Hx Hnd].
  destruct Ha as [<-|Ha], Hb as [<-|Hb]; auto.
  - exfalso. apply Hx. rewrite E. apply list_elem_of_In, in_map, Hb.
  - exfalso. apply Hx. rewrite <- E. apply list_elem_of_In, in_map, Ha.
Qed.

Lemma filter_length_combine {A B} (f : A -> bool) (g : B -> bool) l1 l2 :
  length l1 = length l2 ->
  Forall (fun p => f (fst p) = g (snd p)) (combine l1 l2) ->
  length (List.filter f l1) = length (List.filter g l2).
Proof.
  revert l2. induction l1 as [|x l1 IH]; intros [|y l2] Hl H;
    try discriminate; [reflexivity|].
  cbn [combine] in H. inversion H as [|? ? Hxy Hrest]; subst.
  cbn [fst snd] in Hxy. cbn [List.filter]. rewrite Hxy.
  injection Hl as Hl. destruct (g y); cbn [length]; rewrite (IH l2 Hl Hrest);
    reflexivity.
Qed.

(** X19: a blank response is tried again.  After a run with one worker
    that started afresh on rows that all have an id, no two the same, the
    rows a resumed run has to do are those whose response in the first run
    was blank: with one worker it returns their number, with a pool of
    workers the number of its calls that returned, at most their
    number. *)
Theorem blank_responses_are_tried_again
    (literal_eval : str -> literal) (respond respond' : nat -> option str)
    (as_completed as_completed' : nat -> list nat)
    (parts : list str) (rows : list (gmap str pyval))
    (offset : Z) (limit : option Z) (workers' : Z) (resume : bool)
    (output output' output'' : file) (n m : nat) :
  resume = false \/ output = None ->
  Forall (fun sample => is_none (get sample "id") = false)
         (slice_rows rows offset limit) ->
  NoDup (map id_text (slice_rows rows offset limit)) ->
  complete_once as_completed' ->
  run literal_eval respond as_completed parts rows offset limit 1 resume
      output = Done (n, output') ->
  run literal_eval respond' as_completed' parts rows offset limit workers'
      true output' = Done (m, output'') ->
  n = length (slice_rows rows offset limit)
  /\ (m <= length (List.filter (fun k => blank (respond k)) (seq 0 n)))%nat
  /\ (workers' = 1 ->
      m = length (List.filter (fun k => blank (respond k)) (seq 0 n))).
Proof.
  intros Hfresh Hids Hnd Hperm Hrun Hrun'.
  apply run_inv in Hrun
    as (q & [[[kk kl] hk] hl] & existing & completed & Eq & Ectx & He & Hc
        & Hcases).
  apply run_inv in Hrun'
    as (q' & [[[kk' kl'] hk'] hl'] & existing' & completed' & _ & _ & He'
        & Hc' & Hcases').
  set (rows' := slice_rows rows offset limit) in *.
  cbn [snd] in *.
  assert (Hstart : existing = [] /\ completed = ∅).
  { destruct Hfresh as [->| ->].
    - injection He as <-. injection Hc as <-. now split.
    - destruct resume; cbn in He, Hc; injection He as <-; injection Hc as <-;
        now split. }
  destruct Hstart as [-> ->].
  rewrite (filter_all _ _ is_pending_empty) in Hcases.
  destruct Hcases as [(E & _)|(_ & out & -> & Hout)].
  { rewrite E in Eq. discriminate Eq. }
  destruct Hout as [(_ & Ep & ->)|(Hw & _)]; [|lia].
  split; [reflexivity|].
  apply process_fresh in Ep as (added & -> & Hans); [|exact Hids|exact Hnd].
  cbn [app] in *.
  cbn [_load_existing_records _load_completed_ids] in He', Hc'.
  destruct (completed_from_iff (od_values added) ∅) as (c & Ec & Hcompl).
  rewrite Ec in Hc'. injection Hc' as <-.
  assert (Hblank : length (List.filter (is_pending c) rows')
                   = length (List.filter (fun k => blank (respond k))
                               (seq 0 (length rows')))).
  { apply filter_length_combine; [now rewrite length_seq|].
    apply Forall_forall. intros [s j] Hsj. apply list_elem_of_In in Hsj.
    cbn [fst snd].
    assert (Hs : In s rows').
    { rewrite <- (combine_seq_fst rows' 0). apply in_map_iff. now exists (s, j). }
    rewrite Forall_forall in Hids.
    unfold is_pending. rewrite (Hids s); [|now apply list_elem_of_In].
    cbn [negb andb].
    destruct (blank (respond j)) eqn:Eb.
    - rewrite bool_decide_eq_false_2; [reflexivity|].
      intros Hk. apply Hcompl in Hk as [Hk|Hk];
        [now apply not_elem_of_empty in Hk|].
      apply (answered_with_response respond 0 rows' added) in Hk
        as ([s' j'] & Hin & Hkey & Hb); [|exact Hans].
      cbn [fst snd] in *.
      assert (E : (s', j') = (s, j)).
      { apply (NoDup_map_eq (fun p => id_text (fst p))
                 (combine rows' (seq 0 (length rows')))); auto.
        rewrite <- (map_map fst id_text), combine_seq_fst. exact Hnd. }
      injection E as -> ->. congruence.
    - rewrite bool_decide_eq_true_2; [reflexivity|].
      apply Hcompl. right.
      apply (answered_with_response respond 0 rows' added); [exact Hans|].
      exists (s, j). auto. }
  rewrite <- Hblank.
  destruct Hcases' as [(-> & -> & _)|(_ & out' & _ & Hout')].
  - cbn [length]. split; [lia|reflexivity].
  - destruct Hout' as [(_ & _ & ->)|(Hw & Eg)]; [split; [lia|reflexivity]|].
    pose proof (gather_keys _ _ _ _ _ _ _ _ _ _ Eg) as (_ & Hb & _ & _).
    pose proof (Permutation_length
                  (Hperm (length (List.filter (is_pending c) rows')))) as Hlen.
    rewrite length_seq in Hlen. split; [lia|]. intros ->. lia.
Qed.

Lemma blank_responses_are_tried_again_witness :
  2%nat = length (slice_rows [example_row (VStr (lit "a"));
                              example_row (VStr (lit "b"))] 0 None)
  /\ (1 <= length (List.filter (fun k => blank (first_blank k)) (seq 0 2)))%nat
  /\ (5 = 1 ->
      1%nat = length (List.filter (fun k => blank (first_blank k)) (seq 0 2))).
Proof.
  apply (blank_responses_are_tried_again no_literal first_blank example_reply
           last_first last_first example_path
           [example_row (VStr (lit "a")); example_row (VStr (lit "b"))]
           0 None 5 false None
           (Some [Object (blank_record (VStr (lit "a")));
                  Object (example_record (VStr (lit "b")))])
           (Some [Object (example_record (VStr (lit "a")));
                  Object (example_record (VStr (lit "b")))])).
  - now left.
  - repeat constructor.
  - apply (bool_decide_unpack _). vm_compute. exact I.
  - intros n. apply Permutation_sym, Permutation_rev.
  - vm_compute. reflexivity.
  - vm_compute. reflexivity.
Defined.

(** ** The offline runner *)

Lemma offline_completed_app l1 l2 acc :
  Offline.completed_from (l1 ++ l2) acc
  = and_then (Offline.completed_from l1 acc) (Offline.completed_from l2).
Proof.
  revert acc. induction l1 as [|l l1 IH]; intros acc; [reflexivity|].
  destruct l; cbn [app Offline.completed_from]; try apply IH. reflexivity.
Qed.

Lemma offline_completed_records (records : list (gmap str pyval)) acc :
  exists c, Offline.completed_from (map Object records) acc = Done c
            /\ (forall key, key ∈ acc -> key ∈ c)
            /\ Forall (fun r => is_none (get r "id") = false ->
                                py_str (get r "id") ∈ c) records.
Proof.
  revert acc. induction records as [|r records IH]; intros acc.
  - exists acc. repeat split; auto.
  - cbn [map Offline.completed_from].
    destruct (IH (if is_none (get r "id") then acc
                  else {[py_str (get r "id")]} ∪ acc)) as (c & E & Ha & Hr).
    exists c. split; [exact E|]. split.
    + intros key Hk. apply Ha. destruct (is_none (get r "id")); [exact Hk|].
      apply elem_of_union. now right.
    + constructor; [|exact Hr]. intros Hid. apply Ha. rewrite Hid.
      apply elem_of_union. left. now apply elem_of_singleton.
Qed.

(** A record written to a file that takes whole lines is a line of its
    own, read after the lines the file held. *)
Lemma write_appendable f record :
  appendable (Some f) ->
  Offline.ended (Offline.write f record) = true
  /\ forall acc,
       Offline.completed_from (Offline.lines (Offline.write f record)) acc
       = and_then (Offline.completed_from (Offline.lines f) acc)
                  (Offline.completed_from [Object record]).
Proof.
  intros H. unfold Offline.write.
  destruct (Offline.ended f) eqn:Ee.
  - split; [reflexivity|]. intros acc. cbn [Offline.lines].
    apply offline_completed_app.
  - destruct H as [H|[H|(before & H)]]; [cbn in H; congruence| |].
    + rewrite H. cbn [rev]. split; reflexivity.
    + rewrite H, rev_app_distr. cbn [rev app]. rewrite rev_involutive.
      split; [reflexivity|]. intros acc. cbn [Offline.lines].
      rewrite !offline_completed_app.
      destruct (Offline.completed_from before acc); reflexivity.
Qed.

Lemma write_all_appendable records : forall f,
  appendable (Some f) ->
  forall acc,
    Offline.completed_from (Offline.lines (fold_left Offline.write records f))
      acc
    = and_then (Offline.completed_from (Offline.lines f) acc)
               (Offline.completed_from (map Object records)).
Proof.
  induction records as [|r records IH]; intros f Hf acc.
  - cbn [fold_left map Offline.completed_from].
    destruct (Offline.completed_from (Offline.lines f) acc); reflexivity.
  - cbn [fold_left map].
    destruct (write_appendable f r Hf) as (He & Hw).
    rewrite IH by (left; exact He). rewrite Hw.
    destruct (Offline.completed_from (Offline.lines f) acc); reflexivity.
Qed.

Lemma write_records_done literal_eval question_type history_label respond
    k pending f f' n :
  Offline.write_records literal_eval question_type history_label respond
    k pending f = (f', Done n) ->
  n = (k + length pending)%nat
  /\ exists records,
       f' = fold_left Offline.write records f
       /\ Forall2 (fun sample r => get r "id" = get sample "id")
                  pending records.
Proof.
  revert k f. induction pending as [|sample rest IH]; intros k f H.
  - injection H as <- <-. split; [cbn [length]; lia|]. exists [].
    split; [reflexivity|constructor].
  - cbn [Offline.write_records] in H.
    destruct (parse_response _ _ _ (respond k)) as [[v|e] kind]; [|discriminate].
    apply IH in H as (-> & records & -> & Hr).
    split; [cbn [length]; lia|].
    eexists (_ :: records). split; [reflexivity|].
    constructor; [apply record_of_id|exact Hr].
Qed.

Lemma open_output_file_appendable output resume :
  resume = false \/ appendable output ->
  appendable (Some (Offline.open_output_file output resume)).
Proof.
  intros H. unfold Offline.open_output_file.
  destruct output as [f|]; [|now left].
  destruct resume; [|now left].
  destruct H as [H|H]; [discriminate|exact H].
Qed.

(** X20: the offline runner never repeats a row that has an id, blank
    response or not.  When every row of the window has an id and the run
    starts afresh, or from a file that is empty or whose last line ends
    with a newline or is blank, then after a run that ends a second run
    with resume finds nothing pending, returns 0 and leaves the file as
    it is, without building the engine. *)
Theorem offline_run_repeats_no_row_with_an_id
    (literal_eval : str -> literal) (respond : nat -> str)
    (llm : Offline.engine)
    (parts : list str) (rows : list (gmap str pyval))
    (offset : Z) (limit : option Z) (resume : bool)
    (output output' : option Offline.text) (n : nat) :
  Forall (fun sample => is_none (get sample "id") = false)
         (slice_rows rows offset limit) ->
  resume = false \/ appendable output ->
  Offline.run literal_eval (Offline.Replies respond) parts rows offset limit
    resume output = (output', Done n) ->
  Offline.run literal_eval llm parts rows offset limit true output'
  = (output', Done 0%nat).
Proof.
  intros Hids Happ Hrun. unfold Offline.run in *.
  set (rows' := slice_rows rows offset limit) in *.
  destruct (require_single_question_type rows') as [q|e] eqn:Eq;
    [|discriminate].
  destruct (infer_context_from_path parts) as [[[[kk kl] hk] hl]|e];
    [|discriminate].
  destruct (if resume then Offline.load_completed_ids output else Done ∅)
    as [completed|e] eqn:Ec; [|discriminate].
  destruct (Offline.filter_pending rows' completed) as [|sample rest] eqn:Ep.
  - injection Hrun as <- <-.
    destruct resume.
    + rewrite Ec, Ep. reflexivity.
    + injection Ec as <-. unfold Offline.filter_pending in Ep.
      rewrite filter_all in Ep.
      * rewrite Ep in Eq. discriminate Eq.
      * intros s. rewrite bool_decide_eq_false_2 by apply not_elem_of_empty.
        apply orb_true_r.
  - destruct (Offline.write_records _ _ _ _ _ _ _) as [f' result] eqn:Ew.
    injection Hrun as <- ->.
    apply write_records_done in Ew as (-> & records & -> & Hr).
    cbn [Offline.load_completed_ids].
    rewrite write_all_appendable
      by now apply open_output_file_appendable.
    assert (Hold : exists c0,
               Offline.completed_from
                 (Offline.lines (Offline.open_output_file output resume)) ∅
               = Done c0
               /\ forall key, key ∈ completed -> key ∈ c0).
    { destruct resume.
      - destruct output as [old|]; cbn in Ec |- *.
        + exists completed. auto.
        + injection Ec as <-. exists ∅. auto.
      - injection Ec as <-. exists ∅.
        destruct output; cbn; auto. }
    destruct Hold as (c0 & -> & Hc0). cbn [and_then].
    destruct (offline_completed_records records c0) as (c & -> & Ha & Hrec).
    replace (Offline.filter_pending rows' c) with (@nil (gmap str pyval));
      [reflexivity|].
    symmetry. apply filter_none.
    apply Forall_forall. rewrite Forall_forall in Hids. intros s Hs.
    cbv beta zeta.
    rewrite (Hids s Hs). cbn [orb]. apply negb_false_iff.
    apply bool_decide_eq_true.
    destruct (bool_decide (py_str (get s "id") ∈ completed)) eqn:Eb.
    + apply bool_decide_eq_true in Eb. now apply Ha, Hc0.
    + assert (Hin : In s (sample :: rest)).
      { rewrite <- Ep. apply filter_In. split; [now apply list_elem_of_In|].
        cbv beta zeta. rewrite Eb. apply orb_true_r. }
      clear -Hin Hr Hrec Hids Hs.
      induction Hr as [|s0 r0 p rs E0 _ IH]; [destruct Hin|].
      apply Forall_cons in Hrec as [Hr0 Hrec].
      destruct Hin as [->|Hin]; [|now apply IH].
      rewrite <- E0. apply Hr0. rewrite E0. now apply Hids.
Qed.

Lemma offline_run_repeats_no_row_with_an_id_witness :
  Offline.run no_literal Offline.Unavailable example_path
    [example_row (VStr (lit "a"))] 0 None true
    (Some {| Offline.lines := [Object (blank_record (VStr (lit "a")))];
             Offline.ended := true |})
  = (Some {| Offline.lines := [Object (blank_record (VStr (lit "a")))];
             Offline.ended := true |}, Done 0%nat).
Proof.
  apply (offline_run_repeats_no_row_with_an_id no_literal (fun _ => lit " ")
           Offline.Unavailable example_path [example_row (VStr (lit "a"))]
           0 None true
           (Some {| Offline.lines := [Blank]; Offline.ended := false |})
           (Some {| Offline.lines :=
                      [Object (blank_record (VStr (lit "a")))];
                    Offline.ended := true |}) 1).
  - repeat constructor.
  - right. right. right. now exists [].
  - vm_compute. reflexivity.
Defined.

(** On a file whose last line holds a record and no newline, the record
    the runner appends continues that line: neither is read back, and the
    next run takes up both rows again. *)
Example record_after_unended_line_is_lost :
  let started :=
    Some {| Offline.lines := [Object (blank_record (VStr (lit "a")))];
            Offline.ended := false |} in
  let rows := [example_row (VStr (lit "a")); example_row (VStr (lit "b"))] in
  let left := Some {| Offline.lines := [Invalid]; Offline.ended := true |} in
  Offline.run no_literal (Offline.Replies (fun _ => lit " ")) example_path
    rows 0 None true started = (left, Done 1%nat)
  /\ Offline.load_completed_ids left = Done ∅
  /\ fst (Offline.run no_literal Offline.Failing example_path rows 0 None
            true left) = left
  /\ snd (Offline.run no_literal Offline.Failing example_path rows 0 None
            true left) = Fails CallError.
Proof. vm_compute. repeat split. Qed.
